(** * AutoOps: the incident-analysis routes, embedded and verified

    A shallow embedding of the three request handlers of the repository

    - [app/api/analyze/stream/route.ts]  (modules [Stream], [StreamRoute]),
    - [app/api/analyze/route.ts]         (modules [Analyze], [AnalyzeRoute]),
    - [app/api/execute/route.ts]         (module [Execute]),

    and of the part of the page that calls them, [app/page.tsx] (module
    [Client]), followed by the properties established about them.

    Conventions of the embedding.

    - A JavaScript string is a [string] whose characters are the code
      units U+0000..U+00FF.
    - A JavaScript number is a [number]: [NaN], the two infinities, or
      [Fin q] for the rational [q] it denotes; every arithmetic result is
      rounded to binary64 by [rnd] (round to nearest, ties to even).  The
      sign of zero is not represented.
    - A value decoded from JSON is a [JSON]; [undefined] is [None] of
      [option JSON].
    - The built-ins whose behaviour is fixed by the language and not by the
      repository ([JSON.parse], [Number] and [String] on text) are the
      methods of the class [Engine]; [reference_engine] implements them.
    - What a route does to the outside is a list: the events the streaming
      route sends, each with the value it hands to [JSON.stringify], and
      the calls the execution trigger makes to the webhook.  What comes
      from the outside is an argument: the fragments of the model's stream
      and how it ends, the text of the model's answer, the answer of the
      webhook. *)

From Stdlib Require Import ZArith QArith Qround Qreduction Qcanon Qpower.
From Stdlib Require Import Bool List Ascii String DecimalString Lia.
From Stdlib Require Import Sorted Permutation.
Import ListNotations.

Local Open Scope string_scope.
Local Open Scope Z_scope.
Local Open Scope list_scope.

Set Warnings "-register-all".

(* ================================================================= *)
(** * Part I.  Definitions                                            *)
(* ================================================================= *)

(* ----------------------------------------------------------------- *)
(** ** Strings                                                        *)
(* ----------------------------------------------------------------- *)

Definition code (c : ascii) : Z := Z.of_nat (nat_of_ascii c).

Definition len (s : string) : Z := Z.of_nat (String.length s).

(** WhiteSpace and LineTerminator code units below U+0100. *)
Definition is_whitespace (c : ascii) : bool :=
  let n := code c in
  ((9 <=? n) && (n <=? 13)) || (n =? 32) || (n =? 160).

(** [String.prototype.trimStart], [trimEnd] and [trim]. *)
Fixpoint trimStart (s : string) : string :=
  match s with
  | String c s' => if is_whitespace c then trimStart s' else s
  | EmptyString => EmptyString
  end.

Fixpoint trimEnd (s : string) : string :=
  match s with
  | String c s' =>
      match trimEnd s' with
      | EmptyString => if is_whitespace c then EmptyString else String c EmptyString
      | t => String c t
      end
  | EmptyString => EmptyString
  end.

Definition trim (s : string) : string := trimEnd (trimStart s).

(** [s.indexOf(pat)]: the least position at which [pat] occurs, else -1. *)
Fixpoint indexOf_from (i : Z) (s pat : string) : Z :=
  if prefix pat s then i
  else match s with
       | String _ s' => indexOf_from (i + 1) s' pat
       | EmptyString => -1
       end.

Definition indexOf (s pat : string) : Z := indexOf_from 0 s pat.

(** [s.lastIndexOf(pat)]: the greatest such position, else -1. *)
Fixpoint lastIndexOf_from (i : Z) (s pat : string) : Z :=
  match s with
  | String _ s' =>
      let later := lastIndexOf_from (i + 1) s' pat in
      if 0 <=? later then later
      else if prefix pat s then i else -1
  | EmptyString => if prefix pat s then i else -1
  end.

Definition lastIndexOf (s pat : string) : Z := lastIndexOf_from 0 s pat.

Definition includes (s pat : string) : bool := negb (indexOf s pat =? -1).

(** [s.slice(from, to)]: negative positions count from the end, both are
    clipped to the string, and an empty range gives the empty string. *)
Definition clip_index (n i : Z) : Z :=
  if i <? 0 then Z.max (n + i) 0 else Z.min i n.

Definition slice (s : string) (from to : Z) : string :=
  let a := clip_index (len s) from in
  let b := clip_index (len s) to in
  substring (Z.to_nat a) (Z.to_nat (b - a)) s.

(** Case mappings of single code units below U+0100. *)
Definition lower_char (c : ascii) : ascii :=
  let n := code c in
  if ((65 <=? n) && (n <=? 90))
     || ((192 <=? n) && (n <=? 222) && negb (n =? 215))
  then ascii_of_nat (Z.to_nat (n + 32)) else c.

Definition upper_char (c : ascii) : ascii :=
  let n := code c in
  if ((97 <=? n) && (n <=? 122))
     || ((224 <=? n) && (n <=? 254) && negb (n =? 247))
  then ascii_of_nat (Z.to_nat (n - 32)) else c.

Fixpoint toLowerCase (s : string) : string :=
  match s with
  | String c s' => String (lower_char c) (toLowerCase s')
  | EmptyString => EmptyString
  end.

(** Does [pat] occur at the start of [s]?  With [ci] the comparison is the
    one of a regular expression with the [i] flag. *)
Fixpoint matches_at (ci : bool) (pat s : string) : bool :=
  match pat, s with
  | EmptyString, _ => true
  | String p pat', String c s' =>
      (if ci then Ascii.eqb (upper_char p) (upper_char c) else Ascii.eqb p c)
      && matches_at ci pat' s'
  | String _ _, EmptyString => false
  end.

(** [s.replace(/pat/g, repl)] for a literal pattern ([/pat/gi] with [ci]):
    occurrences are replaced from left to right, without overlap.  [skip]
    counts the characters of the current occurrence still to be dropped. *)
Fixpoint replace_from (ci : bool) (pat repl : string) (skip : nat) (s : string)
  : string :=
  match s with
  | EmptyString => EmptyString
  | String c s' =>
      match skip with
      | S k => replace_from ci pat repl k s'
      | O =>
          if matches_at ci pat s
          then repl ++ replace_from ci pat repl (String.length pat - 1) s'
          else String c (replace_from ci pat repl O s')
      end
  end.

Definition replace_all (ci : bool) (pat repl s : string) : string :=
  replace_from ci pat repl O s.

(** [xs.join(sep)]. *)
Definition join (sep : string) (xs : list string) : string :=
  String.concat sep xs.

(** A string is truthy when it is not empty; [a || b] on strings. *)
Definition nonempty (s : string) : bool := negb (String.eqb s "").

Definition or_else (a b : string) : string := if nonempty a then a else b.

(** The string of one character. *)
Definition char (c : ascii) : string := String c EmptyString.

(** The double quote, and a text between double quotes. *)
Definition quote : ascii := ascii_of_nat 34.

Definition quoted (s : string) : string :=
  String quote (s ++ String quote EmptyString).

(* ----------------------------------------------------------------- *)
(** ** Numbers                                                        *)
(* ----------------------------------------------------------------- *)

Inductive number : Set :=
| NaN
| PInf
| NInf
| Fin (q : Q).

Definition pow2 (e : Z) : Q :=
  if 0 <=? e then inject_Z (2 ^ e) else (1 # Z.to_pos (2 ^ (- e)))%Q.

(** [floor (log2 q)] for a positive [q]. *)
Definition ilog2 (q : Q) : Z :=
  let g := Z.log2 (Qnum q) - Z.log2 (Zpos (Qden q)) in
  if Qle_bool (pow2 g) q then g else g - 1.

Definition round_half_even (q : Q) : Z :=
  let f := Qfloor q in
  match Qcompare (q - inject_Z f) (1 # 2) with
  | Lt => f
  | Gt => f + 1
  | Eq => if Z.even f then f else f + 1
  end.

(** The binary64 value nearest to a positive rational: a 53-bit significand
    scaled by a power of two not below [2^-1074]; values that round to
    [2^1024] or more overflow. *)
Definition round_magnitude (q : Q) : number :=
  let e := Z.max (ilog2 q - 52) (-1074) in
  let m := round_half_even (q / pow2 e) in
  let r := (inject_Z m * pow2 e)%Q in
  if Qle_bool (pow2 1024) r then PInf else Fin (Qred r).

Definition neg (x : number) : number :=
  match x with
  | NaN => NaN
  | PInf => NInf
  | NInf => PInf
  | Fin q => Fin (- q)
  end.

(** Integers of magnitude at most [2^53] are binary64 values. *)
Definition is_safe_integer (q : Q) : bool :=
  (Qden q =? 1)%positive && (Z.abs (Qnum q) <=? 2 ^ 53).

(** Rounding of an exact result to binary64. *)
Definition rnd (q : Q) : number :=
  let q' := Qred q in
  if is_safe_integer q' then Fin q'
  else match Qnum q' with
       | Z0 => Fin 0
       | Zpos _ => round_magnitude q'
       | Zneg _ => neg (round_magnitude (- q'))
       end.

(** A numeric literal of the source, and an array length as a number. *)
Definition lit (q : Q) : number := rnd q.
Definition int (z : Z) : number := Fin (inject_Z z).
Definition of_nat (n : nat) : number := int (Z.of_nat n).

Definition add (x y : number) : number :=
  match x, y with
  | NaN, _ | _, NaN => NaN
  | PInf, NInf | NInf, PInf => NaN
  | PInf, _ | _, PInf => PInf
  | NInf, _ | _, NInf => NInf
  | Fin a, Fin b => rnd (a + b)
  end.

Definition sub (x y : number) : number := add x (neg y).

Definition sign (q : Q) : comparison := Qcompare q 0.

Definition mul (x y : number) : number :=
  match x, y with
  | NaN, _ | _, NaN => NaN
  | Fin a, Fin b => rnd (a * b)
  | Fin a, PInf | PInf, Fin a =>
      match sign a with Eq => NaN | Gt => PInf | Lt => NInf end
  | Fin a, NInf | NInf, Fin a =>
      match sign a with Eq => NaN | Gt => NInf | Lt => PInf end
  | PInf, PInf | NInf, NInf => PInf
  | PInf, NInf | NInf, PInf => NInf
  end.

Definition div (x y : number) : number :=
  match x, y with
  | NaN, _ | _, NaN => NaN
  | Fin a, Fin b =>
      match sign b with
      | Eq => match sign a with Eq => NaN | Gt => PInf | Lt => NInf end
      | _ => rnd (a / b)
      end
  | Fin _, _ => Fin 0
  | PInf, Fin b => match sign b with Lt => NInf | _ => PInf end
  | NInf, Fin b => match sign b with Lt => PInf | _ => NInf end
  | _, _ => NaN
  end.

(** [x <= y] on numbers other than [NaN]. *)
Definition leb (x y : number) : bool :=
  match x, y with
  | NaN, _ | _, NaN => false
  | NInf, _ | _, PInf => true
  | PInf, _ | _, NInf => false
  | Fin a, Fin b => Qle_bool a b
  end.

Definition ltb (x y : number) : bool :=
  match x, y with
  | NaN, _ | _, NaN => false
  | _, _ => negb (leb y x)
  end.

(** [x === y] on numbers. *)
Definition num_eqb (x y : number) : bool := leb x y && leb y x.

Definition Number_isFinite (x : number) : bool :=
  match x with Fin _ => true | _ => false end.

Definition Math_max (x y : number) : number :=
  match x, y with
  | NaN, _ | _, NaN => NaN
  | _, _ => if leb x y then y else x
  end.

Definition Math_min (x y : number) : number :=
  match x, y with
  | NaN, _ | _, NaN => NaN
  | _, _ => if leb x y then x else y
  end.

(** [Math.round]: the nearest integer, halves towards positive infinity. *)
Definition Math_round (x : number) : number :=
  match x with
  | Fin q => int (Qfloor (q + (1 # 2)))
  | _ => x
  end.

(* ----------------------------------------------------------------- *)
(** ** Values decoded from JSON                                       *)
(* ----------------------------------------------------------------- *)

(** An object is the list of its properties in enumeration order. *)
Inductive JSON : Type :=
| JNull
| JBool (b : bool)
| JNumber (n : number)
| JString (s : string)
| JArray (items : list JSON)
| JObject (fields : list (string * JSON)).

(** A JavaScript value as the routes see it: [None] is [undefined]. *)
Definition value : Type := option JSON.
Definition undefined : value := None.

Fixpoint lookup (fields : list (string * JSON)) (k : string) : value :=
  match fields with
  | (k', v) :: rest => if String.eqb k' k then Some v else lookup rest k
  | [] => undefined
  end.

(** [v?.k] for the property names the routes read.  None of them is an own
    or inherited property of an array, a string, a number or a boolean, so
    only objects answer. *)
Definition prop (v : value) (k : string) : value :=
  match v with
  | Some (JObject fields) => lookup fields k
  | _ => undefined
  end.

(** [o.k = v] on the property list of an object: an existing property keeps
    its place, a new one is added last. *)
Fixpoint put (fields : list (string * JSON)) (k : string) (v : JSON)
  : list (string * JSON) :=
  match fields with
  | (k', v') :: rest =>
      if String.eqb k' k then (k', v) :: rest else (k', v') :: put rest k v
  | [] => [(k, v)]
  end.

Definition truthy (v : value) : bool :=
  match v with
  | None | Some JNull => false
  | Some (JBool b) => b
  | Some (JNumber NaN) => false
  | Some (JNumber (Fin q)) => negb (Qeq_bool q 0)
  | Some (JNumber _) => true
  | Some (JString s) => negb (String.eqb s "")
  | Some (JArray _) | Some (JObject _) => true
  end.

Definition Array_isArray (v : value) : bool :=
  match v with Some (JArray _) => true | _ => false end.

(** [Array.isArray(v) ? v : []]. *)
Definition array_or_empty (v : value) : list JSON :=
  match v with Some (JArray items) => items | _ => [] end.

(** [typeof v === "object"]. *)
Definition typeof_object (v : value) : bool :=
  match v with
  | Some JNull | Some (JArray _) | Some (JObject _) => true
  | _ => false
  end.

(** [typeof v === "string" ? v : fallback]. *)
Definition string_or (v : value) (fallback : string) : string :=
  match v with Some (JString s) => s | _ => fallback end.

(** [v === k] for a string constant [k]. *)
Definition is_string (v : value) (k : string) : bool :=
  match v with Some (JString s) => String.eqb s k | _ => false end.

(* ----------------------------------------------------------------- *)
(** ** The built-ins of the language                                  *)
(* ----------------------------------------------------------------- *)

(** [JSON_parse] answers [None] where [JSON.parse] throws a SyntaxError;
    [StringToNumber] and [NumberToString] are the conversions between text
    and numbers that [Number(s)] and [String(n)] perform. *)
Class Engine : Type := {
  JSON_parse : string -> option JSON;
  StringToNumber : string -> number;
  NumberToString : number -> string
}.

Section Conversions.
Context {E : Engine}.

(** [String(v)] for a value other than [undefined]. *)
Fixpoint String_of (v : JSON) : string :=
  match v with
  | JNull => "null"
  | JBool true => "true"
  | JBool false => "false"
  | JNumber n => NumberToString n
  | JString s => s
  | JArray items =>
      join "," (map (fun x => match x with
                              | JNull => ""
                              | _ => String_of x
                              end) items)
  | JObject _ => "[object Object]"
  end.

(** [Number(v)]. *)
Definition Number (v : value) : number :=
  match v with
  | None => NaN
  | Some JNull => int 0
  | Some (JBool true) => int 1
  | Some (JBool false) => int 0
  | Some (JNumber n) => n
  | Some (JString s) => StringToNumber s
  | Some (JArray items) => StringToNumber (String_of (JArray items))
  | Some (JObject _) => NaN
  end.

End Conversions.

(* ----------------------------------------------------------------- *)
(** ** The streaming route: app/api/analyze/stream/route.ts           *)
(* ----------------------------------------------------------------- *)

Module Stream.

(** The three kinds of server-sent events; the payload of [token] is
    [{text}], of [final] the report object, of [error] is [{message}]. *)
Inductive event : Type :=
| token (text : string)
| final (report : JSON)
| error (message : string).

(** The mutable variables of [POST] and of [start]. *)
Record state : Type := {
  fullText : string;
  finalSent : bool;
  jsonStarted : bool;
  lastNarrationSentIndex : Z
}.

(** How the body of the [for await] loop leaves: on to the next chunk, or
    out of [start] by [return]. *)
Inductive control : Type :=
| continue (st : state)
| returned (st : state).

(** How the model's stream ends: it is exhausted, or reading it throws [e]
    (with [e?.message] as given). *)
Inductive ending : Type :=
| closed
| failed (message : option string).

Definition FINAL_JSON_open : string := "<FINAL_JSON>".
Definition FINAL_JSON_close : string := "</FINAL_JSON>".

Section Route.
Context {E : Engine}.

Definition clamp (n min max : number) : number :=
  Math_min max (Math_max min n).

Definition safeInt (v : value) (fallback : number) : number :=
  let n := Number v in
  if Number_isFinite n then clamp (Math_round n) (int 0) (int 100)
  else fallback.

Definition safeProb (v : value) : number :=
  let n := Number v in
  if Number_isFinite n then clamp n (int 0) (int 1) else int 0.

(** [s?.status === k]. *)
Definition status_is (k : string) (s : JSON) : bool :=
  is_string (prop (Some s) "status") k.

Definition calculateSeverityFromServices (svcs : list JSON) : number :=
  let score :=
    fold_left
      (fun score s =>
         let score := if status_is "down" s then add score (int 35) else score in
         if status_is "degraded" s then add score (int 15) else score)
      svcs (int 0) in
  clamp score (int 0) (int 100).

Definition calculateBlastRadius (svcs : list JSON) : number :=
  let total := List.length svcs in
  match total with
  | O => int 0
  | _ =>
      let down := List.length (filter (status_is "down") svcs) in
      let degraded := List.length (filter (status_is "degraded") svcs) in
      clamp
        (Math_round
           (mul (div (add (of_nat down) (mul (of_nat degraded) (lit (5 # 10))))
                     (of_nat total))
                (int 100)))
        (int 0) (int 100)
  end.

Definition calculateImpactFromPropagation (p : value) : number :=
  let nodeCount :=
    if Array_isArray (prop p "nodes")
    then List.length (array_or_empty (prop p "nodes")) else O in
  let edgeCount :=
    if Array_isArray (prop p "edges")
    then List.length (array_or_empty (prop p "edges")) else O in
  clamp (add (mul (of_nat nodeCount) (int 5)) (mul (of_nat edgeCount) (int 8)))
        (int 0) (int 100).

(** [parsed.k = v] in strict code, as the event payload sees it: an object
    gets or updates the property, an array keeps its elements (a named
    property of an array is not serialised), anything else throws. *)
Definition assign (parsed : JSON) (k : string) (v : JSON) : option JSON :=
  match parsed with
  | JObject fields => Some (JObject (put fields k v))
  | JArray items => Some (JArray items)
  | _ => None
  end.

(** The hybrid scoring applied to the parsed payload, lines 158-242; [None]
    where a TypeError is thrown. *)
Definition hybrid (parsed : JSON) : option JSON :=
  match parsed with
  | JNull => None
  | _ =>
      let p := Some parsed in
      let services := array_or_empty (prop p "services") in
      let propagation :=
        if truthy (prop p "propagation") && typeof_object (prop p "propagation")
        then prop p "propagation"
        else Some (JObject [("nodes", JArray []); ("edges", JArray [])]) in
      let aiSeverity := safeInt (prop p "severity_score") (int 0) in
      let aiImpact := safeInt (prop p "business_impact_score") (int 0) in
      let deterministicSeverity := calculateSeverityFromServices services in
      let deterministicImpact := calculateImpactFromPropagation propagation in
      let blastRadiusScore := calculateBlastRadius services in
      let severity_score :=
        clamp (Math_max aiSeverity deterministicSeverity) (int 0) (int 100) in
      let business_impact_score :=
        clamp
          (Math_round
             (add (add (mul aiImpact (lit (5 # 10)))
                       (mul deterministicImpact (lit (3 # 10))))
                  (mul blastRadiusScore (lit (2 # 10)))))
          (int 0) (int 100) in
      match assign parsed "severity_score" (JNumber severity_score) with
      | None => None
      | Some parsed1 =>
          match assign parsed1 "business_impact_score"
                       (JNumber business_impact_score) with
          | None => None
          | Some parsed2 =>
              assign parsed2 "confidence"
                     (JNumber (safeProb (prop (Some parsed2) "confidence")))
          end
      end
  end.

(** The [try] block of lines 151-254: parse, score. *)
Definition parse_and_score (jsonText : string) : option JSON :=
  match JSON_parse jsonText with
  | Some parsed => hybrid parsed
  | None => None
  end.

(** One turn of the [for await] loop, lines 110-263: the events sent and how
    the turn leaves. *)
Definition on_chunk (st : state) (text : string) : list event * control :=
  if String.eqb text "" then ([], continue st)
  else
    let fullText' := (fullText st ++ text)%string in
    let '(sent, jsonStarted') :=
      if negb (finalSent st) && negb (jsonStarted st) then
        let startIndex := indexOf fullText' FINAL_JSON_open in
        if startIndex =? -1 then ([token text], jsonStarted st)
        else
          let narrationPart :=
            slice fullText' (lastNarrationSentIndex st) startIndex in
          (if negb (String.eqb (trim narrationPart) "")
           then [token narrationPart] else [],
           true)
      else ([], jsonStarted st) in
    let st' := {| fullText := fullText';
                  finalSent := finalSent st;
                  jsonStarted := jsonStarted';
                  lastNarrationSentIndex := lastNarrationSentIndex st |} in
    if negb (finalSent st) then
      let start := indexOf fullText' FINAL_JSON_open in
      let end_ := indexOf fullText' FINAL_JSON_close in
      if negb (start =? -1) && negb (end_ =? -1) && (start <? end_) then
        let jsonText :=
          trim (slice fullText' (start + len FINAL_JSON_open) end_) in
        match parse_and_score jsonText with
        | Some report =>
            (sent ++ [final report],
             returned {| fullText := "";
                         finalSent := true;
                         jsonStarted := jsonStarted';
                         lastNarrationSentIndex := lastNarrationSentIndex st |})
        | None =>
            (sent ++ [error "Invalid JSON structure from model."], returned st')
        end
      else (sent, continue st')
    else (sent, continue st').

(** The loop over the chunks of the model's stream and what follows it,
    lines 109-280. *)
Fixpoint consume (st : state) (chunks : list string) (e : ending)
  : list event :=
  match chunks with
  | text :: rest =>
      match on_chunk st text with
      | (sent, continue st') => sent ++ consume st' rest e
      | (sent, returned _) => sent
      end
  | [] =>
      match e with
      | closed =>
          if negb (finalSent st)
          then [error "Model did not return FINAL_JSON block."] else []
      | failed message =>
          [error (match message with
                  | Some m => m
                  | None => "Streaming failed"
                  end)]
      end
  end.

Definition initial : state :=
  {| fullText := ""; finalSent := false; jsonStarted := false;
     lastNarrationSentIndex := 0 |}.

(** The [start] callback of the response stream: every event it sends. *)
Definition start (chunks : list string) (e : ending) : list event :=
  consume initial chunks e.

End Route.
End Stream.

(* ----------------------------------------------------------------- *)
(** ** Responses of the JSON routes                                   *)
(* ----------------------------------------------------------------- *)

(** [NextResponse.json(body, { status })]. *)
Record response : Type := {
  status_code : Z;
  body : JSON
}.

Definition json_error (message : string) (code_ : Z) : response :=
  {| status_code := code_; body := JObject [("error", JString message)] |}.

(* ----------------------------------------------------------------- *)
(** ** The synchronous route: app/api/analyze/route.ts                *)
(* ----------------------------------------------------------------- *)

Module Analyze.

Inductive ServiceStatus : Set := healthy | degraded | down.

Module Cause.
Record t : Type := {
  name : string;
  probability : number;
  reasoning : string;
  recommended_action : string
}.
End Cause.

Module Service.
Record t : Type := {
  name : string;
  status : ServiceStatus;
  signals : list string;
  suspected_components : list string
}.
End Service.

Module Node.
Record t : Type := { id : string; label : string }.
End Node.

Module Edge.
Record t : Type := { from : string; to : string; label : string }.
End Edge.

Module Propagation.
Record t : Type := { nodes : list Node.t; edges : list Edge.t }.
End Propagation.

Record AnalyzeResult : Type := {
  incident_type : string;
  executive_summary : string;
  severity_score : number;
  business_impact_score : number;
  estimated_recovery_time_minutes : number;
  probable_causes : list Cause.t;
  recommended_runbook_steps : list string;
  confidence : number;
  services : list Service.t;
  propagation : Propagation.t
}.

(** [xs.sort(cmp)]: the stable sort by a comparator; [x] is moved behind
    [y] exactly when [cmp x y] is positive. *)
Definition positive (n : number) : bool := ltb (int 0) n.

Fixpoint insert_sorted {A : Type} (cmp : A -> A -> number) (x : A) (l : list A)
  : list A :=
  match l with
  | y :: l' => if positive (cmp x y) then y :: insert_sorted cmp x l' else x :: l
  | [] => [x]
  end.

Definition sort {A : Type} (cmp : A -> A -> number) (l : list A) : list A :=
  fold_right (insert_sorted cmp) [] l.

(** [xs.filter(x => { if (seen.has(key x)) return false; seen.add(key x);
    return true; })] with the set [seen] as the list of its members. *)
Fixpoint filter_unseen {A : Type} (key : A -> string) (seen : list string)
  (l : list A) : list A :=
  match l with
  | x :: l' =>
      if existsb (String.eqb (key x)) seen then filter_unseen key seen l'
      else x :: filter_unseen key (key x :: seen) l'
  | [] => []
  end.

Section Route.
Context {E : Engine}.

(* ---------------- SAFETY HELPERS ---------------- *)

Definition clamp (n min max : number) : number :=
  Math_min max (Math_max min n).

Definition toNumber (v : value) (fallback : number) : number :=
  let n := Number v in
  if Number_isFinite n then n else fallback.

Definition toInt01to100 (v : value) (fallback : number) : number :=
  clamp (Math_round (toNumber v fallback)) (int 0) (int 100).

Definition toProb01 (v : value) (fallback : number) : number :=
  clamp (toNumber v fallback) (int 0) (int 1).

Definition toStringSafe (v : value) (fallback : string) : string :=
  string_or v fallback.

Definition toStringArray (v : value) (limit : nat) : list string :=
  if Array_isArray v then
    firstn limit
      (filter nonempty
         (map trim
            (map (fun x => match x with
                           | JString s => s
                           | JNull => String_of (JString "")
                           | _ => String_of x
                           end)
                 (array_or_empty v))))
  else [].

Definition safeServiceStatus (v : value) : ServiceStatus :=
  if is_string v "healthy" then healthy
  else if is_string v "degraded" then degraded
  else if is_string v "down" then down
  else degraded.

Definition fence_json : string := "```json".
Definition fence : string := "```".

(** The text handed to [JSON.parse] by [safeJSONParse]. *)
Definition candidate (text : string) : string :=
  let cleaned :=
    trim (replace_all false fence "" (replace_all true fence_json "" text)) in
  let first := indexOf cleaned "{" in
  let last := lastIndexOf cleaned "}" in
  if negb (first =? -1) && negb (last =? -1) && (first <? last)
  then slice cleaned first (last + 1)
  else cleaned.

Definition safeJSONParse (text : string) : option JSON :=
  JSON_parse (candidate text).

(* ---------------- FALLBACK BUILDERS ---------------- *)

Definition buildFallbackServices (incidentType : string) : list Service.t :=
  let base0 :=
    {| Service.name := "api-gateway"; Service.status := degraded;
       Service.signals := ["Fallback service map"];
       Service.suspected_components := ["request-routing"; "auth"; "rate-limiter"] |} in
  let base1 :=
    {| Service.name := "primary-db"; Service.status := degraded;
       Service.signals := ["Fallback service map"];
       Service.suspected_components := ["connections"; "replication"; "locks"] |} in
  let base2 :=
    {| Service.name := "cache"; Service.status := healthy;
       Service.signals := ["Fallback service map"];
       Service.suspected_components := ["evictions"; "latency"; "memory"] |} in
  let set_status (s : Service.t) (st : ServiceStatus) :=
    {| Service.name := Service.name s; Service.status := st;
       Service.signals := Service.signals s;
       Service.suspected_components := Service.suspected_components s |} in
  let it := toLowerCase incidentType in
  if includes it "outage" || includes it "down" || includes it "critical"
  then [set_status base0 down; set_status base1 down; set_status base2 degraded]
  else [base0; base1; base2].

Definition buildPropagationFromServices (services : list Service.t)
  : Propagation.t :=
  let nodes :=
    map (fun s => {| Node.id := Service.name s; Node.label := Service.name s |})
        services in
  let edges :=
    match services with
    | s0 :: s1 :: s2 :: _ =>
        [ {| Edge.from := Service.name s0; Edge.to := Service.name s1;
             Edge.label := "depends_on" |};
          {| Edge.from := Service.name s0; Edge.to := Service.name s2;
             Edge.label := "uses_cache" |} ]
    | _ => []
    end in
  {| Propagation.nodes := nodes; Propagation.edges := edges |}.

(* ---------------- HYBRID DETERMINISTIC SCORING ---------------- *)

Definition has_status (st : ServiceStatus) (s : Service.t) : bool :=
  match Service.status s, st with
  | healthy, healthy | degraded, degraded | down, down => true
  | _, _ => false
  end.

Definition calculateSeverityFromServices (services : list Service.t) : number :=
  let downCount := List.length (filter (has_status down) services) in
  let degradedCount := List.length (filter (has_status degraded) services) in
  let score := int 0 in
  let score :=
    if (2 <=? downCount)%nat then add score (int 70)
    else if (downCount =? 1)%nat then add score (int 45)
    else score in
  let score := add score (mul (of_nat degradedCount) (int 10)) in
  clamp score (int 0) (int 100).

Definition calculateBlastRadius (services : list Service.t) : number :=
  let total := List.length services in
  match total with
  | O => int 0
  | _ =>
      let down_ := List.length (filter (has_status down) services) in
      let degraded_ := List.length (filter (has_status degraded) services) in
      let radius :=
        div (add (of_nat down_) (mul (of_nat degraded_) (lit (5 # 10))))
            (of_nat total) in
      clamp (Math_round (mul radius (int 100))) (int 0) (int 100)
  end.

Definition calculateImpactFromPropagation (p : Propagation.t) : number :=
  let nodeCount := List.length (Propagation.nodes p) in
  let edgeCount := List.length (Propagation.edges p) in
  clamp (add (mul (of_nat nodeCount) (int 5)) (mul (of_nat edgeCount) (int 8)))
        (int 0) (int 100).

(* ---------------- MAIN ---------------- *)

(** Lines 309-321. *)
Definition normalize_causes (parsed : value) : list Cause.t :=
  firstn 5
    (sort (fun a b => sub (Cause.probability b) (Cause.probability a))
       (filter (fun c => (0 <? len (trim (Cause.name c))))
          (map (fun c =>
                  {| Cause.name := toStringSafe (prop (Some c) "name") "Unknown Cause";
                     Cause.probability := toProb01 (prop (Some c) "probability") (int 0);
                     Cause.reasoning := toStringSafe (prop (Some c) "reasoning") "";
                     Cause.recommended_action :=
                       toStringSafe (prop (Some c) "recommended_action") "" |})
               (array_or_empty (prop parsed "probable_causes"))))).

(** Lines 328-338: the service entries the input supplies. *)
Definition supplied_services (parsed : value) : list Service.t :=
  filter (fun s => (0 <? len (Service.name s)))
    (map (fun s =>
            {| Service.name :=
                 or_else (trim (toStringSafe (prop (Some s) "name") ""))
                         "unknown-service";
               Service.status := safeServiceStatus (prop (Some s) "status");
               Service.signals := toStringArray (prop (Some s) "signals") 12;
               Service.suspected_components :=
                 toStringArray (prop (Some s) "suspected_components") 12 |})
         (array_or_empty (prop parsed "services"))).

(** Lines 340-342: the fallback when fewer than three were supplied. *)
Definition services_or_fallback (parsed : value) (incident_type_ : string)
  : list Service.t :=
  let services := supplied_services parsed in
  if (List.length services <? 3)%nat then buildFallbackServices incident_type_
  else services.

(** Lines 328-349. *)
Definition normalize_services (parsed : value) (incident_type_ : string)
  : list Service.t :=
  filter_unseen Service.name [] (services_or_fallback parsed incident_type_).

(** Lines 351-386: the propagation graph read from the input, if usable. *)
Definition supplied_propagation (parsed : value) : option Propagation.t :=
  let p := prop parsed "propagation" in
  if truthy (prop p "nodes") && truthy (prop p "edges")
     && Array_isArray (prop p "nodes") && Array_isArray (prop p "edges")
  then
    let nodes :=
      firstn 30
        (filter_unseen Node.id []
           (filter (fun n => nonempty (Node.id n) && nonempty (Node.label n))
              (map (fun n =>
                      {| Node.id := trim (toStringSafe (prop (Some n) "id") "");
                         Node.label := trim (toStringSafe (prop (Some n) "label") "") |})
                   (array_or_empty (prop p "nodes"))))) in
    let edges :=
      firstn 60
        (filter (fun e => nonempty (Edge.from e) && nonempty (Edge.to e))
           (map (fun e =>
                   {| Edge.from := trim (toStringSafe (prop (Some e) "from") "");
                      Edge.to := trim (toStringSafe (prop (Some e) "to") "");
                      Edge.label :=
                        or_else (trim (toStringSafe (prop (Some e) "label") ""))
                                "depends_on" |})
                (array_or_empty (prop p "edges")))) in
    if (2 <=? List.length nodes)%nat
    then Some {| Propagation.nodes := nodes; Propagation.edges := edges |}
    else None
  else None.

(** Lines 295-425: the report built from the parsed model output. *)
Definition safeResponse (parsed : value) : AnalyzeResult :=
  let incident_type_ := toStringSafe (prop parsed "incident_type") "Unknown Incident" in
  let executive_summary_ := toStringSafe (prop parsed "executive_summary") "" in
  let aiSeverity := toInt01to100 (prop parsed "severity_score") (int 0) in
  let aiImpact := toInt01to100 (prop parsed "business_impact_score") (int 0) in
  let estimated_recovery_time_minutes_ :=
    Math_max (int 0) (toNumber (prop parsed "estimated_recovery_time_minutes") (int 0)) in
  let confidence_ := toProb01 (prop parsed "confidence") (int 0) in
  let probable_causes_ := normalize_causes parsed in
  let recommended_runbook_steps_ :=
    toStringArray (prop parsed "recommended_runbook_steps") 10 in
  let services_ := normalize_services parsed incident_type_ in
  let propagation_ :=
    match supplied_propagation parsed with
    | Some p => p
    | None => buildPropagationFromServices services_
    end in
  let deterministicSeverity := calculateSeverityFromServices services_ in
  let deterministicImpact := calculateImpactFromPropagation propagation_ in
  let blastRadiusScore := calculateBlastRadius services_ in
  let finalSeverity :=
    clamp (Math_round (Math_max aiSeverity deterministicSeverity))
          (int 0) (int 100) in
  let finalImpact :=
    clamp
      (Math_round
         (add (add (mul aiImpact (lit (5 # 10)))
                   (mul deterministicImpact (lit (3 # 10))))
              (mul blastRadiusScore (lit (2 # 10)))))
      (int 0) (int 100) in
  {| incident_type := incident_type_;
     executive_summary := executive_summary_;
     severity_score := finalSeverity;
     business_impact_score := finalImpact;
     estimated_recovery_time_minutes := estimated_recovery_time_minutes_;
     probable_causes := probable_causes_;
     recommended_runbook_steps := recommended_runbook_steps_;
     confidence := confidence_;
     services := services_;
     propagation := propagation_ |}.

(** The body of the successful response, lines 428-431:
    [{ ...safeResponse, external_intelligence }]. *)
Definition strings_json (l : list string) : JSON := JArray (map JString l).

Definition status_json (st : ServiceStatus) : JSON :=
  JString (match st with
           | healthy => "healthy"
           | degraded => "degraded"
           | down => "down"
           end).

Definition cause_json (c : Cause.t) : JSON :=
  JObject [("name", JString (Cause.name c));
           ("probability", JNumber (Cause.probability c));
           ("reasoning", JString (Cause.reasoning c));
           ("recommended_action", JString (Cause.recommended_action c))].

Definition service_json (s : Service.t) : JSON :=
  JObject [("name", JString (Service.name s));
           ("status", status_json (Service.status s));
           ("signals", strings_json (Service.signals s));
           ("suspected_components", strings_json (Service.suspected_components s))].

Definition node_json (n : Node.t) : JSON :=
  JObject [("id", JString (Node.id n)); ("label", JString (Node.label n))].

Definition edge_json (e : Edge.t) : JSON :=
  JObject [("from", JString (Edge.from e)); ("to", JString (Edge.to e));
           ("label", JString (Edge.label e))].

Definition propagation_json (p : Propagation.t) : JSON :=
  JObject [("nodes", JArray (map node_json (Propagation.nodes p)));
           ("edges", JArray (map edge_json (Propagation.edges p)))].

Definition report_json (r : AnalyzeResult) (externalContext : string) : JSON :=
  JObject [("incident_type", JString (incident_type r));
           ("executive_summary", JString (executive_summary r));
           ("severity_score", JNumber (severity_score r));
           ("business_impact_score", JNumber (business_impact_score r));
           ("estimated_recovery_time_minutes",
            JNumber (estimated_recovery_time_minutes r));
           ("probable_causes", JArray (map cause_json (probable_causes r)));
           ("recommended_runbook_steps",
            strings_json (recommended_runbook_steps r));
           ("confidence", JNumber (confidence r));
           ("services", JArray (map service_json (services r)));
           ("propagation", propagation_json (propagation r));
           ("external_intelligence", JString externalContext)].

(** Lines 286-431: from the model's text to the response. *)
Definition respond (text externalContext : string) : response :=
  match safeJSONParse text with
  | None => json_error "AI returned invalid JSON" 500
  | Some parsed =>
      {| status_code := 200;
         body := report_json (safeResponse (Some parsed)) externalContext |}
  end.

(** [POST]: [request] is the decoded request body ([None] where
    [req.json()] throws), [externalContext] the enrichment text of lines
    186-216, [generated] the text of the model's answer ([None] where the
    model call throws). *)
Definition POST (request : option JSON) (externalContext : string)
  (generated : option string) : response :=
  match request with
  | None => json_error "Failed to analyze logs" 500
  | Some b =>
      let logs := prop (Some b) "logs" in
      match logs with
      | Some (JString l) =>
          if negb (truthy logs) || negb (nonempty (trim l))
          then json_error "Logs are required" 400
          else
            match generated with
            | None => json_error "Failed to analyze logs" 500
            | Some text => respond text externalContext
            end
      | _ => json_error "Logs are required" 400
      end
  end.

End Route.
End Analyze.

(* ----------------------------------------------------------------- *)
(** ** The execution trigger: app/api/execute/route.ts                *)
(* ----------------------------------------------------------------- *)

Module Execute.

(** A request sent to the webhook: the [service] of its body. *)
Record webhook_call : Type := {
  action : string;
  service : string;
  triggeredBy : string;
  timestamp : string
}.

Definition allowed : list string := ["api-gateway"; "primary-db"; "cache"].

(** [allowed.includes(v)]. *)
Definition allowed_includes (v : value) : bool :=
  match v with
  | Some (JString s) => existsb (String.eqb s) allowed
  | _ => false
  end.

(** What awaiting an outside call yields: its result, or the error [err]
    it throws (with [err?.message] as given). *)
Inductive attempt (A : Type) : Type :=
| ok (a : A)
| thrown (message : option string).
Arguments ok {A} a.
Arguments thrown {A} message.

(** [err?.message ?? "Execution failed"]. *)
Definition failure (message : option string) : response :=
  json_error (match message with
              | Some m => m
              | None => "Execution failed"
              end) 500.

(** [POST]: [request] is what [req.json()] yields, [now] the time stamp,
    [webhook] what [fetch] yields (the status of the webhook's answer).
    The result is the list of calls made to the webhook and the response. *)
Definition POST (request : attempt JSON) (now : string) (webhook : attempt Z)
  : list webhook_call * response :=
  match request with
  | thrown message => ([], failure message)
  | ok b =>
      let service_ := prop (Some b) "service" in
      if negb (allowed_includes service_)
      then ([], json_error "Invalid service" 400)
      else
        let name := string_or service_ "" in
        let call := {| action := "scale_up"; service := name;
                       triggeredBy := "AutoOps AI"; timestamp := now |} in
        match webhook with
        | ok webhook_status =>
            ([call],
             {| status_code := 200;
                body := JObject
                  [("status", JString "executed");
                   ("service", JString name);
                   ("webhook_status", JNumber (int webhook_status));
                   ("message",
                    JString ("Real infrastructure action triggered for " ++ name))] |})
        | thrown message => ([call], failure message)
        end
  end.

End Execute.

(* ----------------------------------------------------------------- *)
(** ** A reference engine                                             *)
(* ----------------------------------------------------------------- *)

(** The built-ins as ECMA-262 and ECMA-404 define them, on strings of code
    units below U+0100 (an escape for a code unit above U+00FF is not
    accepted). *)
Module Reference.

Definition pow10 (e : Z) : Q :=
  if 0 <=? e then inject_Z (10 ^ e) else (1 # Z.to_pos (10 ^ (- e)))%Q.

Definition digit_value (base : Z) (c : ascii) : option Z :=
  let n := code c in
  let d := if (48 <=? n) && (n <=? 57) then n - 48
           else if (97 <=? n) && (n <=? 102) then n - 87
           else if (65 <=? n) && (n <=? 70) then n - 55
           else base in
  if d <? base then Some d else None.

(** The longest run of digits at the start of [s]: its value, its length
    and what follows it. *)
Fixpoint read_digits (base : Z) (acc : Z) (count : nat) (s : string)
  : Z * nat * string :=
  match s with
  | String c s' =>
      match digit_value base c with
      | Some d => read_digits base (acc * base + d) (S count) s'
      | None => (acc, count, s)
      end
  | EmptyString => (acc, count, s)
  end.

Definition strip (pat s : string) : option string :=
  if prefix pat s
  then Some (substring (String.length pat) (String.length s - String.length pat) s)
  else None.

(** An optional exponent part [e+12]; without digits nothing is read. *)
Definition read_exponent (s : string) : Z * string :=
  match s with
  | String c s' =>
      if (code c =? 101) || (code c =? 69) then
        let '(sg, s'') :=
          match s' with
          | String "+" t => (1, t)
          | String "-" t => (-1, t)
          | _ => (1, s')
          end in
        match read_digits 10 0 O s'' with
        | (_, O, _) => (0, s)
        | (e, _, rest) => (sg * e, rest)
        end
      else (0, s)
  | EmptyString => (0, s)
  end.

(** A decimal literal [i.f e x] with [fl] digits in [f]. *)
Definition decimal (i f : Z) (fl : nat) (x : Z) : number :=
  rnd ((inject_Z (i * 10 ^ Z.of_nat fl + f) * pow10 (x - Z.of_nat fl))%Q).

(** *** JSON.parse *)

Definition json_whitespace (c : ascii) : bool :=
  let n := code c in (n =? 32) || (n =? 9) || (n =? 10) || (n =? 13).

Fixpoint skip_whitespace (s : string) : string :=
  match s with
  | String c s' => if json_whitespace c then skip_whitespace s' else s
  | EmptyString => s
  end.

Definition parse_number (s : string) : option (number * string) :=
  let '(negative, s1) :=
    match s with String "-" t => (true, t) | _ => (false, s) end in
  match read_digits 10 0 O s1 with
  | (_, O, _) => None
  | (i, il, s2) =>
      if (1 <? il)%nat && prefix "0" s1 then None
      else
        let frac :=
          match s2 with
          | String "." t =>
              match read_digits 10 0 O t with
              | (_, O, _) => None
              | (f, fl, s3) => Some (f, fl, s3)
              end
          | _ => Some (0, O, s2)
          end in
        match frac with
        | None => None
        | Some (f, fl, s3) =>
            let '(x, s4) := read_exponent s3 in
            let n := decimal i f fl x in
            Some (if negative then neg n else n, s4)
        end
  end.

Definition escape (c : ascii) : option ascii :=
  if Ascii.eqb c quote then Some quote else
  match c with
  | "\"%char => Some "\"%char
  | "/"%char => Some "/"%char
  | "b"%char => Some (ascii_of_nat 8)
  | "f"%char => Some (ascii_of_nat 12)
  | "n"%char => Some (ascii_of_nat 10)
  | "r"%char => Some (ascii_of_nat 13)
  | "t"%char => Some (ascii_of_nat 9)
  | _ => None
  end.

Definition hex4 (a b c d : ascii) : option ascii :=
  match digit_value 16 a, digit_value 16 b, digit_value 16 c, digit_value 16 d with
  | Some 0, Some 0, Some h, Some l => Some (ascii_of_nat (Z.to_nat (16 * h + l)))
  | _, _, _, _ => None
  end.

Definition cons_char (c : ascii) (r : option (string * string))
  : option (string * string) :=
  match r with
  | Some (t, rest) => Some (String c t, rest)
  | None => None
  end.

(** The characters of a string literal after its opening quote. *)
Fixpoint parse_string (s : string) : option (string * string) :=
  match s with
  | EmptyString => None
  | String "\" (String "u" (String a (String b (String c (String d s'))))) =>
      match hex4 a b c d with
      | Some ch => cons_char ch (parse_string s')
      | None => None
      end
  | String "\" (String e s') =>
      match escape e with
      | Some ch => cons_char ch (parse_string s')
      | None => None
      end
  | String "\" EmptyString => None
  | String c s' =>
      if Ascii.eqb c quote then Some (EmptyString, s')
      else if code c <? 32 then None
      else cons_char c (parse_string s')
  end.

(** The array index a property name denotes, if any. *)
Definition array_index (k : string) : option Z :=
  match read_digits 10 0 O k with
  | (_, O, _) => None
  | (i, il, EmptyString) =>
      if ((1 <? il)%nat && prefix "0" k) || (2 ^ 32 - 1 <=? i) then None
      else Some i
  | _ => None
  end.

Fixpoint insert_index (i : Z) (k : string) (v : JSON)
  (fields : list (string * JSON)) : list (string * JSON) :=
  match fields with
  | (k', v') :: rest =>
      match array_index k' with
      | Some j => if j <? i then (k', v') :: insert_index i k v rest
                  else (k, v) :: fields
      | None => (k, v) :: fields
      end
  | [] => [(k, v)]
  end.

(** The property [k] defined on an object: array indices are enumerated
    first, in ascending order, then the other names in order of creation. *)
Definition define (fields : list (string * JSON)) (k : string) (v : JSON)
  : list (string * JSON) :=
  match lookup fields k, array_index k with
  | None, Some i => insert_index i k v fields
  | _, _ => put fields k v
  end.

Fixpoint parse_value (fuel : nat) (s : string) : option (JSON * string) :=
  match fuel with
  | O => None
  | S fuel' =>
      match skip_whitespace s with
      | String "{" s' =>
          match skip_whitespace s' with
          | String "}" rest => Some (JObject [], rest)
          | _ => parse_members fuel' [] s'
          end
      | String "[" s' =>
          match skip_whitespace s' with
          | String "]" rest => Some (JArray [], rest)
          | _ => parse_elements fuel' [] s'
          end
      | String c s' as t =>
          if Ascii.eqb c quote then
            match parse_string s' with
            | Some (k, rest) => Some (JString k, rest)
            | None => None
            end
          else
            match strip "null" t, strip "true" t, strip "false" t with
            | Some rest, _, _ => Some (JNull, rest)
            | _, Some rest, _ => Some (JBool true, rest)
            | _, _, Some rest => Some (JBool false, rest)
            | _, _, _ =>
                match parse_number t with
                | Some (n, rest) => Some (JNumber n, rest)
                | None => None
                end
            end
      | EmptyString => None
      end
  end

with parse_elements (fuel : nat) (acc : list JSON) (s : string)
  : option (JSON * string) :=
  match fuel with
  | O => None
  | S fuel' =>
      match parse_value fuel' s with
      | Some (v, rest) =>
          match skip_whitespace rest with
          | String "," rest' => parse_elements fuel' (acc ++ [v]) rest'
          | String "]" rest' => Some (JArray (acc ++ [v]), rest')
          | _ => None
          end
      | None => None
      end
  end

with parse_members (fuel : nat) (acc : list (string * JSON)) (s : string)
  : option (JSON * string) :=
  match fuel with
  | O => None
  | S fuel' =>
      match skip_whitespace s with
      | String c s' =>
          if Ascii.eqb c quote then
            match parse_string s' with
            | Some (k, rest) =>
                match skip_whitespace rest with
                | String ":" rest' =>
                    match parse_value fuel' rest' with
                    | Some (v, rest'') =>
                        match skip_whitespace rest'' with
                        | String "," t => parse_members fuel' (define acc k v) t
                        | String "}" t => Some (JObject (define acc k v), t)
                        | _ => None
                        end
                    | None => None
                    end
                | _ => None
                end
            | None => None
            end
          else None
      | EmptyString => None
      end
  end.

Definition JSON_parse (text : string) : option JSON :=
  match parse_value (2 * String.length text + 2) text with
  | Some (v, rest) =>
      match skip_whitespace rest with
      | EmptyString => Some v
      | _ => None
      end
  | None => None
  end.

(** *** Number(string) *)

(** An unsigned decimal literal that takes up the whole of [s]. *)
Definition unsigned_decimal (s : string) : option number :=
  let '(i, il, s1) := read_digits 10 0 O s in
  let '(f, fl, s2) :=
    match s1 with
    | String "." t => read_digits 10 0 O t
    | _ => (0, O, s1)
    end in
  if (il + fl =? 0)%nat then None
  else
    match read_exponent s2 with
    | (x, EmptyString) => Some (decimal i f fl x)
    | _ => None
    end.

(** Digits in base [base] that take up the whole of [s]. *)
Definition radix_literal (base : Z) (s : string) : number :=
  match read_digits base 0 O s with
  | (_, O, _) => NaN
  | (v, _, EmptyString) => rnd (inject_Z v)
  | _ => NaN
  end.

Definition StringToNumber (s : string) : number :=
  let t := trim s in
  match t with
  | EmptyString => int 0
  | String "0" (String "x" r) | String "0" (String "X" r) => radix_literal 16 r
  | String "0" (String "o" r) | String "0" (String "O" r) => radix_literal 8 r
  | String "0" (String "b" r) | String "0" (String "B" r) => radix_literal 2 r
  | _ =>
      let '(negative, u) :=
        match t with
        | String "-" r => (true, r)
        | String "+" r => (false, r)
        | _ => (false, t)
        end in
      let n := if String.eqb u "Infinity" then PInf
               else match unsigned_decimal u with
                    | Some n => n
                    | None => NaN
                    end in
      if negative then neg n else n
  end.

(** *** String(number) *)

Definition digits (z : Z) : string := NilZero.string_of_int (Z.to_int z).

Fixpoint zeros (n : nat) : string :=
  match n with
  | O => EmptyString
  | S n' => String "0" (zeros n')
  end.

(** [floor (log10 q)] for a positive [q]. *)
Definition ilog10 (q : Q) : Z :=
  let g := (ilog2 q * 30103) / 100000 in
  if Qle_bool (pow10 (g + 1)) q then g + 1
  else if Qle_bool (pow10 g) q then g
  else g - 1.

Definition same (x : number) (q : Q) : bool :=
  match x with Fin r => Qeq_bool r q | _ => false end.

(** The significand [s] with [k] digits for which [s * 10^(n-k)] reads back
    as [q], if there is one; of two, the one nearer to [q]. *)
Definition significand (q : Q) (n : Z) (k : Z) : option Z :=
  let scale := pow10 (n - k) in
  let lo := Qfloor (q / scale) in
  let hi := lo + 1 in
  let ok s := same (rnd (inject_Z s * scale)) q in
  match ok lo, ok hi with
  | true, true =>
      match Qcompare (q - inject_Z lo * scale) (inject_Z hi * scale - q) with
      | Lt => Some lo
      | Gt => Some hi
      | Eq => Some (if Z.even lo then lo else hi)
      end
  | true, false => Some lo
  | false, true => Some hi
  | false, false => None
  end.

(** The least [k] from [k] on with a significand, within [fuel] tries. *)
Fixpoint shortest (fuel : nat) (q : Q) (n : Z) (k : Z) : Z * Z :=
  match fuel with
  | O => (k, Qfloor (q / pow10 (n - k)))
  | S fuel' =>
      match significand q n k with
      | Some s => (k, s)
      | None => shortest fuel' q n (k + 1)
      end
  end.

(** The decimal form of a positive finite number: the digits [s], [k] of
    them, with the decimal point after the first [n]. *)
Definition positional (q : Q) : string :=
  let n0 := ilog10 q + 1 in
  let '(k0, s0) := shortest 17 q n0 1 in
  let '(n, k, s) := if s0 =? 10 ^ k0 then (n0 + 1, 1, 1) else (n0, k0, s0) in
  let d := digits s in
  if (k <=? n) && (n <=? 21) then d ++ zeros (Z.to_nat (n - k))
  else if (0 <? n) && (n <=? 21) then
    substring 0 (Z.to_nat n) d ++ "." ++ substring (Z.to_nat n) (Z.to_nat (k - n)) d
  else if (-6 <? n) && (n <=? 0) then "0." ++ zeros (Z.to_nat (- n)) ++ d
  else
    let mark : string := if 0 <? n - 1 then "e+" else "e-" in
    let e : string := (mark ++ digits (Z.abs (n - 1)))%string in
    if k =? 1 then d ++ e
    else substring 0 1 d ++ "." ++ substring 1 (Z.to_nat (k - 1)) d ++ e.

Definition NumberToString (x : number) : string :=
  match x with
  | NaN => "NaN"
  | PInf => "Infinity"
  | NInf => "-Infinity"
  | Fin q =>
      match Qcompare q 0 with
      | Eq => "0"
      | Gt => positional q
      | Lt => "-" ++ positional (- q)
      end
  end.

End Reference.

#[export] Instance reference_engine : Engine := {
  JSON_parse := Reference.JSON_parse;
  StringToNumber := Reference.StringToNumber;
  NumberToString := Reference.NumberToString
}.

(* ----------------------------------------------------------------- *)
(** ** Vocabulary of the statements                                   *)
(* ----------------------------------------------------------------- *)

(** An integer between 0 and 100. *)
Definition is_score (x : number) : Prop :=
  exists z, 0 <= z <= 100 /\ x = int z.

(** A natural number, or positive infinity. *)
Definition natural (x : number) : Prop :=
  x = PInf \/ exists z, 0 <= z /\ x = int z.

(** An integer of at least [2^53], or positive infinity. *)
Definition huge (x : number) : Prop :=
  x = PInf \/ exists z, 2 ^ 53 <= z /\ x = int z.

(** Neither [NaN] nor negative. *)
Definition nonneg (x : number) : Prop :=
  match x with
  | PInf => True
  | Fin q => (0 <= q)%Q
  | _ => False
  end.

(** [pat] occurs somewhere in [s]. *)
Fixpoint occurs (pat s : string) : bool :=
  prefix pat s
  || match s with
     | String _ s' => occurs pat s'
     | EmptyString => false
     end.

(** No name is listed twice. *)
Fixpoint distinct (l : list string) : bool :=
  match l with
  | [] => true
  | k :: l' => negb (existsb (String.eqb k) l') && distinct l'
  end.

(** Narration events and terminal events. *)
Definition is_token (ev : Stream.event) : bool :=
  match ev with Stream.token _ => true | _ => false end.

Definition is_terminal (ev : Stream.event) : bool := negb (is_token ev).

(** The whole text of a sequence of fragments. *)
Definition all_text (chunks : list string) : string :=
  fold_right String.append "" chunks.

(** The non-empty fragments that arrive while the text accumulated so far,
    [acc] and the fragment itself, does not contain the opening delimiter. *)
Fixpoint narrated (acc : string) (chunks : list string) : list string :=
  match chunks with
  | [] => []
  | text :: rest =>
      if String.eqb text "" then narrated acc rest
      else if includes (acc ++ text)%string Stream.FINAL_JSON_open then []
      else text :: narrated (acc ++ text)%string rest
  end.

(** The properties the scoring of the streaming route writes, and the other
    properties of an object, in order. *)
Definition scored (k : string) : bool :=
  String.eqb k "severity_score" || String.eqb k "business_impact_score"
  || String.eqb k "confidence".

Definition untouched (fields : list (string * JSON)) : list (string * JSON) :=
  filter (fun kv => negb (scored (fst kv))) fields.

Section StreamScores.
Context {E : Engine}.

(** The values lines 226-240 of the streaming route assign, from the
    properties of the parsed object. *)
Definition stream_severity (o : list (string * JSON)) : number :=
  Stream.clamp
    (Math_max (Stream.safeInt (lookup o "severity_score") (int 0))
              (Stream.calculateSeverityFromServices
                 (array_or_empty (lookup o "services"))))
    (int 0) (int 100).

Definition stream_propagation (o : list (string * JSON)) : value :=
  if truthy (lookup o "propagation") && typeof_object (lookup o "propagation")
  then lookup o "propagation"
  else Some (JObject [("nodes", JArray []); ("edges", JArray [])]).

Definition stream_impact (o : list (string * JSON)) : number :=
  Stream.clamp
    (Math_round
       (add (add (mul (Stream.safeInt (lookup o "business_impact_score") (int 0))
                      (lit (5 # 10)))
                 (mul (Stream.calculateImpactFromPropagation (stream_propagation o))
                      (lit (3 # 10))))
            (mul (Stream.calculateBlastRadius (array_or_empty (lookup o "services")))
                 (lit (2 # 10)))))
    (int 0) (int 100).

End StreamScores.

(** *** Inputs of the worked examples *)

(** The model stream of the example of the specification: the delimiter is
    split between the second and the third fragment. *)
Definition example_chunks : list string :=
  ["investigating..."; "<FINAL_";
   ("JSON>{" ++ quoted "severity_score" ++ ":90}</FINAL_JSON>")%string].

Definition service_entry (name status : string) : JSON :=
  JObject [("name", JString name); ("status", JString status)].

Definition with_services (severity : Z) (entries : list JSON) : JSON :=
  JObject [("severity_score", JNumber (int severity));
           ("services", JArray entries)].

Definition one_down : JSON :=
  with_services 0 [service_entry "auth" "down"; service_entry "db" "healthy";
                   service_entry "queue" "healthy"].

Definition two_down : JSON :=
  with_services 0 [service_entry "auth" "down"; service_entry "db" "down";
                   service_entry "queue" "healthy"].

Definition same_name : JSON :=
  with_services 0 [service_entry "auth" "down"; service_entry "auth" "down";
                   service_entry "auth" "healthy"].

Definition default_context : string := "No external context available.".

(** A model answer in a code fence, and one that breaks off. *)
Definition fenced_answer : string :=
  "```JSON {" ++ quoted "severity_score" ++ ": 90} ```".

Definition truncated_answer : string :=
  "```json {" ++ quoted "severity_score" ++ ": 9".

(* ----------------------------------------------------------------- *)
(** ** The routes with their outside calls                            *)
(* ----------------------------------------------------------------- *)

(** The line feed. *)
Definition newline : string := String (ascii_of_nat 10) EmptyString.

(** [e?.message ?? fallback]. *)
Definition message_or (message : option string) (fallback : string) : string :=
  match message with
  | Some m => m
  | None => fallback
  end.

(** The streaming route from the request on: app/api/analyze/stream/route.ts,
    lines 8-16, 88 and 282-293. *)
Module StreamRoute.

(** What the route answers: a plain text with a status, or the stream of
    events (status 200). *)
Inductive reply : Type :=
| text_response (status : Z) (text : string)
| event_stream (events : list Stream.event).

Section Route.
Context {E : Engine}.

(** [POST]: [request] is what [req.json()] yields and [generated] what
    [model.generateContentStream(prompt)] yields, the fragments of the
    stream and how it ends.  The result is the list of the logs put to the
    model and the answer.  A [logs] that is neither a string nor missing has
    no [trim] method: the call throws the TypeError whose message the
    runtime of the route (Node.js) words as below. *)
Definition POST (request : Execute.attempt JSON)
  (generated : Execute.attempt (list string * Stream.ending))
  : list string * reply :=
  match request with
  | Execute.thrown message => ([], text_response 400 (message_or message "Bad Request"))
  | Execute.ok b =>
      let logs :=
        match prop (Some b) "logs" with
        | None | Some JNull => JString ""
        | Some v => v
        end in
      match logs with
      | JString l =>
          if negb (nonempty (trim l)) then ([], text_response 400 "Missing logs")
          else
            match generated with
            | Execute.ok (chunks, e) => ([l], event_stream (Stream.start chunks e))
            | Execute.thrown message =>
                ([l], text_response 400 (message_or message "Bad Request"))
            end
      | _ => ([], text_response 400 "logs.trim is not a function")
      end
  end.

End Route.
End StreamRoute.

(** The synchronous route from the request on: app/api/analyze/route.ts,
    lines 177-286 and 427-435. *)
Module AnalyzeRoute.

(** The outside calls of the route: the search for external context and the
    model, with what the route puts into the prompt. *)
Inductive call : Type :=
| search_context (query : string)
| generateContent (externalContext logs : string).

Section Route.
Context {E : Engine}.

(** [`${v}`]. *)
Definition interpolate (v : value) : string :=
  match v with
  | Some x => String_of x
  | None => "undefined"
  end.

(** The text for the summary [s] at index [i], lines 208-211; [None] where
    reading a property of [null] throws. *)
Definition source (i : nat) (s : JSON) : option string :=
  match s with
  | JNull => None
  | _ =>
      Some ("Source " ++ String_of (JNumber (add (of_nat i) (int 1))) ++ ": "
            ++ interpolate (prop (Some s) "title") ++ newline
            ++ interpolate (prop (Some s) "snippet") ++ newline
            ++ interpolate (prop (Some s) "url"))%string
  end.

(** [summaries.map((s, i) => ...)] from index [i] on. *)
Fixpoint sources (i : nat) (summaries : list JSON) : option (list string) :=
  match summaries with
  | [] => Some []
  | s :: rest =>
      match source i s, sources (S i) rest with
      | Some text, Some texts => Some (text :: texts)
      | _, _ => None
      end
  end.

(** Lines 186-216: the external context, from what the search yields
    ([searchData], or the error thrown by [fetch] or by [json()]). *)
Definition externalContext (searchData : Execute.attempt JSON) : string :=
  match searchData with
  | Execute.thrown _ => "External search unavailable."
  | Execute.ok d =>
      match prop (Some d) "summaries" with
      | Some (JArray (s :: rest)) =>
          match sources 0 (s :: rest) with
          | Some texts => join (newline ++ newline) texts
          | None => "External search unavailable."
          end
      | _ => "No external context available."
      end
  end.

(** [POST] with its calls: [request] is what [req.json()] yields,
    [searchData] what the search yields, [generated] the text of the model's
    answer or the error of the model call. *)
Definition POST (request : Execute.attempt JSON)
  (searchData : Execute.attempt JSON) (generated : Execute.attempt string)
  : list call * response :=
  match request with
  | Execute.thrown _ => ([], json_error "Failed to analyze logs" 500)
  | Execute.ok b =>
      let logs := prop (Some b) "logs" in
      match logs with
      | Some (JString l) =>
          if negb (truthy logs) || negb (nonempty (trim l))
          then ([], json_error "Logs are required" 400)
          else
            let context := externalContext searchData in
            let calls := [search_context (slice l 0 400); generateContent context l] in
            match generated with
            | Execute.thrown _ => (calls, json_error "Failed to analyze logs" 500)
            | Execute.ok text => (calls, Analyze.respond text context)
            end
      | _ => ([], json_error "Logs are required" 400)
      end
  end.

End Route.
End AnalyzeRoute.

(* ----------------------------------------------------------------- *)
(** ** The events on the wire                                         *)
(* ----------------------------------------------------------------- *)

(** [JSON.stringify] on a value decoded from JSON, a built-in like those
    of [Engine]. *)
Class Serializer : Type := {
  JSON_stringify : JSON -> string
}.

(** [s.split(c)] for a separator of one character. *)
Fixpoint split (c : ascii) (s : string) : list string :=
  match s with
  | EmptyString => [EmptyString]
  | String d s' =>
      if Ascii.eqb d c then EmptyString :: split c s'
      else match split c s' with
           | h :: t => String d h :: t
           | [] => [String d EmptyString]
           end
  end.

(** [s.slice(n)] for [0 <= n]. *)
Fixpoint drop (n : nat) (s : string) : string :=
  match n, s with
  | S n', String _ s' => drop n' s'
  | _, _ => s
  end.

(** [s.replace(pat, repl)] for a string [pat] and a [repl] without [$]:
    the first occurrence is replaced. *)
Fixpoint replace_first (pat repl s : string) : string :=
  if prefix pat s then (repl ++ drop (String.length pat) s)%string
  else match s with
       | String c s' => String c (replace_first pat repl s')
       | EmptyString => EmptyString
       end.

(** The separator of two events. *)
Definition blank_line : string := (newline ++ newline)%string.

(** [send(event, data)] of the streaming route, lines 96-104: the name of
    an event, the value given to [JSON.stringify], and the text put on the
    wire. *)
Definition event_name (ev : Stream.event) : string :=
  match ev with
  | Stream.token _ => "token"
  | Stream.final _ => "final"
  | Stream.error _ => "error"
  end.

Definition payload (ev : Stream.event) : JSON :=
  match ev with
  | Stream.token text => JObject [("text", JString text)]
  | Stream.final report => report
  | Stream.error message => JObject [("message", JString message)]
  end.

Section Wire.
Context {S : Serializer}.

Definition send (ev : Stream.event) : string :=
  ("event: " ++ event_name ev ++ newline
   ++ "data: " ++ JSON_stringify (payload ev) ++ blank_line)%string.

End Wire.

(** A reference serializer. *)
Module Stringify.

Definition hex_digit (n : Z) : ascii :=
  ascii_of_nat (Z.to_nat (if n <? 10 then 48 + n else 87 + n)).

(** The characters that stand for [c] in a string literal. *)
Definition escape_char (c : ascii) : string :=
  let n := code c in
  let backslash := ascii_of_nat 92 in
  if n =? 34 then String backslash (String quote EmptyString)
  else if n =? 92 then String backslash (String backslash EmptyString)
  else if n =? 8 then String backslash "b"
  else if n =? 9 then String backslash "t"
  else if n =? 10 then String backslash "n"
  else if n =? 12 then String backslash "f"
  else if n =? 13 then String backslash "r"
  else if n <? 32
       then String backslash
              (String "u" (String "0" (String "0"
                 (String (hex_digit (n / 16)) (String (hex_digit (n mod 16))
                    EmptyString)))))
  else String c EmptyString.

Fixpoint escape_string (s : string) : string :=
  match s with
  | String c s' => (escape_char c ++ escape_string s')%string
  | EmptyString => EmptyString
  end.

Definition literal (s : string) : string :=
  String quote (escape_string s ++ String quote EmptyString).

Fixpoint stringify (v : JSON) : string :=
  match v with
  | JNull => "null"
  | JBool true => "true"
  | JBool false => "false"
  | JNumber n => if Number_isFinite n then Reference.NumberToString n else "null"
  | JString s => literal s
  | JArray items => ("[" ++ join "," (map stringify items) ++ "]")%string
  | JObject fields =>
      ("{" ++ join "," (map (fun kv => match kv with
                                       | (k, x) => (literal k ++ ":" ++ stringify x)%string
                                       end) fields)
       ++ "}")%string
  end.

End Stringify.

#[export] Instance reference_serializer : Serializer := {
  JSON_stringify := Stringify.stringify
}.

(* ----------------------------------------------------------------- *)
(** ** The page: app/page.tsx                                         *)
(* ----------------------------------------------------------------- *)

(** The part of the page that calls the three routes.  Of the state of the
    component the fields below are kept; [None] stands for [null].  Bytes
    reach the reader as text (the [TextDecoder] is used in streaming mode),
    cut into pieces in any way. *)
Module Client.

Inductive SystemStatus : Set := healthy | incident | recovering.

Record view : Type := {
  result : option JSON;
  streamText : string;
  streamError : option JSON;
  selectedService : option JSON;
  systemStatus : SystemStatus;
  streaming : bool
}.

(** [v ?? null]. *)
Definition nullable (v : value) : option JSON :=
  match v with
  | None | Some JNull => None
  | Some x => Some x
  end.

(** [v?.[0]]. *)
Definition index0 (v : value) : value :=
  match v with
  | Some (JArray (x :: _)) => Some x
  | Some (JString (String c _)) => Some (JString (String c EmptyString))
  | Some (JObject fields) => lookup fields "0"
  | _ => None
  end.

(** [data?.services?.[0]?.name ?? null]. *)
Definition firstService (data : value) : option JSON :=
  nullable (prop (index0 (prop data "services")) "name").

(** The requests the page sends. *)
Inductive request : Type :=
| analyze_stream (logs : string)
| analyze_sync (logs : string)
| execute (body : JSON).

(** What the request to the streaming route comes to: [fetch] throws, the
    answer is not a stream ([!sseRes.ok || !sseRes.body]), or the body is
    read piece by piece until it is done or [read()] throws. *)
Inductive sse : Type :=
| unreachable (message : option string)
| refused
| readable (net : list string) (broken : option (option string)).

Section Page.
Context {E : Engine}.

Definition clamp (n min max : number) : number :=
  Math_min max (Math_max min n).

Definition safeInt (v : value) (fallback : number) : number :=
  let n := Number v in
  if Number_isFinite n then clamp (Math_round n) (int 0) (int 100)
  else fallback.

(* ---------------- the reader of the event stream ---------------- *)

(** One line of a block, lines 348-351. *)
Definition read_line (acc : string * string) (line : string) : string * string :=
  let '(eventName, dataLine) := acc in
  (if prefix "event:" line then trim (replace_first "event:" "" line) else eventName,
   if prefix "data:" line
   then (dataLine ++ trim (replace_first "data:" "" line))%string
   else dataLine).

(** [handleEventBlock] up to the dispatch, lines 343-355: the name of the
    event and its data; [None] where the block is ignored. *)
Definition read_block (block : string) : option (string * JSON) :=
  let lines := map trim (split (ascii_of_nat 10) block) in
  let '(eventName, dataLine) := fold_left read_line lines ("message", "") in
  if nonempty dataLine then
    match JSON_parse dataLine with
    | Some data => Some (eventName, data)
    | None => None
    end
  else None.

(** The inner loop, lines 387-392: the blocks taken from the buffer and
    what stays in it.  Every turn shortens the buffer, so [fuel] turns are
    enough when [fuel] is its length. *)
Fixpoint drain (fuel : nat) (buffer : string) : list string * string :=
  match fuel with
  | O => ([], buffer)
  | S fuel' =>
      let idx := indexOf buffer blank_line in
      if idx =? -1 then ([], buffer)
      else
        let block := trim (slice buffer 0 idx) in
        let '(blocks, rest) := drain fuel' (slice buffer (idx + 2) (len buffer)) in
        (if nonempty block then block :: blocks else blocks, rest)
  end.

(** The outer loop, lines 381-393: the blocks handled, in order. *)
Fixpoint pump (buffer : string) (net : list string) : list string :=
  match net with
  | [] => []
  | value :: rest =>
      let buffer' := (buffer ++ value)%string in
      let '(blocks, kept) := drain (String.length buffer') buffer' in
      blocks ++ pump kept rest
  end.

(** The events that reach the dispatch. *)
Definition received (net : list string) : list (string * JSON) :=
  flat_map (fun block => match read_block block with
                         | Some ev => [ev]
                         | None => []
                         end)
           (pump "" net).

(* ---------------- the dispatch ---------------- *)

(** [prev + (data.text ?? "")] for the text shown so far. *)
Definition shown (prev : string) (data : JSON) : string :=
  match prop (Some data) "text" with
  | None | Some JNull => prev
  | Some x => (prev ++ String_of x)%string
  end.

(** What a report sets, streamed (lines 362-371) or fetched (lines
    404-408). *)
Definition show (v : view) (data : JSON) : view :=
  {| result := nullable (Some data);
     streamText := streamText v;
     streamError := streamError v;
     selectedService := firstService (Some data);
     systemStatus := incident;
     streaming := false |}.

(** The dispatch of [handleEventBlock], lines 357-378, on the view and
    [gotFinal]; [None] where the page fails: the text of a [token] is read
    from [data] when the state is next computed, outside the [try]. *)
Definition on_event (st : view * bool) (ev : string * JSON)
  : option (view * bool) :=
  let '(v, gotFinal) := st in
  let '(eventName, data) := ev in
  if String.eqb eventName "token" then
    match data with
    | JNull => None
    | _ =>
        Some ({| result := result v;
                 streamText := shown (streamText v) data;
                 streamError := streamError v;
                 selectedService := selectedService v;
                 systemStatus := systemStatus v;
                 streaming := streaming v |}, gotFinal)
    end
  else if String.eqb eventName "final" then Some (show v data, true)
  else if String.eqb eventName "error" then
    match data with
    | JNull => Some st
    | _ =>
        Some ({| result := result v;
                 streamText := streamText v;
                 streamError :=
                   Some (match nullable (prop (Some data) "message") with
                         | Some m => m
                         | None => JString "Streaming error"
                         end);
                 selectedService := selectedService v;
                 systemStatus := systemStatus v;
                 streaming := false |}, gotFinal)
    end
  else Some st.

Fixpoint on_events (st : view * bool) (evs : list (string * JSON))
  : option (view * bool) :=
  match evs with
  | [] => Some st
  | ev :: rest =>
      match on_event st ev with
      | Some st' => on_events st' rest
      | None => None
      end
  end.

(* ---------------- analyze ---------------- *)

(** The [catch] of [analyze], lines 410-429: one more request to the
    synchronous route, then the error is shown. *)
Definition recover (v : view) (message : option string)
  (fallback : Execute.attempt JSON) : view :=
  let v' :=
    match fallback with
    | Execute.ok data =>
        {| result := nullable (Some data);
           streamText := streamText v;
           streamError := streamError v;
           selectedService := firstService (Some data);
           systemStatus := incident;
           streaming := streaming v |}
    | Execute.thrown _ => v
    end in
  {| result := result v';
     streamText := streamText v';
     streamError := Some (JString (message_or message "Streaming failed"));
     selectedService := selectedService v';
     systemStatus := systemStatus v';
     streaming := false |}.

(** [analyze], lines 295-433: the requests sent and the view it leaves
    ([None] where the page fails).  [first] and [second] are what the
    requests to the synchronous route yield, the decoded body or the
    error. *)
Definition analyze (v : view) (logs : string) (stream : sse)
  (first second : Execute.attempt JSON) : list request * option view :=
  if negb (nonempty (trim logs)) then ([], Some v)
  else
    let v1 := {| result := None;
                 streamText := "";
                 streamError := None;
                 selectedService := selectedService v;
                 systemStatus := healthy;
                 streaming := true |} in
    match stream with
    | unreachable message =>
        ([analyze_stream logs; analyze_sync logs], Some (recover v1 message first))
    | refused =>
        ([analyze_stream logs; analyze_sync logs],
         Some (recover v1 (Some "Streaming endpoint not available") first))
    | readable net broken =>
        match on_events (v1, false) (received net) with
        | None => ([analyze_stream logs], None)
        | Some (v2, gotFinal) =>
            match broken with
            | Some message =>
                ([analyze_stream logs; analyze_sync logs],
                 Some (recover v2 message first))
            | None =>
                if gotFinal then ([analyze_stream logs], Some v2)
                else
                  match first with
                  | Execute.ok data =>
                      ([analyze_stream logs; analyze_sync logs], Some (show v2 data))
                  | Execute.thrown message =>
                      ([analyze_stream logs; analyze_sync logs; analyze_sync logs],
                       Some (recover v2 message second))
                  end
            end
        end
    end.

(* ---------------- the labels ---------------- *)

(** [Math.max(...xs)]. *)
Definition maximum (xs : list number) : number := fold_left Math_max xs NInf.

(** [x || 0] on numbers. *)
Definition or_zero (x : number) : number :=
  if truthy (Some (JNumber x)) then x else int 0.

(** [calculateSeverity], lines 508-530; [None] where it throws. *)
Definition calculateSeverity (result_ : option JSON) : option string :=
  match result_ with
  | None => Some "P3"
  | Some r =>
      if negb (truthy (Some r)) then Some "P3"
      else
        match prop (Some r) "severity_score" with
        | Some (JNumber s) =>
            Some (if leb (int 80) s then "P1"
                  else if leb (int 50) s then "P2" else "P3")
        | _ =>
            match prop (Some r) "probable_causes" with
            | Some (JArray (c :: cs)) =>
                if existsb (fun x => match x with JNull => true | _ => false end)
                           (c :: cs)
                then None
                else
                  let highest :=
                    maximum (map (fun x => or_zero (Number (prop (Some x) "probability")))
                                 (c :: cs)) in
                  Some (if leb (lit (7 # 10)) highest then "P1"
                        else if leb (lit (4 # 10)) highest then "P2" else "P3")
            | Some (JString (String _ _)) => None
            | Some (JObject fields) =>
                if truthy (lookup fields "length") then None else Some "P3"
            | _ => Some "P3"
            end
        end
  end.

Definition calculateImpact (result_ : option JSON) : option string :=
  match calculateSeverity result_ with
  | Some severity =>
      Some (if String.eqb severity "P1" then "$4,800/hr revenue impact"
            else if String.eqb severity "P2" then "$1,200/hr revenue impact"
            else "Minimal revenue impact")
  | None => None
  end.

Definition calculateBlastRadius (result_ : option JSON) : option string :=
  match calculateSeverity result_ with
  | Some severity =>
      Some (if String.eqb severity "P1" then "All Regions (63%)"
            else if String.eqb severity "P2" then "Single Region (28%)"
            else "Limited Service (12%)")
  | None => None
  end.

(* ---------------- the voice note ---------------- *)

(** [(v ?? 60) + 12] as [Math.max] reads it: a sum of numbers, or the
    number that the concatenated text denotes. *)
Definition plus_twelve (v : value) : number :=
  match v with
  | None | Some JNull => add (int 60) (int 12)
  | Some (JNumber n) => add n (int 12)
  | Some (JBool b) => add (Number (Some (JBool b))) (int 12)
  | Some x => StringToNumber (String_of x ++ String_of (JNumber (int 12)))
  end.

(** The update of lines 476-489 on a result that is an object. *)
Definition escalate (fields : list (string * JSON)) : list (string * JSON) :=
  put fields "severity_score"
      (JNumber (clamp (plus_twelve (lookup fields "severity_score")) (int 0) (int 100))).

(* ---------------- the execution ---------------- *)

(** The body of the request to the execution trigger, lines 603-609. *)
Definition execute_body (selected : option JSON) : JSON :=
  JObject [("service", match selected with
                       | Some name => name
                       | None => JString "api-gateway"
                       end)].

End Page.
End Client.

(* ----------------------------------------------------------------- *)
(** ** More vocabulary                                                *)
(* ----------------------------------------------------------------- *)

Section Verdict.
Context {E : Engine}.

(** The text the streaming route parses: the trimmed text between the two
    delimiters, once both are in [text], the closing one after the opening
    one (lines 143-149). *)
Definition envelope (text : string) : option string :=
  let start := indexOf text Stream.FINAL_JSON_open in
  let end_ := indexOf text Stream.FINAL_JSON_close in
  if negb (start =? -1) && negb (end_ =? -1) && (start <? end_)
  then Some (trim (slice text (start + len Stream.FINAL_JSON_open) end_))
  else None.

(** The terminal event that a text and the way the stream ends call for. *)
Definition verdict (text : string) (e : Stream.ending) : Stream.event :=
  match envelope text with
  | Some jsonText =>
      match Stream.parse_and_score jsonText with
      | Some report => Stream.final report
      | None => Stream.error "Invalid JSON structure from model."
      end
  | None =>
      match e with
      | Stream.closed => Stream.error "Model did not return FINAL_JSON block."
      | Stream.failed message => Stream.error (message_or message "Streaming failed")
      end
  end.

End Verdict.

(** A value that is neither an object nor an array. *)
Definition primitive (v : JSON) : bool :=
  match v with
  | JArray _ | JObject _ => false
  | _ => true
  end.

(** The number of the entries of [services] whose [status] is [k]. *)
Definition count_status (k : string) (services : list JSON) : Z :=
  Z.of_nat (List.length (filter (Stream.status_is k) services)).

Definition count_services (st : Analyze.ServiceStatus)
  (services : list Analyze.Service.t) : Z :=
  Z.of_nat (List.length (filter (Analyze.has_status st) services)).

(** A number between 0 and 1. *)
Definition is_probability (x : number) : Prop :=
  exists q, (0 <= q <= 1)%Q /\ x = Fin q.

(** A finite number that is not negative. *)
Definition is_duration (x : number) : Prop :=
  exists q, (0 <= q)%Q /\ x = Fin q.

(** A number that binary64 holds: rounding leaves it as it is. *)
Definition binary64 (x : number) : bool :=
  match x with
  | Fin q => match rnd q with
             | Fin r => Qeq_bool r q
             | _ => false
             end
  | _ => true
  end.

(** No white space at either end, and not empty. *)
Definition trimmed (s : string) : bool := nonempty s && String.eqb (trim s) s.

(** A multiple of the least positive binary64 number. *)
Definition on_grid (q : Q) : Prop :=
  exists k : Z, (q == inject_Z k * pow2 (-1074))%Q.

(** A sum of integers that ends in [clamp _ 0 100]: either it is exact, or
    it has left the integers that binary64 holds exactly and stays above. *)
Definition tracks (score : number) (k : Z) : Prop :=
  (0 <= k <= 2 ^ 53 /\ score = int k) \/ (2 ^ 53 <= k /\ huge score).

Section ByDifference.
Context {A : Type} (p : A -> number).

(** The comparator [(a, b) => p(b) - p(a)]. *)
Definition by_difference (a b : A) : number := sub (p b) (p a).

(** [x] may stand before [y]: [p(y) <= p(x)]. *)
Definition not_below (x y : A) : Prop := leb (p y) (p x) = true.

(** The value of [p] is a finite binary64 number. *)
Definition measured (x : A) : Prop :=
  exists q, p x = Fin q /\ binary64 (Fin q) = true.

End ByDifference.

(** The test of [buildFallbackServices] on the incident type. *)
Definition alarming (incidentType : string) : bool :=
  let it := toLowerCase incidentType in
  includes it "outage" || includes it "down" || includes it "critical".

(** The text [JSON.stringify] gives for the data of an event fits on the
    line of the event: it holds no line feed, is not empty, and has no
    white space at its ends. *)
Definition fits_on_a_line {S : Serializer} (ev : Stream.event) : bool :=
  let text := JSON_stringify (payload ev) in
  negb (occurs newline text) && trimmed text.

(** The name and the data under which an event reaches the page. *)
Definition delivered (ev : Stream.event) : string * JSON :=
  (event_name ev, payload ev).

(** The priority the page shows for a severity. *)
Definition priority (z : Z) : string :=
  if 80 <=? z then "P1" else if 50 <=? z then "P2" else "P3".

(** *** More inputs of worked examples *)

(** Three causes, the second one the most probable. *)
Definition three_causes : JSON :=
  JObject
    [("probable_causes",
      JArray [JObject [("name", JString "pool"); ("probability", JNumber (lit (2 # 10)))];
              JObject [("name", JString "replica"); ("probability", JNumber (lit (9 # 10)))];
              JObject [("name", JString "cache"); ("probability", JNumber (lit (5 # 10)))]])].

(** A graph with a repeated node, a node without label and an edge without
    target. *)
Definition untidy_graph : JSON :=
  JObject
    [("propagation",
      JObject
        [("nodes",
          JArray [JObject [("id", JString " api "); ("label", JString "API")];
                  JObject [("id", JString "db"); ("label", JString "Database")];
                  JObject [("id", JString "api"); ("label", JString "again")];
                  JObject [("id", JString "queue")]]);
         ("edges",
          JArray [JObject [("from", JString "api"); ("to", JString "db")];
                  JObject [("from", JString "api")]])])].

(** The events of the example stream, their text on the wire, and that text
    cut into three pieces, the first cut inside a line and the second inside
    a blank line. *)
Definition example_sent : list Stream.event :=
  @Stream.start reference_engine example_chunks Stream.closed.

Definition example_wire : string :=
  all_text (map (@send reference_serializer) example_sent).

Definition example_net : list string :=
  [substring 0 20 example_wire; substring 20 27 example_wire;
   substring 47 (String.length example_wire) example_wire].

(** A view of the page before any analysis. *)
Definition blank_view : Client.view :=
  {| Client.result := None;
     Client.streamText := "";
     Client.streamError := None;
     Client.selectedService := None;
     Client.systemStatus := Client.healthy;
     Client.streaming := false |}.

(* ================================================================= *)
(** * Part II.  Properties                                            *)
(* ================================================================= *)

(** ** Checks of the embedding against the language *)

Example trim_both_ends : trim "   pool exhausted  " = "pool exhausted".
Proof. reflexivity. Qed.

Example indexOf_first_and_last :
  indexOf "a{b}{c}" "{" = 1 /\ lastIndexOf "a{b}{c}" "}" = 6
  /\ indexOf "abc" "{" = -1 /\ lastIndexOf "abc" "}" = -1.
Proof. repeat split. Qed.

Example slice_positions :
  slice "abcdef" 2 4 = "cd" /\ slice "abcdef" (-2) 100 = "ef"
  /\ slice "abcdef" 4 2 = "".
Proof. repeat split. Qed.

Example replace_ignores_case :
  replace_all false "```" "" (replace_all true "```json" "" "```JSON{}``` ```Json")
  = "{} ".
Proof. reflexivity. Qed.

Example lower_case : toLowerCase "Total OUTAGE" = "total outage".
Proof. reflexivity. Qed.

Example round_halves_up :
  Math_round (Fin (5 # 2)) = int 3 /\ Math_round (Fin (- 5 # 2)) = int (-2)
  /\ Math_round (Fin (49 # 100)) = int 0.
Proof. repeat split. Qed.

(** [0.1 + 0.2] is [0.30000000000000004]. *)
Example binary64_sum :
  add (lit (1 # 10)) (lit (2 # 10)) = Fin (1351079888211149 # 4503599627370496)
  /\ Reference.NumberToString (add (lit (1 # 10)) (lit (2 # 10)))
     = "0.30000000000000004".
Proof. split; vm_compute; reflexivity. Qed.

Example number_to_string :
  map Reference.NumberToString
      [int 90; Fin (1 # 2); Fin (- 5 # 4); rnd (inject_Z (10 ^ 21));
       rnd (1 # 10000000); NaN; NInf]
  = ["90"; "0.5"; "-1.25"; "1e+21"; "1e-7"; "NaN"; "-Infinity"].
Proof. vm_compute. reflexivity. Qed.

Example string_to_number :
  map Reference.StringToNumber ["  12 "; ""; "0x1f"; "-Infinity"; "1e3"; ".5"; "high"]
  = [int 12; int 0; int 31; NInf; int 1000; Fin (1 # 2); NaN].
Proof. vm_compute. reflexivity. Qed.

Example parse_object :
  Reference.JSON_parse
    ("{" ++ quoted "b" ++ ": [1, 2.5, true, null], " ++ quoted "a" ++ ": {}}")
  = Some (JObject [("b", JArray [JNumber (int 1); JNumber (Fin (5 # 2));
                                 JBool true; JNull]);
                   ("a", JObject [])])
  /\ Reference.JSON_parse "[1,]" = None
  /\ Reference.JSON_parse "{} trailing" = None.
Proof. repeat split. Qed.

Example number_of_values :
  map (@Number reference_engine)
      [undefined; Some JNull; Some (JBool true); Some (JString " 7 ");
       Some (JArray []); Some (JArray [JNumber (int 5)]);
       Some (JArray [JNumber (int 1); JNumber (int 2)]); Some (JObject [])]
  = [NaN; int 0; int 1; int 7; int 0; int 5; NaN; NaN].
Proof. vm_compute. reflexivity. Qed.

(** The comparator [b.probability - a.probability] sorts in descending order
    and keeps the order of equal elements. *)
Example sort_descending :
  Analyze.sort (fun a b => sub (snd b) (snd a))
               [("a", lit (2 # 10)); ("b", lit (9 # 10)); ("c", lit (2 # 10));
                ("d", lit (5 # 10))]
  = [("b", lit (9 # 10)); ("d", lit (5 # 10)); ("a", lit (2 # 10));
     ("c", lit (2 # 10))].
Proof. vm_compute. reflexivity. Qed.

(** With 14 services down and one degraded out of 100 the radius is
    [0.145], and [0.145 * 100] is [14.499999999999998] in binary64. *)
Example blast_radius_in_binary64 :
  let service st :=
    {| Analyze.Service.name := "s"; Analyze.Service.status := st;
       Analyze.Service.signals := [];
       Analyze.Service.suspected_components := [] |} in
  Analyze.calculateBlastRadius
    (repeat (service Analyze.down) 14 ++ [service Analyze.degraded]
     ++ repeat (service Analyze.healthy) 85)
  = int 14.
Proof. vm_compute. reflexivity. Qed.

(** ** Numbers *)

Lemma Qred_inject_Z (z : Z) : Qred (inject_Z z) = inject_Z z.
Proof.
  apply Qred_identity. simpl. apply Z.gcd_1_r.
Qed.

Lemma Qle_bool_inject_Z (a b : Z) :
  Qle_bool (inject_Z a) (inject_Z b) = (a <=? b).
Proof.
  unfold Qle_bool. simpl. now rewrite !Z.mul_1_r.
Qed.

Lemma rnd_proper (p q : Q) : (p == q)%Q -> rnd p = rnd q.
Proof.
  intros H. unfold rnd. now rewrite (Qred_complete _ _ H).
Qed.

Lemma is_safe_integer_inject_Z (z : Z) :
  is_safe_integer (inject_Z z) = (Z.abs z <=? 2 ^ 53).
Proof. reflexivity. Qed.

Lemma rnd_safe (z : Z) : Z.abs z <= 2 ^ 53 -> rnd (inject_Z z) = int z.
Proof.
  intros H. unfold rnd. rewrite Qred_inject_Z, is_safe_integer_inject_Z.
  destruct (Z.leb_spec (Z.abs z) (2 ^ 53)); [reflexivity | lia].
Qed.

Lemma pow2_nonneg (e : Z) : 0 <= e -> pow2 e = inject_Z (2 ^ e).
Proof.
  intros H. unfold pow2. destruct (Z.leb_spec 0 e); [reflexivity | lia].
Qed.

Lemma ilog2_inject_Z (z : Z) : 0 < z -> ilog2 (inject_Z z) = Z.log2 z.
Proof.
  intros H. unfold ilog2. simpl Qnum. simpl Qden.
  change (Z.log2 1) with 0. rewrite Z.sub_0_r.
  rewrite pow2_nonneg by apply Z.log2_nonneg.
  rewrite Qle_bool_inject_Z.
  destruct (Z.log2_spec z H) as [Hlo _].
  destruct (Z.leb_spec (2 ^ Z.log2 z) z); [reflexivity | lia].
Qed.

Lemma round_half_even_bounds (q : Q) :
  Qfloor q <= round_half_even q <= Qfloor q + 1.
Proof.
  unfold round_half_even.
  destruct (Qcompare _ _); [destruct (Z.even _) | |]; lia.
Qed.

Lemma Qfloor_div_inject_Z (a b : Z) :
  0 < b -> Qfloor (inject_Z a / inject_Z b) = a / b.
Proof.
  intros H. rewrite Zdiv_Qdiv. reflexivity.
Qed.

Lemma round_magnitude_huge (z : Z) :
  2 ^ 53 < z -> huge (round_magnitude (inject_Z z)).
Proof.
  intros H. unfold round_magnitude.
  assert (Hz : 0 < z) by lia.
  rewrite (ilog2_inject_Z z Hz).
  assert (Hg : 53 <= Z.log2 z).
  { change 53 with (Z.log2 (2 ^ 53)). apply Z.log2_le_mono. lia. }
  rewrite Z.max_l by lia.
  set (e := Z.log2 z - 52).
  assert (He : 1 <= e) by (unfold e; lia).
  rewrite (pow2_nonneg e) by lia.
  assert (Hp : 0 < 2 ^ e) by (apply Z.pow_pos_nonneg; lia).
  pose proof (round_half_even_bounds (inject_Z z / inject_Z (2 ^ e))) as Hm.
  rewrite (Qfloor_div_inject_Z z (2 ^ e) Hp) in Hm.
  set (m := round_half_even (inject_Z z / inject_Z (2 ^ e))) in *.
  destruct (Qle_bool _ _); [now left | right].
  exists (m * 2 ^ e). split.
  - assert (2 ^ 52 <= z / 2 ^ e).
    { apply Z.div_le_lower_bound; [lia |].
      rewrite Z.mul_comm, <- Z.pow_add_r by lia.
      replace (52 + e) with (Z.log2 z) by (unfold e; lia).
      apply Z.log2_spec; lia. }
    assert (2 <= 2 ^ e).
    { change 2 with (2 ^ 1) at 1. apply Z.pow_le_mono_r; lia. }
    change (2 ^ 53) with (2 ^ 52 * 2). apply Z.mul_le_mono_nonneg; lia.
  - unfold int. f_equal.
    rewrite <- (Qred_inject_Z (m * 2 ^ e)). apply Qred_complete.
    unfold inject_Z, Qeq, Qmult. simpl. lia.
Qed.

Lemma rnd_huge (z : Z) : 2 ^ 53 < z -> huge (rnd (inject_Z z)).
Proof.
  intros H. unfold rnd. rewrite Qred_inject_Z, is_safe_integer_inject_Z.
  destruct (Z.leb_spec (Z.abs z) (2 ^ 53)); [lia |].
  destruct z as [| p | p]; try lia.
  change (Qnum (inject_Z (Z.pos p))) with (Z.pos p). cbv iota.
  now apply round_magnitude_huge.
Qed.

Lemma rnd_ge53 (z : Z) : 2 ^ 53 <= z -> huge (rnd (inject_Z z)).
Proof.
  intros H. destruct (Z.eq_dec z (2 ^ 53)) as [-> | Hne].
  - right. exists (2 ^ 53). split; [lia | now apply rnd_safe].
  - apply rnd_huge. lia.
Qed.

Lemma huge_natural (x : number) : huge x -> natural x.
Proof.
  intros [-> | (z & Hz & ->)]; [now left | right].
  exists z. split; [| reflexivity].
  assert (0 < 2 ^ 53) by reflexivity. lia.
Qed.

Lemma rnd_natural (z : Z) : 0 <= z -> natural (rnd (inject_Z z)).
Proof.
  intros H. destruct (Z.le_gt_cases z (2 ^ 53)).
  - right. exists z. split; [assumption | apply rnd_safe; lia].
  - apply huge_natural, rnd_huge. lia.
Qed.

Lemma add_int (a b : Z) : add (int a) (int b) = rnd (inject_Z (a + b)).
Proof.
  unfold add, int. apply rnd_proper. now rewrite inject_Z_plus.
Qed.

Lemma mul_int (a b : Z) : mul (int a) (int b) = rnd (inject_Z (a * b)).
Proof.
  unfold mul, int. apply rnd_proper. now rewrite inject_Z_mult.
Qed.

Lemma add_natural (x y : number) : natural x -> natural y -> natural (add x y).
Proof.
  intros [-> | (a & Ha & ->)] [-> | (b & Hb & ->)]; try (now left).
  rewrite add_int. apply rnd_natural. lia.
Qed.

Lemma add_huge (x y : number) : huge x -> natural y -> huge (add x y).
Proof.
  intros [-> | (a & Ha & ->)] [-> | (b & Hb & ->)]; try (now left).
  rewrite add_int. apply rnd_ge53. lia.
Qed.

Lemma add_natural_huge (x y : number) : natural x -> huge y -> huge (add x y).
Proof.
  intros [-> | (a & Ha & ->)] [-> | (b & Hb & ->)]; try (now left).
  rewrite add_int. apply rnd_ge53. lia.
Qed.

Lemma mul_int_natural (a b : Z) : 0 <= a -> 0 <= b -> natural (mul (int a) (int b)).
Proof.
  intros Ha Hb. rewrite mul_int. apply rnd_natural. now apply Z.mul_nonneg_nonneg.
Qed.

Lemma Math_max_int (a b : Z) : Math_max (int a) (int b) = int (Z.max a b).
Proof.
  unfold Math_max, int, leb. rewrite Qle_bool_inject_Z.
  destruct (Z.leb_spec a b); f_equal; f_equal; lia.
Qed.

Lemma Math_min_int (a b : Z) : Math_min (int a) (int b) = int (Z.min a b).
Proof.
  unfold Math_min, int, leb. rewrite Qle_bool_inject_Z.
  destruct (Z.leb_spec a b); f_equal; f_equal; lia.
Qed.

Lemma Math_round_int (z : Z) : Math_round (int z) = int z.
Proof.
  unfold Math_round, int. do 2 f_equal.
  unfold Qfloor, Qplus, inject_Z. simpl Qnum. simpl Qden.
  change (Z.pos (1 * 2)) with 2.
  symmetry. apply Z.div_unique with (r := 1); lia.
Qed.

(** [Math.min(hi, Math.max(lo, x))], the body of both [clamp]s. *)
Lemma min_max_int (lo hi z : Z) :
  Math_min (int hi) (Math_max (int lo) (int z)) = int (Z.min hi (Z.max lo z)).
Proof. now rewrite Math_max_int, Math_min_int. Qed.

(** The integer a number is, given by the goal itself, then its bounds. *)
Ltac integer_value := eexists; split; [| reflexivity]; lia.

Lemma min_max_huge (x : number) :
  huge x -> Math_min (int 100) (Math_max (int 0) x) = int 100.
Proof.
  intros [-> | (z & Hz & ->)]; [reflexivity |].
  rewrite min_max_int. f_equal.
  assert (100 < 2 ^ 53) by reflexivity. lia.
Qed.

Lemma min_max_natural (x : number) :
  natural x -> is_score (Math_min (int 100) (Math_max (int 0) x)).
Proof.
  intros [-> | (z & Hz & ->)].
  - exists 100. now split.
  - rewrite min_max_int. integer_value.
Qed.

Lemma min_max_round_score (x : number) :
  x <> NaN -> is_score (Math_min (int 100) (Math_max (int 0) (Math_round x))).
Proof.
  intros H. destruct x as [| | | q]; [congruence | | |].
  - exists 100. now split.
  - exists 0. now split.
  - unfold Math_round. rewrite min_max_int. integer_value.
Qed.

Lemma min_max_score (x : number) :
  is_score x -> Math_min (int 100) (Math_max (int 0) x) = x.
Proof.
  intros (z & Hz & ->). rewrite min_max_int. f_equal. lia.
Qed.

Lemma Math_max_score (x y : number) :
  is_score x -> is_score y -> is_score (Math_max x y).
Proof.
  intros (a & Ha & ->) (b & Hb & ->). rewrite Math_max_int.
  integer_value.
Qed.

Lemma nonneg_not_NaN (x : number) : nonneg x -> x <> NaN.
Proof. now destruct x. Qed.

Lemma natural_nonneg (x : number) : natural x -> nonneg x.
Proof.
  intros [-> | (z & Hz & ->)]; simpl; [exact I |].
  unfold Qle. simpl. lia.
Qed.

Lemma score_nonneg (x : number) : is_score x -> nonneg x.
Proof.
  intros (z & Hz & ->). apply natural_nonneg. right. exists z. split; [lia | reflexivity].
Qed.

Lemma pow2_pos (e : Z) : (0 < pow2 e)%Q.
Proof.
  unfold pow2. destruct (Z.leb_spec 0 e).
  - unfold Qlt, inject_Z. simpl. rewrite Z.mul_1_r. apply Z.pow_pos_nonneg; lia.
  - reflexivity.
Qed.

Lemma round_magnitude_nonneg (q : Q) : (0 <= q)%Q -> nonneg (round_magnitude q).
Proof.
  intros H. unfold round_magnitude.
  set (e := Z.max (ilog2 q - 52) (-1074)).
  destruct (Qle_bool _ _); [exact I |]. unfold nonneg.
  rewrite Qred_correct.
  apply Qmult_le_0_compat; [| apply Qlt_le_weak, pow2_pos].
  assert (0 <= Qfloor (q / pow2 e)).
  { change 0 with (Qfloor 0). apply Qfloor_resp_le.
    apply Qle_shift_div_l; [apply pow2_pos |]. now rewrite Qmult_0_l. }
  pose proof (round_half_even_bounds (q / pow2 e)).
  unfold Qle, inject_Z. simpl. lia.
Qed.

Lemma rnd_nonneg (q : Q) : (0 <= q)%Q -> nonneg (rnd q).
Proof.
  intros H. unfold rnd.
  assert (H' : (0 <= Qred q)%Q) by now rewrite Qred_correct.
  destruct (is_safe_integer (Qred q)); [exact H' |].
  destruct (Qnum (Qred q)) eqn:Hn.
  - simpl. apply Qle_refl.
  - now apply round_magnitude_nonneg.
  - exfalso. unfold Qle in H'. simpl in H'. rewrite Hn in H'. lia.
Qed.

Lemma add_nonneg (x y : number) : nonneg x -> nonneg y -> nonneg (add x y).
Proof.
  destruct x as [| | | a], y as [| | | b]; simpl; try tauto.
  intros Ha Hb. apply rnd_nonneg.
  setoid_replace 0%Q with (0 + 0)%Q by reflexivity. now apply Qplus_le_compat.
Qed.

Lemma mul_nonneg_pos (x : number) (b : Q) :
  nonneg x -> (0 < b)%Q -> nonneg (mul x (Fin b)).
Proof.
  intros Hx Hb. destruct x as [| | | a]; simpl in *; try tauto.
  - unfold sign. now rewrite (proj1 (Qgt_alt b 0) Hb).
  - apply rnd_nonneg. apply Qmult_le_0_compat; [assumption | now apply Qlt_le_weak].
Qed.

Lemma div_nonneg_pos (x : number) (b : Q) :
  nonneg x -> (0 < b)%Q -> nonneg (div x (Fin b)).
Proof.
  intros Hx Hb. pose proof (proj1 (Qgt_alt b 0) Hb) as Hs.
  destruct x as [| | | a]; simpl in *; try tauto.
  - unfold sign. now rewrite Hs.
  - unfold sign at 1. rewrite Hs. apply rnd_nonneg.
    apply Qle_shift_div_l; [assumption | now rewrite Qmult_0_l].
Qed.

Lemma of_nat_pos (n : nat) : (0 < n)%nat -> (0 < inject_Z (Z.of_nat n))%Q.
Proof. intros H. unfold Qlt. simpl. lia. Qed.

Lemma of_nat_natural (n : nat) : natural (of_nat n).
Proof. right. exists (Z.of_nat n). split; [lia | reflexivity]. Qed.

Lemma lit_half : lit (5 # 10) = Fin (1 # 2).
Proof. reflexivity. Qed.

(** ** The streaming loop *)

Section StreamLoop.
Context {E : Engine}.
Import Stream.

Lemma on_chunk_empty (st : state) : on_chunk st "" = ([], continue st).
Proof. reflexivity. Qed.

Lemma on_chunk_detected (st : state) (text : string) :
  finalSent st = false -> jsonStarted st = true ->
  (exists t st', on_chunk st text = ([t], returned st') /\ is_terminal t = true) \/
  (exists st', on_chunk st text = ([], continue st') /\
               finalSent st' = false /\ jsonStarted st' = true).
Proof.
  intros Hf Hj. unfold on_chunk.
  destruct (String.eqb text ""); [right; now exists st |].
  rewrite Hf, Hj. cbn [negb andb].
  destruct (_ && _ && _).
  - left. destruct (parse_and_score _); do 2 eexists; split; reflexivity.
  - right. eexists. split; [reflexivity |]. now split.
Qed.

Lemma on_chunk_narrating (st : state) (text : string) :
  finalSent st = false -> jsonStarted st = false -> text <> "" ->
  let acc := (fullText st ++ text)%string in
  (includes acc FINAL_JSON_open = false /\
   exists st', on_chunk st text = ([token text], continue st') /\
               fullText st' = acc /\ finalSent st' = false /\
               jsonStarted st' = false) \/
  (includes acc FINAL_JSON_open = true /\
   exists detect, (List.length detect <= 1)%nat /\ forallb is_token detect = true /\
     ((exists t st', on_chunk st text = (detect ++ [t], returned st') /\
                     is_terminal t = true) \/
      (exists st', on_chunk st text = (detect, continue st') /\
                   finalSent st' = false /\ jsonStarted st' = true))).
Proof.
  intros Hf Hj Hne acc. unfold on_chunk.
  destruct (String.eqb_spec text ""); [contradiction |].
  rewrite Hf, Hj. cbn [negb andb]. fold acc.
  unfold includes.
  destruct (indexOf acc FINAL_JSON_open =? -1) eqn:Hi.
  - left. split; [reflexivity |]. cbn [negb andb].
    eexists. split; [reflexivity |]. now repeat split.
  - right. split; [reflexivity |].
    exists (if negb (String.eqb (trim (slice acc (lastNarrationSentIndex st)
                                        (indexOf acc FINAL_JSON_open))) "")
            then [token (slice acc (lastNarrationSentIndex st)
                               (indexOf acc FINAL_JSON_open))]
            else []).
    split; [destruct (negb _); simpl; lia |].
    split; [destruct (negb _); reflexivity |].
    destruct (_ && _ && _).
    + left. destruct (parse_and_score _); do 2 eexists; split; reflexivity.
    + right. eexists. split; [reflexivity |]. now split.
Qed.

(** What the fragment that completes the delimiter narrates: the text from
    [lastNarrationSentIndex] up to the delimiter, unless it is blank.  No
    turn of the loop changes [lastNarrationSentIndex]. *)
Lemma on_chunk_detecting (st : state) (text : string) :
  finalSent st = false -> jsonStarted st = false -> text <> "" ->
  let acc := (fullText st ++ text)%string in
  includes acc FINAL_JSON_open = true ->
  let before :=
    slice acc (lastNarrationSentIndex st) (indexOf acc FINAL_JSON_open) in
  exists rest,
    fst (on_chunk st text)
    = (if nonempty (trim before) then [token before] else []) ++ rest
    /\ forallb is_terminal rest = true.
Proof.
  intros Hf Hj Hne acc Hi before. unfold on_chunk.
  destruct (String.eqb_spec text ""); [contradiction |].
  rewrite Hf, Hj. cbn [negb andb]. fold acc.
  unfold includes in Hi. apply negb_true_iff in Hi. rewrite Hi. fold before.
  unfold nonempty.
  destruct (_ && _ && _).
  - destruct (parse_and_score _); eexists [_]; split; reflexivity.
  - exists []. rewrite app_nil_r. split; reflexivity.
Qed.

Lemma on_chunk_index (st : state) (text : string) :
  match snd (on_chunk st text) with
  | continue st' | returned st' =>
      lastNarrationSentIndex st' = lastNarrationSentIndex st
  end.
Proof.
  unfold on_chunk.
  destruct (String.eqb text ""); [reflexivity |].
  destruct (negb (finalSent st) && negb (jsonStarted st));
    [destruct (indexOf _ _ =? -1) |];
    (destruct (negb (finalSent st)); [| reflexivity]);
    (destruct (_ && _ && _); [| reflexivity]);
    destruct (parse_and_score _); reflexivity.
Qed.

Lemma consume_detected (chunks : list string) (e : ending) (st : state) :
  finalSent st = false -> jsonStarted st = true ->
  exists t, consume st chunks e = [t] /\ is_terminal t = true.
Proof.
  revert st. induction chunks as [| text rest IH]; intros st Hf Hj.
  - simpl. rewrite Hf. destruct e; eexists; split; reflexivity.
  - simpl.
    destruct (on_chunk_detected st text Hf Hj)
      as [(t & st' & -> & Ht) | (st' & -> & Hf' & Hj')].
    + now exists t.
    + simpl. now apply IH.
Qed.

(** The events of a run: the fragments narrated before the delimiter is
    seen, what the fragment that completes it adds, and one terminal event. *)
Lemma consume_narrating (chunks : list string) (e : ending) (st : state) :
  finalSent st = false -> jsonStarted st = false ->
  exists detect t,
    consume st chunks e =
      map token (narrated (fullText st) chunks) ++ detect ++ [t] /\
    (List.length detect <= 1)%nat /\ forallb is_token detect = true /\
    is_terminal t = true.
Proof.
  revert st. induction chunks as [| text rest IH]; intros st Hf Hj.
  - exists [], (match e with
                | closed => error "Model did not return FINAL_JSON block."
                | failed m =>
                    error (match m with Some s => s | None => "Streaming failed" end)
                end).
    simpl. rewrite Hf. destruct e; repeat split; auto.
  - simpl. destruct (String.eqb_spec text "") as [-> | Hne].
    + rewrite on_chunk_empty. simpl. now apply IH.
    + destruct (on_chunk_narrating st text Hf Hj Hne)
        as [(Hi & st' & -> & Hacc & Hf' & Hj')
           | (Hi & detect & Hlen & Htok
              & [(t & st' & -> & Ht) | (st' & -> & Hf' & Hj')])];
        rewrite Hi.
      * destruct (IH st' Hf' Hj') as (detect & t & -> & Hlen & Htok & Ht).
        rewrite Hacc. exists detect, t. repeat split; auto.
      * exists detect, t. repeat split; auto.
      * destruct (consume_detected rest e st' Hf' Hj') as (t & -> & Ht).
        exists detect, t. repeat split; auto.
Qed.

End StreamLoop.

(** ** Searching in strings *)

Lemma indexOf_from_occurs (pat s : string) (i : Z) :
  0 <= i ->
  (occurs pat s = true -> i <= indexOf_from i s pat) /\
  (occurs pat s = false -> indexOf_from i s pat = -1).
Proof.
  revert i. induction s as [| c s IH]; intros i Hi.
  - cbn [occurs indexOf_from]. rewrite orb_false_r.
    destruct (prefix pat ""); split; intros; try discriminate; lia.
  - cbn [occurs indexOf_from]. destruct (prefix pat (String c s)); cbn [orb].
    + split; intros; try discriminate; lia.
    + destruct (IH (i + 1)) as [H1 H2]; [lia |].
      split; intros H; [specialize (H1 H); lia | auto].
Qed.

Lemma includes_occurs (s pat : string) : includes s pat = occurs pat s.
Proof.
  unfold includes, indexOf.
  destruct (indexOf_from_occurs pat s 0) as [H1 H2]; [lia |].
  destruct (occurs pat s).
  - specialize (H1 eq_refl).
    destruct (Z.eqb_spec (indexOf_from 0 s pat) (-1)); [lia | reflexivity].
  - now rewrite H2.
Qed.

Lemma prefix_app (pat s t : string) :
  prefix pat s = true -> prefix pat (s ++ t) = true.
Proof.
  revert s. induction pat as [| a pat IH]; intros s H.
  - now destruct (s ++ t)%string.
  - destruct s as [| b s]; [discriminate |]. simpl in *.
    destruct (ascii_dec a b); [now apply IH | discriminate].
Qed.

Lemma occurs_app_l (pat s t : string) :
  occurs pat s = true -> occurs pat (s ++ t) = true.
Proof.
  induction s as [| c s IH]; intros H.
  - simpl in H. rewrite orb_false_r in H.
    destruct pat; [| discriminate]. now destruct t.
  - cbn [occurs] in H. apply orb_true_iff in H. destruct H as [H | H].
    + change (String c s ++ t)%string with (String c (s ++ t)).
      cbn [occurs]. change (String c (s ++ t)) with (String c s ++ t)%string.
      now rewrite (prefix_app _ _ t H).
    + change (String c s ++ t)%string with (String c (s ++ t)).
      cbn [occurs]. rewrite (IH H). apply orb_true_r.
Qed.

Lemma includes_app_false (s t pat : string) :
  includes (s ++ t) pat = false -> includes s pat = false.
Proof.
  rewrite !includes_occurs. intros H.
  destruct (occurs pat s) eqn:Hs; [| reflexivity].
  now rewrite (occurs_app_l _ _ t Hs) in H.
Qed.

Lemma append_assoc (a b c : string) : ((a ++ b) ++ c = a ++ (b ++ c))%string.
Proof. induction a as [| x a IH]; simpl; [reflexivity | now rewrite IH]. Qed.

(** *** Cutting a string at a character *)

Lemma prefix_char (c d : ascii) (s : string) :
  prefix (char c) (String d s) = true <-> c = d.
Proof.
  unfold char. simpl. destruct (ascii_dec c d) as [-> | Hne].
  - split; [reflexivity |]. intros _. now destruct s.
  - split; [discriminate | contradiction].
Qed.

Lemma len_String (c : ascii) (s : string) : len (String c s) = len s + 1.
Proof. unfold len. simpl String.length. lia. Qed.

Lemma len_nonneg (s : string) : 0 <= len s.
Proof. unfold len. lia. Qed.

Lemma len_app (a b : string) : len (a ++ b) = len a + len b.
Proof.
  induction a as [| c a IH]; [reflexivity |].
  change (String c a ++ b)%string with (String c (a ++ b)).
  rewrite !len_String, IH. lia.
Qed.

(** The first occurrence of a character cuts the string in two. *)
Lemma indexOf_from_char (c : ascii) (s : string) (i : Z) :
  indexOf_from i s (char c) <> -1 -> 0 <= i ->
  exists a b, s = (a ++ String c b)%string
              /\ indexOf_from i s (char c) = i + len a
              /\ occurs (char c) a = false.
Proof.
  revert i. induction s as [| d s IH]; intros i H Hi.
  - simpl in H. congruence.
  - cbn [indexOf_from] in *.
    destruct (prefix (char c) (String d s)) eqn:Hp.
    + apply prefix_char in Hp. subst d. exists EmptyString, s.
      repeat split. unfold len. simpl. lia.
    + destruct (IH (i + 1) H) as (a & b & -> & Hk & Ha); [lia |].
      exists (String d a), b. split; [reflexivity |]. split.
      * rewrite Hk, len_String. lia.
      * cbn [occurs]. rewrite Ha, orb_false_r.
        destruct (prefix (char c) (String d a)) eqn:Hq; [| reflexivity].
        apply prefix_char in Hq. subst d.
        rewrite (proj2 (prefix_char c c (a ++ String c b)) eq_refl) in Hp. discriminate.
Qed.

Lemma lastIndexOf_from_occurs (c : ascii) (s : string) (i : Z) :
  0 <= i ->
  (occurs (char c) s = true -> i <= lastIndexOf_from i s (char c))
  /\ (occurs (char c) s = false -> lastIndexOf_from i s (char c) = -1).
Proof.
  revert i. induction s as [| d s IH]; intros i Hi.
  - simpl. split; [discriminate | reflexivity].
  - cbn [occurs lastIndexOf_from].
    destruct (IH (i + 1)) as [H1 H2]; [lia |].
    destruct (occurs (char c) s).
    + specialize (H1 eq_refl). rewrite orb_true_r.
      destruct (Z.leb_spec 0 (lastIndexOf_from (i + 1) s (char c)));
        split; intros; try discriminate; lia.
    + rewrite (H2 eq_refl), orb_false_r. cbn [Z.leb Z.compare].
      destruct (prefix (char c) (String d s)); split; intros; try discriminate;
        try reflexivity; lia.
Qed.

(** The last occurrence of a character cuts the string in two. *)
Lemma lastIndexOf_from_char (c : ascii) (s : string) (i : Z) :
  0 <= lastIndexOf_from i s (char c) -> 0 <= i ->
  exists a b, s = (a ++ String c b)%string
              /\ lastIndexOf_from i s (char c) = i + len a
              /\ occurs (char c) b = false.
Proof.
  revert i. induction s as [| d s IH]; intros i H Hi.
  - simpl in H. lia.
  - cbn [lastIndexOf_from] in *.
    destruct (Z.leb_spec 0 (lastIndexOf_from (i + 1) s (char c))) as [Hl | Hl].
    + destruct (IH (i + 1) Hl) as (a & b & -> & Hk & Hb); [lia |].
      exists (String d a), b. split; [reflexivity |]. split; [| exact Hb].
      rewrite Hk, len_String. lia.
    + destruct (prefix (char c) (String d s)) eqn:Hp; [| lia].
      apply prefix_char in Hp. subst d.
      exists EmptyString, s. split; [reflexivity |].
      split; [unfold len; simpl; lia |].
      destruct (lastIndexOf_from_occurs c s (i + 1)) as [H1 _]; [lia |].
      destruct (occurs (char c) s); [specialize (H1 eq_refl); lia | reflexivity].
Qed.

(** Two ways of cutting the same string. *)
Lemma append_cut (a1 x a2 y : string) :
  (a1 ++ x = a2 ++ y)%string -> len a1 <= len a2 ->
  exists m, a2 = (a1 ++ m)%string /\ x = (m ++ y)%string.
Proof.
  revert a2. induction a1 as [| c a1 IH]; intros a2 H Hlen.
  - exists a2. now split.
  - destruct a2 as [| d a2].
    + rewrite len_String in Hlen. pose proof (len_nonneg a1).
      change (len EmptyString) with 0 in Hlen. lia.
    + simpl in H. injection H as -> H. rewrite !len_String in Hlen.
      destruct (IH a2 H) as (m & -> & ->); [lia |].
      now exists m.
Qed.

Lemma substring_app (a m b : string) :
  substring (String.length a) (String.length m) (a ++ m ++ b) = m.
Proof.
  induction a as [| c a IH]; simpl.
  - induction m as [| d m IHm]; simpl; [now destruct b | now rewrite IHm].
  - exact IH.
Qed.

Lemma slice_app (a m b : string) :
  slice (a ++ m ++ b) (len a) (len a + len m) = m.
Proof.
  unfold slice, clip_index. rewrite !len_app.
  pose proof (len_nonneg a). pose proof (len_nonneg m). pose proof (len_nonneg b).
  destruct (Z.ltb_spec (len a) 0); [lia |].
  destruct (Z.ltb_spec (len a + len m) 0); [lia |].
  rewrite !Z.min_l by lia.
  replace (len a + len m - len a) with (len m) by lia.
  unfold len. rewrite !Nat2Z.id. apply substring_app.
Qed.

(** The text between the first opening brace and the last closing brace. *)
Lemma brace_slice (s : string) :
  let first := indexOf s "{" in
  let last := lastIndexOf s "}" in
  0 <= first < last ->
  exists before middle after,
    s = (before ++ "{" ++ middle ++ "}" ++ after)%string
    /\ slice s first (last + 1) = ("{" ++ middle ++ "}")%string
    /\ occurs "{" before = false
    /\ occurs "}" after = false.
Proof.
  intros first last [H0 Hlt].
  destruct (indexOf_from_char "{" s 0) as (a1 & b1 & Hs1 & Hk1 & Ha1).
  { change (first <> -1). lia. }
  { lia. }
  destruct (lastIndexOf_from_char "}" s 0) as (a2 & b2 & Hs2 & Hk2 & Hb2).
  { change (0 <= last). lia. }
  { lia. }
  change (first = 0 + len a1) in Hk1.
  change (last = 0 + len a2) in Hk2.
  destruct (append_cut a1 (String "{" b1) a2 (String "}" b2)) as (m & Hm & Hx).
  { now rewrite <- Hs1, <- Hs2. }
  { lia. }
  assert (Hlen : len a2 = len a1 + len m) by (rewrite Hm; apply len_app).
  destruct m as [| c middle].
  { change (len EmptyString) with 0 in Hlen. lia. }
  simpl in Hx. injection Hx as <- Hb1.
  exists a1, middle, b2. split; [| split; [| split; assumption]].
  - rewrite Hs2, Hm. rewrite append_assoc. reflexivity.
  - assert (Hs : s = (a1 ++ ("{" ++ middle ++ "}") ++ b2)%string).
    { rewrite Hs2, Hm, !append_assoc. reflexivity. }
    rewrite Hs at 1.
    replace first with (len a1) by lia.
    replace (last + 1) with (len a1 + len ("{" ++ middle ++ "}")).
    + apply slice_app.
    + rewrite Hk2, Hlen.
      change ("{" ++ middle ++ "}")%string with (String "{" (middle ++ "}")).
      rewrite !len_String, len_app. change (len "}") with 1. lia.
Qed.

Section StreamEnd.
Context {E : Engine}.
Import Stream.

Lemma consume_no_delimiter (chunks : list string) (e : ending) (st : state) :
  finalSent st = false -> jsonStarted st = false ->
  includes (fullText st ++ all_text chunks) FINAL_JSON_open = false ->
  consume st chunks e =
    map token (filter nonempty chunks)
    ++ [error (match e with
               | closed => "Model did not return FINAL_JSON block."
               | failed (Some m) => m
               | failed None => "Streaming failed"
               end)].
Proof.
  revert st. induction chunks as [| text rest IH]; intros st Hf Hj H.
  - simpl. rewrite Hf. now destruct e as [| [m |]].
  - cbn [consume filter all_text fold_right] in *. fold (all_text rest) in H.
    unfold nonempty at 1.
    destruct (String.eqb_spec text "") as [-> | Hne].
    + rewrite on_chunk_empty. simpl. now apply IH.
    + rewrite <- append_assoc in H.
      destruct (on_chunk_narrating st text Hf Hj Hne)
        as [(Hi & st' & -> & Hacc & Hf' & Hj') | (Hi & _)].
      * simpl. f_equal. apply IH; auto. now rewrite Hacc.
      * rewrite (includes_app_false _ _ _ H) in Hi. discriminate.
Qed.

End StreamEnd.

(** ** Lists without repeated keys *)

Lemma existsb_eqb_In (k : string) (seen : list string) :
  existsb (String.eqb k) seen = true <-> In k seen.
Proof.
  rewrite existsb_exists. split.
  - intros (x & Hx & Heq). apply String.eqb_eq in Heq. now subst.
  - intros H. exists k. split; [assumption | apply String.eqb_refl].
Qed.

Section FilterUnseen.
Context {A : Type} (key : A -> string).

Lemma filter_unseen_fresh (l : list A) (seen : list string) (x : A) :
  In x (Analyze.filter_unseen key seen l) -> ~ In (key x) seen.
Proof.
  revert seen. induction l as [| y l IH]; intros seen H; [contradiction |].
  simpl in H. destruct (existsb _ seen) eqn:Hs.
  - now apply IH.
  - destruct H as [-> | H].
    + intros Hin. apply existsb_eqb_In in Hin. congruence.
    + intros Hin. apply (IH _ H). now right.
Qed.

Lemma filter_unseen_NoDup (l : list A) (seen : list string) :
  NoDup (map key (Analyze.filter_unseen key seen l)).
Proof.
  revert seen. induction l as [| y l IH]; intros seen; [constructor |].
  simpl. destruct (existsb _ seen); [apply IH |].
  simpl. constructor; [| apply IH].
  intros Hin. apply in_map_iff in Hin. destruct Hin as (x & Hk & Hx).
  apply filter_unseen_fresh in Hx. apply Hx. left. congruence.
Qed.

Lemma filter_unseen_id (l : list A) (seen : list string) :
  NoDup (map key l) -> (forall x, In x l -> ~ In (key x) seen) ->
  Analyze.filter_unseen key seen l = l.
Proof.
  revert seen. induction l as [| y l IH]; intros seen Hnd Hfresh; [reflexivity |].
  simpl. inversion Hnd as [| ? ? Hy Hl]; subst.
  destruct (existsb _ seen) eqn:Hs.
  - apply existsb_eqb_In in Hs. exfalso. apply (Hfresh y); [now left | assumption].
  - f_equal. apply IH; [assumption |].
    intros x Hx [Heq | Hin].
    + apply Hy. rewrite Heq. now apply in_map.
    + apply (Hfresh x); [now right | assumption].
Qed.

Lemma filter_unseen_head (l : list A) :
  l <> [] -> (1 <= List.length (Analyze.filter_unseen key [] l))%nat.
Proof.
  destruct l as [| y l]; [congruence |]. intros _. simpl. lia.
Qed.

End FilterUnseen.

(** ** The synchronous normalizer *)

Lemma len_pos (s : string) : s <> "" -> (0 <? len s) = true.
Proof.
  intros H. destruct s; [congruence |]. unfold len. simpl String.length.
  apply Z.ltb_lt. lia.
Qed.

Lemma or_else_nonempty (a b : string) : b <> "" -> or_else a b <> "".
Proof.
  intros Hb. unfold or_else, nonempty.
  destruct (String.eqb_spec a ""); simpl; assumption.
Qed.

Section Normalizer.
Context {E : Engine}.
Import Analyze.

Lemma filter_all {A : Type} (f : A -> bool) (l : list A) :
  (forall x, In x l -> f x = true) -> filter f l = l.
Proof.
  induction l as [| x l IH]; intros H; [reflexivity |].
  simpl. rewrite (H x) by now left. f_equal. apply IH. intros y Hy. apply H. now right.
Qed.

(** Every element of the [services] array is a supplied entry. *)
Lemma supplied_services_length (parsed : value) :
  List.length (supplied_services parsed)
  = List.length (array_or_empty (prop parsed "services")).
Proof.
  unfold supplied_services. rewrite filter_all.
  - apply length_map.
  - intros s Hs. apply in_map_iff in Hs. destruct Hs as (x & <- & _).
    apply len_pos. cbn [Service.name]. now apply or_else_nonempty.
Qed.

Lemma fallback_names (incidentType : string) :
  map Service.name (buildFallbackServices incidentType)
  = ["api-gateway"; "primary-db"; "cache"].
Proof.
  unfold buildFallbackServices. now destruct (_ || _ || _).
Qed.

Lemma fallback_NoDup (incidentType : string) :
  NoDup (map Service.name (buildFallbackServices incidentType)).
Proof.
  rewrite fallback_names.
  repeat constructor; simpl; intuition discriminate.
Qed.

Lemma services_or_fallback_length (parsed : value) (it : string) :
  (3 <= List.length (services_or_fallback parsed it))%nat.
Proof.
  unfold services_or_fallback.
  destruct (Nat.ltb_spec (List.length (supplied_services parsed)) 3); [| assumption].
  rewrite <- (length_map Service.name), fallback_names. simpl. lia.
Qed.

Lemma toNumber_finite (v : value) (z : Z) :
  exists r, toNumber v (int z) = Fin r.
Proof.
  unfold toNumber, int. destruct (Number v); simpl; eauto.
Qed.

Lemma toInt01to100_score (v : value) : is_score (toInt01to100 v (int 0)).
Proof.
  unfold toInt01to100, clamp.
  destruct (toNumber_finite v 0) as (r & ->).
  now apply min_max_round_score.
Qed.

Lemma toInt01to100_fallback (v : value) :
  Number_isFinite (Number v) = false -> toInt01to100 v (int 0) = int 0.
Proof.
  intros H. unfold toInt01to100, toNumber. now rewrite H.
Qed.

Lemma deterministic_severity_score (l : list Service.t) :
  is_score (calculateSeverityFromServices l).
Proof.
  unfold calculateSeverityFromServices, clamp.
  apply min_max_natural. apply add_natural.
  - destruct (_ <=? _)%nat; [| destruct (_ =? _)%nat];
      right; integer_value.
  - apply mul_int_natural; lia.
Qed.

Lemma blast_radius_score (l : list Service.t) : is_score (calculateBlastRadius l).
Proof.
  unfold calculateBlastRadius.
  destruct (List.length l) as [| n] eqn:Hl.
  - exists 0. now split.
  - apply min_max_round_score, nonneg_not_NaN.
    apply mul_nonneg_pos; [| reflexivity].
    apply div_nonneg_pos; [| apply of_nat_pos; lia].
    apply add_nonneg; [apply natural_nonneg, of_nat_natural |].
    rewrite lit_half. apply mul_nonneg_pos; [| reflexivity].
    apply natural_nonneg, of_nat_natural.
Qed.

Lemma min_max_rnd (z : Z) :
  0 <= z ->
  Math_min (int 100) (Math_max (int 0) (rnd (inject_Z z))) = int (Z.min 100 z).
Proof.
  intros H. assert (H53 : 100 < 2 ^ 53) by reflexivity.
  destruct (Z.le_gt_cases z (2 ^ 53)).
  - rewrite rnd_safe by lia. rewrite min_max_int. f_equal. lia.
  - rewrite min_max_huge by (apply rnd_huge; lia). f_equal. lia.
Qed.

Lemma min_max_add_rnd (a b : Z) :
  0 <= a -> 0 <= b ->
  Math_min (int 100)
    (Math_max (int 0) (add (rnd (inject_Z a)) (rnd (inject_Z b))))
  = int (Z.min 100 (a + b)).
Proof.
  intros Ha Hb. assert (H53 : 100 < 2 ^ 53) by reflexivity.
  destruct (Z.le_gt_cases a (2 ^ 53)); [destruct (Z.le_gt_cases b (2 ^ 53)) |].
  - rewrite !rnd_safe by lia. rewrite add_int. apply min_max_rnd. lia.
  - rewrite min_max_huge; [f_equal; lia |].
    apply add_natural_huge; [now apply rnd_natural | apply rnd_huge; lia].
  - rewrite min_max_huge; [f_equal; lia |].
    apply add_huge; [apply rnd_huge; lia | now apply rnd_natural].
Qed.

(** The topology-derived impact in closed form. *)
Lemma impact_closed_form (p : Propagation.t) :
  calculateImpactFromPropagation p
  = int (Z.min 100 (5 * Z.of_nat (List.length (Propagation.nodes p))
                    + 8 * Z.of_nat (List.length (Propagation.edges p)))).
Proof.
  unfold calculateImpactFromPropagation, clamp, of_nat.
  rewrite !mul_int, min_max_add_rnd by lia. f_equal. lia.
Qed.

Lemma impact_score (p : Propagation.t) : is_score (calculateImpactFromPropagation p).
Proof.
  rewrite impact_closed_form. integer_value.
Qed.

Lemma lit_03 : lit (3 # 10) = Fin (5404319552844595 # 18014398509481984).
Proof. reflexivity. Qed.

Lemma lit_02 : lit (2 # 10) = Fin (3602879701896397 # 18014398509481984).
Proof. reflexivity. Qed.

(** The weighted blend of three scores is a score. *)
Lemma blend_score (a b c : number) :
  is_score a -> is_score b -> is_score c ->
  is_score
    (Math_min (int 100)
       (Math_max (int 0)
          (Math_round
             (add (add (mul a (lit (5 # 10))) (mul b (lit (3 # 10))))
                  (mul c (lit (2 # 10))))))).
Proof.
  intros Ha Hb Hc. apply min_max_round_score, nonneg_not_NaN.
  rewrite lit_half, lit_03, lit_02.
  repeat apply add_nonneg; (apply mul_nonneg_pos; [now apply score_nonneg | reflexivity]).
Qed.

Lemma Math_round_score (x : number) : is_score x -> Math_round x = x.
Proof. intros (z & _ & ->). apply Math_round_int. Qed.

(** The extra [Math.round] of line 399 changes nothing. *)
Lemma severity_formula (parsed : value) :
  severity_score (safeResponse parsed)
  = clamp
      (Math_max (toInt01to100 (prop parsed "severity_score") (int 0))
                (calculateSeverityFromServices (services (safeResponse parsed))))
      (int 0) (int 100).
Proof.
  unfold safeResponse. cbn [severity_score services]. f_equal.
  apply Math_round_score, Math_max_score.
  - apply toInt01to100_score.
  - apply deterministic_severity_score.
Qed.

Lemma severity_score_is_score (parsed : value) :
  is_score (severity_score (safeResponse parsed)).
Proof.
  rewrite severity_formula. unfold clamp.
  rewrite min_max_score; apply Math_max_score;
    auto using toInt01to100_score, deterministic_severity_score.
Qed.

Lemma impact_is_score (parsed : value) :
  is_score (business_impact_score (safeResponse parsed)).
Proof.
  unfold safeResponse. cbn [business_impact_score]. unfold clamp at 1.
  apply blend_score.
  - apply toInt01to100_score.
  - apply impact_score.
  - apply blast_radius_score.
Qed.

End Normalizer.

(** ** The scoring overlay of the streaming route *)

Lemma lookup_put_same (fields : list (string * JSON)) (k : string) (v : JSON) :
  lookup (put fields k v) k = Some v.
Proof.
  induction fields as [| [k' v'] fields IH]; simpl.
  - now rewrite String.eqb_refl.
  - destruct (String.eqb k' k) eqn:Hk; simpl; rewrite Hk; [reflexivity | exact IH].
Qed.

Lemma lookup_put_other (fields : list (string * JSON)) (k k' : string) (v : JSON) :
  k <> k' -> lookup (put fields k v) k' = lookup fields k'.
Proof.
  intros Hne. induction fields as [| [k0 v0] fields IH]; simpl.
  - destruct (String.eqb_spec k k'); [contradiction | reflexivity].
  - destruct (String.eqb_spec k0 k) as [-> | Hk]; simpl.
    + destruct (String.eqb_spec k k'); [contradiction | reflexivity].
    + destruct (String.eqb k0 k'); [reflexivity | exact IH].
Qed.

Lemma untouched_put (fields : list (string * JSON)) (k : string) (v : JSON) :
  scored k = true -> untouched (put fields k v) = untouched fields.
Proof.
  intros Hk. induction fields as [| [k' v'] fields IH]; simpl.
  - now rewrite Hk.
  - destruct (String.eqb_spec k' k) as [-> | Hne]; simpl.
    + now rewrite Hk.
    + now rewrite IH.
Qed.

Section Overlay.
Context {E : Engine}.

Lemma safeInt_toInt01to100 (v : value) :
  Stream.safeInt v (int 0) = Analyze.toInt01to100 v (int 0).
Proof.
  unfold Stream.safeInt, Analyze.toInt01to100, Analyze.toNumber.
  now destruct (Number v).
Qed.

Lemma safeProb_toProb01 (v : value) :
  Stream.safeProb v = Analyze.toProb01 v (int 0).
Proof.
  unfold Stream.safeProb, Analyze.toProb01, Analyze.toNumber.
  now destruct (Number v).
Qed.

Lemma safeInt_score (v : value) : is_score (Stream.safeInt v (int 0)).
Proof. rewrite safeInt_toInt01to100. apply toInt01to100_score. Qed.

Lemma hybrid_object (o : list (string * JSON)) :
  Stream.hybrid (JObject o)
  = Some (JObject
            (put (put (put o "severity_score" (JNumber (stream_severity o)))
                      "business_impact_score" (JNumber (stream_impact o)))
                 "confidence" (JNumber (Stream.safeProb (lookup o "confidence"))))).
Proof.
  unfold Stream.hybrid, Stream.assign. cbn [prop].
  rewrite !lookup_put_other by discriminate. reflexivity.
Qed.

Lemma hybrid_severity (o : list (string * JSON)) :
  prop (Stream.hybrid (JObject o)) "severity_score"
  = Some (JNumber (stream_severity o)).
Proof.
  rewrite hybrid_object. cbn [prop].
  rewrite !lookup_put_other by discriminate. apply lookup_put_same.
Qed.

Lemma hybrid_impact (o : list (string * JSON)) :
  prop (Stream.hybrid (JObject o)) "business_impact_score"
  = Some (JNumber (stream_impact o)).
Proof.
  rewrite hybrid_object. cbn [prop].
  rewrite lookup_put_other by discriminate. apply lookup_put_same.
Qed.

Lemma stream_impact_closed_form (p : value) :
  Stream.calculateImpactFromPropagation p
  = int (Z.min 100
           (5 * Z.of_nat (List.length (array_or_empty (prop p "nodes")))
            + 8 * Z.of_nat (List.length (array_or_empty (prop p "edges"))))).
Proof.
  unfold Stream.calculateImpactFromPropagation, Stream.clamp, of_nat.
  assert (Hlen : forall v : value,
             (if Array_isArray v then List.length (array_or_empty v) else O)
             = List.length (array_or_empty v))
    by (intros [[| | | | |] |]; reflexivity).
  rewrite !Hlen, !mul_int, min_max_add_rnd by lia. f_equal. lia.
Qed.

End Overlay.

Lemma distinct_NoDup (l : list string) : distinct l = true -> NoDup l.
Proof.
  induction l as [| k l IH]; intros H; [constructor |].
  simpl in H. apply andb_true_iff in H. destruct H as [Hk Hl].
  constructor; [| now apply IH].
  intros Hin. apply existsb_eqb_In in Hin. rewrite Hin in Hk. discriminate.
Qed.

(** A list of narration events is the list of their texts. *)
Lemma tokens_are_texts (l : list Stream.event) :
  forallb is_token l = true -> exists texts, l = map Stream.token texts.
Proof.
  induction l as [| ev l IH]; intros H; [now exists [] |].
  simpl in H. apply andb_true_iff in H. destruct H as [Hev Hl].
  destruct (IH Hl) as (texts & ->).
  destruct ev as [text | |]; try discriminate. now exists (text :: texts).
Qed.

(** The lemmas that bound a score, for [auto with scores]. *)
Create HintDb scores discriminated.
#[export] Hint Resolve toInt01to100_score deterministic_severity_score
  blast_radius_score impact_score severity_score_is_score impact_is_score
  safeInt_score Math_max_score : scores.

(* ================================================================= *)
(** * The claims                                                      *)
(* ================================================================= *)

(** The results, by claim.

    - C1 [narration_before_delimiter], after the counterexample
      [example_narration_repeated].
    - C2 [routes_share_confidence], after the counterexample
      [routes_disagree].
    - C3 [services_after_normalization], after the counterexample
      [duplicate_names_shrink_services].
    - C4 [severity_floor].
    - C5 [one_terminal_event].
    - C6 [impact_blend].
    - C7 [scores_are_bounded_integers].
    - C8 [parse_failure_is_an_error].
    - C9 [only_allowed_services_reach_the_webhook].
    - C10 [stream_leaves_other_fields].

    The theorems quantify over every [Engine]; the counterexamples and the
    worked instances run on [reference_engine]. *)

(** The run of the route on the fragments of the specification's example. *)
Lemma example_events :
  @Stream.start reference_engine example_chunks Stream.closed
  = [Stream.token "investigating..."; Stream.token "<FINAL_";
     Stream.token "investigating...";
     Stream.final (JObject [("severity_score", JNumber (int 90));
                            ("business_impact_score", JNumber (int 0));
                            ("confidence", JNumber (int 0))])].
Proof. vm_compute. reflexivity. Qed.



(** C5.  A run sends narration events and then exactly one terminal event
    ([final] or [error]), which is its last event; and when the text of the
    fragments never contains the opening delimiter and the source ends, the
    run is one [token] per non-empty fragment followed by the one [error]
    event "Model did not return FINAL_JSON block."; however the source
    ends, such a run has no [final] event. *)
Theorem one_terminal_event (E : Engine) (chunks : list string) (e : Stream.ending) :
  (exists texts t,
     Stream.start chunks e = map Stream.token texts ++ [t]
     /\ is_terminal t = true)
  /\ (includes (all_text chunks) Stream.FINAL_JSON_open = false ->
      Stream.start chunks Stream.closed
      = map Stream.token (filter nonempty chunks)
        ++ [Stream.error "Model did not return FINAL_JSON block."]
      /\ forall report : JSON,
           ~ In (Stream.final report) (Stream.start chunks e)).
Proof.
  split.
  - destruct (consume_narrating chunks e Stream.initial eq_refl eq_refl)
      as (detect & t & H & _ & Htok & Ht).
    destruct (tokens_are_texts detect Htok) as (texts & ->).
    exists (narrated "" chunks ++ texts), t. split; [| exact Ht].
    unfold Stream.start. rewrite H, map_app, <- app_assoc. reflexivity.
  - intros H. unfold Stream.start.
    rewrite !(consume_no_delimiter chunks _ Stream.initial) by auto.
    split; [reflexivity |].
    intros report Hin. apply in_app_or in Hin. destruct Hin as [Hin | [Hin | []]].
    + apply in_map_iff in Hin. destruct Hin as (text & Heq & _). discriminate.
    + discriminate.
Qed.

(** C5 at three fragments, one of them empty, without the delimiter. *)
Lemma one_terminal_event_witness :
  @Stream.start reference_engine ["checking the pool"; ""; " and the replica"]
                Stream.closed
  = [Stream.token "checking the pool"; Stream.token " and the replica";
     Stream.error "Model did not return FINAL_JSON block."].
Proof.
  apply (proj2 (one_terminal_event reference_engine
                  ["checking the pool"; ""; " and the replica"] Stream.closed)).
  reflexivity.
Defined.

(** C2, counterexample.  For the parsed object [one_down] (three services,
    one of them down, no AI severity) the synchronous report has severity
    45 and the streaming report severity 35; the two reports differ. *)
Lemma routes_disagree :
  let sync := Analyze.report_json
                (@Analyze.safeResponse reference_engine (Some one_down))
                default_context in
  prop (Some sync) "severity_score" = Some (JNumber (int 45))
  /\ prop (@Stream.hybrid reference_engine one_down) "severity_score"
     = Some (JNumber (int 35))
  /\ @Stream.hybrid reference_engine one_down <> Some sync.
Proof.
  repeat split.
  intros H.
  assert (H' : prop (@Stream.hybrid reference_engine one_down) "severity_score"
               = Some (JNumber (int 45))) by now rewrite H.
  vm_compute in H'. discriminate.
Qed.

(** C2, as amended.  Given the same parsed object, the report of the
    streaming [final] event and the synchronous report carry the same
    [confidence]; both routes coerce the AI severity alike, and they carry
    the same [severity_score] whenever their deterministic severities (the
    additive one over the raw services, the threshold one over the
    normalized services) coincide. *)
Theorem routes_share_confidence (E : Engine) (o : list (string * JSON))
  (ctx : string) :
  let sync := Analyze.report_json (Analyze.safeResponse (Some (JObject o))) ctx in
  prop (Stream.hybrid (JObject o)) "confidence" = prop (Some sync) "confidence"
  /\ Stream.safeInt (lookup o "severity_score") (int 0)
     = Analyze.toInt01to100 (lookup o "severity_score") (int 0)
  /\ (Stream.calculateSeverityFromServices (array_or_empty (lookup o "services"))
      = Analyze.calculateSeverityFromServices
          (Analyze.services (Analyze.safeResponse (Some (JObject o)))) ->
      prop (Stream.hybrid (JObject o)) "severity_score"
      = prop (Some sync) "severity_score").
Proof.
  intros sync. rewrite hybrid_object. cbn [prop].
  split; [| split].
  - rewrite lookup_put_same. unfold sync, Analyze.report_json.
    cbn [lookup String.eqb Ascii.eqb Bool.eqb].
    unfold Analyze.safeResponse. cbn [Analyze.confidence prop].
    now rewrite safeProb_toProb01.
  - apply safeInt_toInt01to100.
  - intros Hdet. rewrite !lookup_put_other by discriminate.
    rewrite lookup_put_same.
    unfold sync, Analyze.report_json. cbn [lookup String.eqb Ascii.eqb Bool.eqb].
    rewrite severity_formula. cbn [prop].
    unfold stream_severity. rewrite Hdet, safeInt_toInt01to100. reflexivity.
Qed.

(** C2 at [two_down], where both deterministic severities are 70. *)
Lemma routes_share_confidence_witness :
  prop (@Stream.hybrid reference_engine two_down) "severity_score"
  = Some (JNumber (int 70)).
Proof.
  destruct (routes_share_confidence reference_engine
              [("severity_score", JNumber (int 0));
               ("services", JArray [service_entry "auth" "down";
                                    service_entry "db" "down";
                                    service_entry "queue" "healthy"])]
              default_context) as (_ & _ & H).
  unfold two_down, with_services. rewrite H; reflexivity.
Defined.

(** C3, counterexample.  Three supplied services that share one name pass
    the test for the fallback and are then reduced to one entry. *)
Lemma duplicate_names_shrink_services :
  List.length (Analyze.services (@Analyze.safeResponse reference_engine
                                   (Some same_name))) = 1%nat
  /\ ~ (3 <= List.length (Analyze.services (@Analyze.safeResponse reference_engine
                                              (Some same_name))))%nat.
Proof.
  assert (H : List.length (Analyze.services (@Analyze.safeResponse reference_engine
                                               (Some same_name))) = 1%nat)
    by reflexivity.
  split; [exact H | rewrite H; lia].
Qed.

(** C3, as amended.  The services of the report are the list [before]
    (the supplied entries, or the fallback topology when fewer than three
    were supplied) with later entries of an already seen name dropped.
    [before] has at least three entries; the result has at least one entry
    and no repeated name, and it is [before] itself, of length at least
    three, when the names of [before] are distinct.  Every element of the
    input's [services] array is a supplied entry; when fewer than three are
    supplied the result is exactly the fallback topology: api-gateway,
    primary-db, cache. *)
Theorem services_after_normalization (E : Engine) (parsed : value) :
  let r := Analyze.safeResponse parsed in
  let before := Analyze.services_or_fallback parsed (Analyze.incident_type r) in
  Analyze.services r = Analyze.filter_unseen Analyze.Service.name [] before
  /\ (3 <= List.length before)%nat
  /\ (1 <= List.length (Analyze.services r))%nat
  /\ NoDup (map Analyze.Service.name (Analyze.services r))
  /\ (distinct (map Analyze.Service.name before) = true ->
      Analyze.services r = before /\ (3 <= List.length (Analyze.services r))%nat)
  /\ List.length (Analyze.supplied_services parsed)
     = List.length (array_or_empty (prop parsed "services"))
  /\ ((List.length (Analyze.supplied_services parsed) < 3)%nat ->
      Analyze.services r = Analyze.buildFallbackServices (Analyze.incident_type r)
      /\ List.length (Analyze.services r) = 3%nat
      /\ map Analyze.Service.name (Analyze.services r)
         = ["api-gateway"; "primary-db"; "cache"]).
Proof.
  intros r before.
  assert (Hr : Analyze.services r
               = Analyze.filter_unseen Analyze.Service.name [] before) by reflexivity.
  pose proof (services_or_fallback_length parsed (Analyze.incident_type r)) as Hlen.
  fold before in Hlen.
  assert (Hid : NoDup (map Analyze.Service.name before) -> Analyze.services r = before).
  { intros Hnd. rewrite Hr. apply filter_unseen_id; [assumption | now intros x _ []]. }
  assert (Hfb : (List.length (Analyze.supplied_services parsed) < 3)%nat ->
                Analyze.services r
                = Analyze.buildFallbackServices (Analyze.incident_type r)).
  { intros Hlt.
    assert (Hb : before = Analyze.buildFallbackServices (Analyze.incident_type r)).
    { unfold before, Analyze.services_or_fallback.
      destruct (Nat.ltb_spec (List.length (Analyze.supplied_services parsed)) 3);
        [reflexivity | lia]. }
    rewrite Hid; [exact Hb | rewrite Hb; apply fallback_NoDup]. }
  split; [exact Hr |].
  split; [exact Hlen |].
  split.
  { rewrite Hr. apply filter_unseen_head. intros Hnil.
    rewrite Hnil in Hlen. simpl in Hlen. lia. }
  split; [rewrite Hr; apply filter_unseen_NoDup |].
  split.
  { intros Hd. apply distinct_NoDup in Hd. rewrite (Hid Hd). now split. }
  split; [apply supplied_services_length |].
  intros Hlt. rewrite (Hfb Hlt).
  split; [reflexivity |].
  rewrite <- (length_map Analyze.Service.name), fallback_names. now split.
Qed.

(** C3 at an input with one service (the fallback applies) and at
    [two_down] (three distinct names are kept). *)
Lemma services_after_normalization_witness :
  map Analyze.Service.name
      (Analyze.services (@Analyze.safeResponse reference_engine
                           (Some (with_services 0 [service_entry "auth" "down"]))))
  = ["api-gateway"; "primary-db"; "cache"]
  /\ (3 <= List.length
             (Analyze.services (@Analyze.safeResponse reference_engine
                                  (Some two_down))))%nat.
Proof.
  split.
  - apply (proj2 (proj2 (proj2 (proj2 (proj2 (proj2
             (services_after_normalization reference_engine
                (Some (with_services 0 [service_entry "auth" "down"]))))))))).
    simpl. lia.
  - apply (proj1 (proj2 (proj2 (proj2 (proj2
             (services_after_normalization reference_engine (Some two_down))))))).
    reflexivity.
Defined.

(** A deterministic severity of 70 is a floor of the final severity. *)
Lemma floor_at_70 (a : number) :
  is_score a ->
  exists z, 70 <= z <= 100 /\
            Math_min (int 100) (Math_max (int 0) (Math_max a (int 70))) = int z.
Proof.
  intros (x & Hx & ->). rewrite Math_max_int, min_max_int.
  integer_value.
Qed.

Lemma sync_severity_two_down (l : list Analyze.Service.t) :
  map Analyze.Service.status l = [Analyze.down; Analyze.down; Analyze.healthy] ->
  Analyze.calculateSeverityFromServices l = int 70.
Proof.
  intros H.
  destruct l as [| [n1 s1 g1 c1] [| [n2 s2 g2 c2] [| [n3 s3 g3 c3] [|]]]];
    try discriminate.
  simpl in H. injection H as -> -> ->. reflexivity.
Qed.

Lemma stream_severity_two_down (a b c : JSON) :
  prop (Some a) "status" = Some (JString "down") ->
  prop (Some b) "status" = Some (JString "down") ->
  prop (Some c) "status" = Some (JString "healthy") ->
  Stream.calculateSeverityFromServices [a; b; c] = int 70.
Proof.
  intros Ha Hb Hc. unfold Stream.calculateSeverityFromServices.
  cbn [fold_left]. unfold Stream.status_is. rewrite Ha, Hb, Hc. reflexivity.
Qed.

(** C4.  On both routes the final severity is
    [clamp (max ai deterministic) 0 100], the deterministic severity being
    computed from the statuses of the services (of the normalized services
    on the synchronous route, of the raw [services] array on the streaming
    route).  For services that are down, down, healthy the deterministic
    severity is 70 on both routes, and the final severity is between 70 and
    100 whatever the AI severity is. *)
Theorem severity_floor (E : Engine) :
  (forall parsed : value,
     Analyze.severity_score (Analyze.safeResponse parsed)
     = Analyze.clamp
         (Math_max (Analyze.toInt01to100 (prop parsed "severity_score") (int 0))
                   (Analyze.calculateSeverityFromServices
                      (Analyze.services (Analyze.safeResponse parsed))))
         (int 0) (int 100))
  /\ (forall o : list (string * JSON),
        prop (Stream.hybrid (JObject o)) "severity_score"
        = Some (JNumber
                  (Stream.clamp
                     (Math_max (Stream.safeInt (lookup o "severity_score") (int 0))
                               (Stream.calculateSeverityFromServices
                                  (array_or_empty (lookup o "services"))))
                     (int 0) (int 100))))
  /\ (forall parsed : value,
        map Analyze.Service.status
            (Analyze.services (Analyze.safeResponse parsed))
        = [Analyze.down; Analyze.down; Analyze.healthy] ->
        Analyze.calculateSeverityFromServices
          (Analyze.services (Analyze.safeResponse parsed)) = int 70
        /\ exists z, 70 <= z <= 100 /\
                     Analyze.severity_score (Analyze.safeResponse parsed) = int z)
  /\ (forall (o : list (string * JSON)) (a b c : JSON),
        lookup o "services" = Some (JArray [a; b; c]) ->
        prop (Some a) "status" = Some (JString "down") ->
        prop (Some b) "status" = Some (JString "down") ->
        prop (Some c) "status" = Some (JString "healthy") ->
        Stream.calculateSeverityFromServices [a; b; c] = int 70
        /\ exists z, 70 <= z <= 100 /\
                     prop (Stream.hybrid (JObject o)) "severity_score"
                     = Some (JNumber (int z))).
Proof.
  split; [| split; [| split]].
  - apply severity_formula.
  - apply hybrid_severity.
  - intros parsed H. split; [now apply sync_severity_two_down |].
    rewrite severity_formula, (sync_severity_two_down _ H).
    apply floor_at_70, toInt01to100_score.
  - intros o a b c Ho Ha Hb Hc.
    split; [now apply stream_severity_two_down |].
    rewrite hybrid_severity. unfold stream_severity. rewrite Ho. cbn [array_or_empty].
    rewrite (stream_severity_two_down a b c Ha Hb Hc).
    destruct (floor_at_70 (Stream.safeInt (lookup o "severity_score") (int 0))
                (safeInt_score _)) as (z & Hz & Heq).
    exists z. split; [exact Hz |]. unfold Stream.clamp. now rewrite Heq.
Qed.

(** C4 at [two_down], on both routes. *)
Lemma severity_floor_witness :
  Analyze.calculateSeverityFromServices
    (Analyze.services (@Analyze.safeResponse reference_engine (Some two_down)))
  = int 70
  /\ Stream.calculateSeverityFromServices
       [service_entry "auth" "down"; service_entry "db" "down";
        service_entry "queue" "healthy"]
     = int 70.
Proof.
  destruct (severity_floor reference_engine) as (_ & _ & Hsync & Hstream).
  split.
  - apply (Hsync (Some two_down)). reflexivity.
  - apply (Hstream
             [("severity_score", JNumber (int 0));
              ("services", JArray [service_entry "auth" "down";
                                   service_entry "db" "down";
                                   service_entry "queue" "healthy"])]);
      reflexivity.
Defined.



(** The products and sums of the blend are those of binary64: for an AI
    impact of 0, a topology impact of 31 and a blast radius of 1 the sum is
    just below 9.5 and the blend is 9. *)
Remark blend_in_binary64 :
  add (add (mul (int 0) (lit (5 # 10))) (mul (int 31) (lit (3 # 10))))
      (mul (int 1) (lit (2 # 10)))
  = Fin (5348024557502463 # 562949953421312)
  /\ Analyze.clamp
       (Math_round
          (add (add (mul (int 0) (lit (5 # 10))) (mul (int 31) (lit (3 # 10))))
               (mul (int 1) (lit (2 # 10)))))
       (int 0) (int 100)
     = int 9.
Proof. split; reflexivity. Qed.



(** With logs that are not blank, [POST] answers what [respond] answers. *)
Lemma POST_with_logs (E : Engine) (b : JSON) (l text ctx : string) :
  prop (Some b) "logs" = Some (JString l) -> trim l <> "" ->
  Analyze.POST (Some b) ctx (Some text) = Analyze.respond text ctx.
Proof.
  intros Hl Ht. unfold Analyze.POST. rewrite Hl.
  assert (Hne : l <> "") by (intros ->; now apply Ht).
  unfold truthy, nonempty.
  destruct (String.eqb_spec l ""); [contradiction |].
  destruct (String.eqb_spec (trim l) ""); [contradiction | reflexivity].
Qed.



(** C9.  A request whose [service] is not one of api-gateway, primary-db,
    cache is answered with "Invalid service" (status 400) and no call to
    the webhook; every call made to the webhook is for a [service] of that
    list, the one of the request; a request that cannot be decoded makes no
    call either. *)
Theorem only_allowed_services_reach_the_webhook
  (b : JSON) (now : string) (webhook : Execute.attempt Z) :
  let service_ := prop (Some b) "service" in
  let calls := fst (Execute.POST (Execute.ok b) now webhook) in
  let answer := snd (Execute.POST (Execute.ok b) now webhook) in
  (Execute.allowed_includes service_ = false ->
   calls = [] /\ answer = json_error "Invalid service" 400)
  /\ (forall c : Execute.webhook_call,
        In c calls ->
        In (Execute.service c) ["api-gateway"; "primary-db"; "cache"]
        /\ service_ = Some (JString (Execute.service c)))
  /\ (forall message : option string,
        fst (Execute.POST (Execute.thrown message) now webhook) = []).
Proof.
  intros service_ calls answer. unfold calls, answer, Execute.POST. fold service_.
  split; [| split].
  - intros H. now rewrite H.
  - intros c Hc. destruct (Execute.allowed_includes service_) eqn:Ha;
      [| contradiction].
    unfold Execute.allowed_includes in Ha.
    destruct service_ as [[| | | s | |] |]; try discriminate.
    assert (Hs : In s Execute.allowed) by now apply existsb_eqb_In.
    cbn [negb string_or] in Hc.
    destruct webhook; destruct Hc as [<- | []]; now split.
  - reflexivity.
Qed.

(** C9 at a service outside the list and at [cache]. *)
Lemma only_allowed_services_reach_the_webhook_witness :
  Execute.POST (Execute.ok (JObject [("service", JString "billing")]))
               "2024-01-01T00:00:00.000Z" (Execute.ok 200)
  = ([], json_error "Invalid service" 400)
  /\ In "cache" ["api-gateway"; "primary-db"; "cache"].
Proof.
  split.
  - apply injective_projections;
      apply (proj1 (only_allowed_services_reach_the_webhook
                      (JObject [("service", JString "billing")])
                      "2024-01-01T00:00:00.000Z" (Execute.ok 200)));
      reflexivity.
  - apply (proj1 (proj2 (only_allowed_services_reach_the_webhook
                           (JObject [("service", JString "cache")])
                           "2024-01-01T00:00:00.000Z" (Execute.ok 200)))
             {| Execute.action := "scale_up"; Execute.service := "cache";
                Execute.triggeredBy := "AutoOps AI";
                Execute.timestamp := "2024-01-01T00:00:00.000Z" |}).
    simpl. now left.
Defined.

Section Frame.
Context {E : Engine}.
Import Stream.

Lemma on_chunk_final (st : state) (text : string) (report : JSON) :
  In (final report) (fst (on_chunk st text)) ->
  exists jsonText, parse_and_score jsonText = Some report.
Proof.
  unfold on_chunk.
  destruct (String.eqb text ""); [contradiction |].
  destruct (negb (finalSent st) && negb (jsonStarted st)).
  - destruct (indexOf _ _ =? -1).
    + destruct (negb (finalSent st)); [| simpl; intuition discriminate].
      destruct (_ && _ && _); [| simpl; intuition discriminate].
      destruct (parse_and_score _) eqn:Hp; simpl;
        intros [H | [H | []]]; try discriminate.
      injection H as <-. eauto.
    + destruct (negb (finalSent st));
        [| destruct (negb _); simpl; intuition discriminate].
      destruct (_ && _ && _);
        [| destruct (negb _); simpl; intuition discriminate].
      destruct (parse_and_score _) eqn:Hp; cbn [fst]; intros H;
        apply in_app_or in H; destruct H as [H | [H | []]];
        try discriminate; try (destruct (negb _); simpl in H; intuition discriminate).
      injection H as <-. eauto.
  - destruct (negb (finalSent st)); [| contradiction].
    destruct (_ && _ && _); [| contradiction].
    destruct (parse_and_score _) eqn:Hp; simpl; intros [H | []]; try discriminate.
    injection H as <-. eauto.
Qed.

Lemma consume_final (chunks : list string) (e : ending) (st : state)
  (report : JSON) :
  finalSent st = false ->
  In (final report) (consume st chunks e) ->
  exists jsonText, parse_and_score jsonText = Some report.
Proof.
  revert st. induction chunks as [| text rest IH]; intros st Hf H.
  - simpl in H. rewrite Hf in H. destruct e; simpl in H; intuition discriminate.
  - simpl in H. destruct (on_chunk st text) as [sent [st' | st']] eqn:Hc.
    + apply in_app_or in H. destruct H as [H | H].
      * apply (on_chunk_final st text). now rewrite Hc.
      * apply (IH st'); [| assumption].
        revert Hc. unfold on_chunk. rewrite Hf.
        destruct (String.eqb text ""); [intros [= _ <-]; assumption |].
        cbn [negb andb]. destruct (negb (jsonStarted st)).
        -- destruct (indexOf _ _ =? -1); destruct (_ && _ && _);
             try destruct (parse_and_score _); intros [= _ <-]; reflexivity.
        -- destruct (_ && _ && _);
             try destruct (parse_and_score _); intros [= _ <-]; reflexivity.
    + apply (on_chunk_final st text). now rewrite Hc.
Qed.

End Frame.



(* ================================================================= *)
(** * Part III.  Further properties                                   *)
(* ================================================================= *)

(** Properties of the code around the claims: the routes from the request
    on, the rest of the normalizer, and the page that calls the routes.

    - X1 [terminal_event_of_the_whole_text], X2
      [nothing_is_read_after_the_envelope], X3 [empty_fragments_are_skipped],
      X4 [payload_must_be_an_object_or_an_array], X5
      [stream_scores_are_in_range]: the streaming route.
    - X6 [severity_from_services], X20 [blast_radius_ends]: the scores
      computed from the services, on both routes.
    - X7 [confidence_and_recovery_time_in_range], X8
      [probable_causes_are_ranked], X9 [string_lists_are_clean], X10
      [propagation_graph_is_well_formed], X11 [fallback_sets_a_floor]: the
      synchronous report.
    - X12 [analysis_checks_before_it_calls], X13
      [external_context_degrades], X19 [routes_accept_the_same_requests]:
      the routes from the request on.
    - X14 [events_survive_the_wire], X15 [page_shows_the_verdict], X16
      [priority_of_a_report], X17 [page_executes_the_first_service], X18
      [voice_stress_raises_severity]: the page and the routes. *)

(** ** The envelope of the streaming route *)

Lemma prefix_length (pat s : string) :
  prefix pat s = true -> (String.length pat <= String.length s)%nat.
Proof.
  revert s. induction pat as [| a pat IH]; intros s H; simpl; [lia |].
  destruct s as [| b s]; [discriminate |]. simpl in *.
  destruct (ascii_dec a b); [| discriminate]. apply IH in H. lia.
Qed.

Lemma prefix_app_inv (pat s t : string) :
  prefix pat (s ++ t) = true -> (String.length pat <= String.length s)%nat ->
  prefix pat s = true.
Proof.
  revert s. induction pat as [| a pat IH]; intros s H Hlen.
  - now destruct s.
  - destruct s as [| b s]; [simpl in Hlen; lia |]. simpl in *.
    destruct (ascii_dec a b); [| discriminate]. apply IH; [assumption | lia].
Qed.

(** Where a pattern is found: inside the string. *)
Lemma indexOf_from_bounds (pat s : string) (i : Z) :
  indexOf_from i s pat <> -1 -> 0 <= i ->
  i <= indexOf_from i s pat /\ indexOf_from i s pat - i + len pat <= len s.
Proof.
  revert i. induction s as [| c s IH]; intros i H Hi.
  - cbn [indexOf_from] in *. destruct (prefix pat "") eqn:Hp; [| congruence].
    apply prefix_length in Hp. unfold len. simpl in *. lia.
  - cbn [indexOf_from] in *. destruct (prefix pat (String c s)) eqn:Hp.
    + apply prefix_length in Hp. unfold len. lia.
    + destruct (IH (i + 1) H) as [H1 H2]; [lia |].
      rewrite len_String. lia.
Qed.

(** The first occurrence of a pattern stays the first when text is added. *)
Lemma indexOf_from_app (pat s t : string) (i : Z) :
  indexOf_from i s pat <> -1 -> 0 <= i ->
  indexOf_from i (s ++ t) pat = indexOf_from i s pat.
Proof.
  revert i. induction s as [| c s IH]; intros i H Hi.
  - cbn [indexOf_from] in H. destruct (prefix pat "") eqn:Hp; [| congruence].
    destruct pat; [| discriminate]. simpl. now destruct t.
  - change (String c s ++ t)%string with (String c (s ++ t)).
    cbn [indexOf_from] in *. destruct (prefix pat (String c s)) eqn:Hp.
    + change (String c (s ++ t)) with (String c s ++ t)%string.
      now rewrite (prefix_app _ _ t Hp).
    + destruct (prefix pat (String c (s ++ t))) eqn:Hq.
      * exfalso.
        destruct (indexOf_from_bounds pat s (i + 1) H) as [Ha Hb]; [lia |].
        change (String c (s ++ t)) with (String c s ++ t)%string in Hq.
        apply prefix_app_inv in Hq; [congruence |].
        unfold len in Hb. simpl. lia.
      * apply IH; [assumption | lia].
Qed.

Lemma indexOf_app (pat s t : string) :
  indexOf s pat <> -1 -> indexOf (s ++ t) pat = indexOf s pat.
Proof. intros H. apply indexOf_from_app; [exact H | lia]. Qed.

Lemma indexOf_bounds (pat s : string) :
  indexOf s pat <> -1 ->
  0 <= indexOf s pat /\ indexOf s pat + len pat <= len s.
Proof.
  intros H. destruct (indexOf_from_bounds pat s 0 H); [lia |]. unfold indexOf. lia.
Qed.

Lemma substring_zero (n : nat) (s : string) : substring n 0 s = "".
Proof.
  revert n. induction s as [| c s IH]; intros [| n]; simpl; auto.
Qed.

Lemma substring_app_l (n m : nat) (s t : string) :
  (n + m <= String.length s)%nat -> substring n m (s ++ t) = substring n m s.
Proof.
  revert n m. induction s as [| c s IH]; intros n m H.
  - simpl in H. assert (n = O) by lia. assert (m = O) by lia. subst.
    simpl. now destruct t.
  - destruct n as [| n].
    + destruct m as [| m]; [reflexivity |]. simpl. f_equal.
      apply (IH O m). simpl in H. lia.
    + simpl. apply IH. simpl in H. lia.
Qed.

(** A slice that ends inside a string is not changed by added text. *)
Lemma slice_app_l (s t : string) (a b : Z) :
  0 <= a -> 0 <= b <= len s -> slice (s ++ t) a b = slice s a b.
Proof.
  intros Ha Hb. unfold slice, clip_index. rewrite len_app.
  pose proof (len_nonneg t).
  destruct (Z.ltb_spec a 0); [lia |]. destruct (Z.ltb_spec b 0); [lia |].
  rewrite (Z.min_l b (len s + len t)), (Z.min_l b (len s)) by lia.
  destruct (Z.le_gt_cases a b).
  - rewrite !Z.min_l by lia. apply substring_app_l. unfold len in *. lia.
  - assert (E1 : Z.to_nat (b - Z.min a (len s + len t)) = O) by lia.
    assert (E2 : Z.to_nat (b - Z.min a (len s)) = O) by lia.
    now rewrite E1, E2, !substring_zero.
Qed.

Lemma substring_length (n m : nat) (s : string) :
  (String.length (substring n m s) <= m)%nat.
Proof.
  revert n m. induction s as [| c s IH]; intros [| n] [| m]; simpl; try lia.
  - specialize (IH O m). lia.
  - apply IH.
  - apply IH.
Qed.

Lemma substring_prefix (m : nat) (s : string) : prefix (substring 0 m s) s = true.
Proof.
  revert m. induction s as [| c s IH]; intros [| m]; simpl; try reflexivity.
  destruct (ascii_dec c c); [apply IH | congruence].
Qed.

(** The first [k] characters of a string. *)
Lemma slice_head (s : string) (k : Z) :
  0 <= k -> len (slice s 0 k) <= k /\ prefix (slice s 0 k) s = true.
Proof.
  intros Hk. unfold slice, clip_index. pose proof (len_nonneg s).
  destruct (Z.ltb_spec 0 0); [lia |]. destruct (Z.ltb_spec k 0); [lia |].
  rewrite Z.min_l by lia. change (Z.to_nat 0) with O.
  split; [| apply substring_prefix].
  pose proof (substring_length 0 (Z.to_nat (Z.min k (len s) - 0)) s).
  unfold len in *. lia.
Qed.

Section VerdictLemmas.
Context {E : Engine}.
Import Stream.

Lemma envelope_app (text rest jsonText : string) :
  envelope text = Some jsonText -> envelope (text ++ rest) = Some jsonText.
Proof.
  unfold envelope. intros H.
  destruct (Z.eqb_spec (indexOf text FINAL_JSON_open) (-1)) as [| Ho];
    [discriminate |].
  destruct (Z.eqb_spec (indexOf text FINAL_JSON_close) (-1)) as [| Hc];
    [discriminate |].
  rewrite (indexOf_app _ _ rest Ho), (indexOf_app _ _ rest Hc).
  destruct (Z.eqb_spec (indexOf text FINAL_JSON_open) (-1)); [contradiction |].
  destruct (Z.eqb_spec (indexOf text FINAL_JSON_close) (-1)); [contradiction |].
  cbn [negb andb] in *.
  destruct (Z.ltb_spec (indexOf text FINAL_JSON_open) (indexOf text FINAL_JSON_close));
    [| discriminate].
  rewrite slice_app_l; [exact H | |].
  - destruct (indexOf_bounds _ _ Ho). pose proof (len_nonneg FINAL_JSON_open). lia.
  - destruct (indexOf_bounds _ _ Hc). destruct (indexOf_bounds _ _ Ho).
    pose proof (len_nonneg FINAL_JSON_close). lia.
Qed.

Lemma envelope_empty : envelope "" = None.
Proof. reflexivity. Qed.

(** One turn of the loop: it returns with the terminal event the text
    calls for when the envelope is complete, and goes on otherwise. *)
Lemma on_chunk_verdict (st : state) (text : string) :
  finalSent st = false -> text <> "" ->
  let acc := (fullText st ++ text)%string in
  match envelope acc with
  | Some jsonText =>
      exists texts st',
        on_chunk st text
        = (map token texts
           ++ [match parse_and_score jsonText with
               | Some report => final report
               | None => error "Invalid JSON structure from model."
               end],
           returned st')
  | None =>
      exists texts st',
        on_chunk st text = (map token texts, continue st')
        /\ fullText st' = acc /\ finalSent st' = false
  end.
Proof.
  intros Hf Hne acc. unfold on_chunk, envelope.
  destruct (String.eqb_spec text ""); [contradiction |].
  rewrite Hf. cbn [negb andb]. fold acc.
  set (sent := if negb (jsonStarted st) then _ else _).
  assert (Hsent : exists texts j, sent = (map token texts, j)).
  { unfold sent. destruct (negb (jsonStarted st)); [| now exists [], (jsonStarted st)].
    destruct (indexOf acc FINAL_JSON_open =? -1); [now exists [text], (jsonStarted st) |].
    destruct (negb _); [eexists [_], _ | exists [], true]; reflexivity. }
  destruct Hsent as (texts & j & ->).
  destruct (_ && _ && _).
  - destruct (parse_and_score _); exists texts; eexists; reflexivity.
  - exists texts. eexists. split; [reflexivity |]. now split.
Qed.

Lemma append_empty_r (s : string) : (s ++ "")%string = s.
Proof. induction s as [| c s IH]; simpl; [reflexivity | now rewrite IH]. Qed.

Lemma consume_verdict (chunks : list string) (e : ending) (st : state) :
  finalSent st = false -> envelope (fullText st) = None ->
  exists texts,
    consume st chunks e
    = map token texts ++ [verdict (fullText st ++ all_text chunks) e].
Proof.
  revert st. induction chunks as [| text rest IH]; intros st Hf Hnone.
  - exists []. simpl. rewrite Hf, append_empty_r. unfold verdict. rewrite Hnone.
    now destruct e as [| [m |]].
  - cbn [consume all_text fold_right]. fold (all_text rest).
    destruct (String.eqb_spec text "") as [-> | Hne].
    + rewrite on_chunk_empty. simpl. now apply IH.
    + pose proof (on_chunk_verdict st text Hf Hne) as H. cbv zeta in H.
      rewrite <- append_assoc.
      destruct (envelope (fullText st ++ text)) as [jsonText |] eqn:Henv.
      * destruct H as (texts & st' & ->). exists texts. unfold verdict.
        now rewrite (envelope_app _ (all_text rest) _ Henv).
      * destruct H as (texts & st' & -> & Hacc & Hf').
        destruct (IH st' Hf') as (more & ->); [now rewrite Hacc |].
        exists (texts ++ more). rewrite Hacc, map_app, <- app_assoc. reflexivity.
Qed.

(** Once the envelope is complete nothing that follows is read. *)
Lemma consume_complete (chunks more : list string) (e e' : ending) (st : state) :
  finalSent st = false ->
  envelope (fullText st) = None ->
  envelope (fullText st ++ all_text chunks) <> None ->
  consume st (chunks ++ more) e' = consume st chunks e.
Proof.
  revert st. induction chunks as [| text rest IH]; intros st Hf Hnone Hsome.
  - simpl in Hsome. rewrite append_empty_r in Hsome. contradiction.
  - cbn [consume all_text fold_right app] in *. fold (all_text rest) in Hsome.
    destruct (String.eqb_spec text "") as [-> | Hne].
    + rewrite on_chunk_empty. simpl. now apply IH.
    + pose proof (on_chunk_verdict st text Hf Hne) as H. cbv zeta in H.
      rewrite <- append_assoc in Hsome.
      destruct (envelope (fullText st ++ text)) as [jsonText |] eqn:Henv.
      * destruct H as (texts & st' & ->). reflexivity.
      * destruct H as (texts & st' & -> & Hacc & Hf').
        f_equal. apply IH; [assumption | now rewrite Hacc | now rewrite Hacc].
Qed.

Lemma consume_skips_empty (chunks : list string) (e : ending) (st : state) :
  consume st (filter nonempty chunks) e = consume st chunks e.
Proof.
  revert st. induction chunks as [| text rest IH]; intros st; [reflexivity |].
  cbn [filter]. unfold nonempty at 1.
  destruct (String.eqb_spec text "") as [-> | Hne]; cbn [negb].
  - cbn [consume]. rewrite on_chunk_empty. simpl. apply IH.
  - cbn [consume]. destruct (on_chunk st text) as [sent [st' | st']];
      [now rewrite IH | reflexivity].
Qed.

End VerdictLemmas.

(** ** Scores in closed form *)

Lemma Qle_bool_false (a b : Q) : Qle_bool a b = false -> (b < a)%Q.
Proof.
  intros H. apply Qnot_le_lt. intros Hle. apply Qle_bool_iff in Hle. congruence.
Qed.

(** [clamp x 0 1] of a finite number is between 0 and 1. *)
Lemma min_max_probability (r : Q) :
  is_probability (Math_min (int 1) (Math_max (int 0) (Fin r))).
Proof.
  unfold Math_max, Math_min, int, leb.
  destruct (Qle_bool (inject_Z 0) r) eqn:H0.
  - destruct (Qle_bool (inject_Z 1) r) eqn:H1.
    + exists (inject_Z 1). split; [split; discriminate | reflexivity].
    + exists r. split; [| reflexivity]. split.
      * now apply Qle_bool_iff in H0.
      * apply Qlt_le_weak. now apply Qle_bool_false in H1.
  - exists (inject_Z 0). split; [split; discriminate | reflexivity].
Qed.

Lemma max_duration (r : Q) : is_duration (Math_max (int 0) (Fin r)).
Proof.
  unfold Math_max, int, leb.
  destruct (Qle_bool (inject_Z 0) r) eqn:H0.
  - exists r. split; [now apply Qle_bool_iff in H0 | reflexivity].
  - exists (inject_Z 0). split; [discriminate | reflexivity].
Qed.

Lemma tracks_add (score : number) (k d : Z) :
  0 <= d <= 100 -> tracks score k -> tracks (add score (int d)) (k + d).
Proof.
  intros Hd [[Hk ->] | [Hk Hh]].
  - rewrite add_int. destruct (Z.le_gt_cases (k + d) (2 ^ 53)).
    + left. split; [lia |]. apply rnd_safe. lia.
    + right. split; [lia |]. apply rnd_huge. lia.
  - right. split; [lia |]. apply add_huge; [assumption |]. right. exists d. split; [lia | reflexivity].
Qed.

Lemma tracks_clamp (score : number) (k : Z) :
  tracks score k ->
  Math_min (int 100) (Math_max (int 0) score) = int (Z.min 100 k).
Proof.
  assert (H53 : 100 < 2 ^ 53) by reflexivity.
  intros [[Hk ->] | [Hk Hh]].
  - rewrite min_max_int. f_equal. lia.
  - rewrite min_max_huge by assumption. f_equal. lia.
Qed.

Lemma status_exclusive (s : JSON) :
  Stream.status_is "down" s = true -> Stream.status_is "degraded" s = false.
Proof.
  unfold Stream.status_is, is_string.
  destruct (prop (Some s) "status") as [[| | | k | |] |]; try discriminate.
  destruct (String.eqb_spec k "down") as [-> |]; [reflexivity | discriminate].
Qed.

Section StreamScoring.
Context {E : Engine}.

(** The severity the streaming route computes from the services: 35 for
    each service that is down and 15 for each degraded one, at most 100. *)
Lemma stream_severity_closed_form (svcs : list JSON) :
  Stream.calculateSeverityFromServices svcs
  = int (Z.min 100 (35 * count_status "down" svcs
                    + 15 * count_status "degraded" svcs)).
Proof.
  unfold Stream.calculateSeverityFromServices, Stream.clamp.
  apply tracks_clamp.
  assert (Hgen : forall score k,
             tracks score k ->
             tracks
               (fold_left
                  (fun score s =>
                     let score :=
                       if Stream.status_is "down" s then add score (int 35) else score in
                     if Stream.status_is "degraded" s then add score (int 15) else score)
                  svcs score)
               (k + 35 * count_status "down" svcs
                + 15 * count_status "degraded" svcs)).
  { induction svcs as [| s svcs IH]; intros score k Hk.
    - unfold count_status. simpl. now replace (k + 0 + 0) with k by lia.
    - cbn [fold_left]. unfold count_status in *. cbn [filter].
      destruct (Stream.status_is "down" s) eqn:Hd.
      + rewrite (status_exclusive s Hd). cbv zeta.
        pose proof (IH _ _ (tracks_add score k 35 ltac:(lia) Hk)) as H.
        cbn [List.length]. rewrite Nat2Z.inj_succ.
        eapply eq_ind; [exact H | lia].
      + cbv zeta. destruct (Stream.status_is "degraded" s).
        * pose proof (IH _ _ (tracks_add score k 15 ltac:(lia) Hk)) as H.
          cbn [List.length]. rewrite Nat2Z.inj_succ.
          eapply eq_ind; [exact H | lia].
        * apply IH, Hk. }
  specialize (Hgen (int 0) 0). cbn [Z.add] in Hgen. apply Hgen.
  left. split; [| reflexivity]. split; [lia | apply Z.pow_nonneg; lia].
Qed.

Lemma count_status_nonneg (k : string) (svcs : list JSON) : 0 <= count_status k svcs.
Proof. unfold count_status. lia. Qed.

Lemma stream_severity_det_score (svcs : list JSON) :
  is_score (Stream.calculateSeverityFromServices svcs).
Proof.
  rewrite stream_severity_closed_form.
  pose proof (count_status_nonneg "down" svcs).
  pose proof (count_status_nonneg "degraded" svcs).
  integer_value.
Qed.

Lemma stream_blast_radius_score (svcs : list JSON) :
  is_score (Stream.calculateBlastRadius svcs).
Proof.
  unfold Stream.calculateBlastRadius.
  destruct (List.length svcs) as [| n] eqn:Hl.
  - exists 0. now split.
  - apply min_max_round_score, nonneg_not_NaN.
    apply mul_nonneg_pos; [| reflexivity].
    apply div_nonneg_pos; [| apply of_nat_pos; lia].
    apply add_nonneg; [apply natural_nonneg, of_nat_natural |].
    rewrite lit_half. apply mul_nonneg_pos; [| reflexivity].
    apply natural_nonneg, of_nat_natural.
Qed.

Lemma stream_severity_score (o : list (string * JSON)) :
  is_score (stream_severity o).
Proof.
  unfold stream_severity, Stream.clamp.
  rewrite min_max_score; apply Math_max_score;
    auto using safeInt_score, stream_severity_det_score.
Qed.

Lemma stream_impact_score (o : list (string * JSON)) :
  is_score (stream_impact o).
Proof.
  unfold stream_impact, Stream.clamp. apply blend_score.
  - apply safeInt_score.
  - rewrite stream_impact_closed_form.
    integer_value.
  - apply stream_blast_radius_score.
Qed.

Lemma safeProb_probability (v : value) : is_probability (Stream.safeProb v).
Proof.
  unfold Stream.safeProb, Stream.clamp.
  destruct (Number v) as [| | | r]; cbn [Number_isFinite];
    try (exists 0%Q; split; [split; discriminate | reflexivity]).
  apply min_max_probability.
Qed.

Lemma toProb01_probability (v : value) :
  is_probability (Analyze.toProb01 v (int 0)).
Proof. rewrite <- safeProb_toProb01. apply safeProb_probability. Qed.

(** The severity the synchronous route computes from the services. *)
Lemma sync_severity_closed_form (l : list Analyze.Service.t) :
  let d := count_services Analyze.down l in
  let g := count_services Analyze.degraded l in
  Analyze.calculateSeverityFromServices l
  = int (Z.min 100 ((if 2 <=? d then 70 else if d =? 1 then 45 else 0) + 10 * g)).
Proof.
  intros d g. unfold Analyze.calculateSeverityFromServices, Analyze.clamp, of_nat.
  fold (count_services Analyze.degraded l). fold g.
  set (n := List.length (filter (Analyze.has_status Analyze.down) l)).
  assert (Hd : d = Z.of_nat n) by reflexivity.
  assert (Hg : 0 <= g) by (unfold g, count_services; lia).
  rewrite mul_int.
  destruct (Nat.leb_spec 2 n).
  - destruct (Z.leb_spec 2 d); [| lia].
    rewrite add_int. change (0 + 70) with 70.
    rewrite min_max_add_rnd by lia. f_equal. lia.
  - destruct (Z.leb_spec 2 d); [lia |].
    destruct (Nat.eqb_spec n 1).
    + destruct (Z.eqb_spec d 1); [| lia].
      rewrite add_int. change (0 + 45) with 45.
      rewrite min_max_add_rnd by lia. f_equal. lia.
    + destruct (Z.eqb_spec d 1); [lia |].
      assert (Hz : int 0 = rnd (inject_Z 0)) by reflexivity.
      rewrite Hz at 2.
      rewrite min_max_add_rnd by lia. f_equal. lia.
Qed.

End StreamScoring.

(** ** Trimmed strings *)

Lemma trimStart_head (s : string) :
  match trimStart s with
  | String c _ => is_whitespace c = false
  | EmptyString => True
  end.
Proof.
  induction s as [| c s IH]; simpl; [exact I |].
  destruct (is_whitespace c) eqn:Hc; [exact IH | exact Hc].
Qed.

Lemma trimStart_fixed (c : ascii) (s : string) :
  is_whitespace c = false -> trimStart (String c s) = String c s.
Proof. intros H. simpl. now rewrite H. Qed.

(** [trimEnd] keeps the first character of what it does not empty. *)
Lemma trimEnd_head (c : ascii) (s : string) :
  trimEnd (String c s) = EmptyString
  \/ exists t, trimEnd (String c s) = String c t.
Proof.
  simpl. destruct (trimEnd s); [destruct (is_whitespace c) |]; eauto.
Qed.

Lemma trimEnd_idempotent (s : string) : trimEnd (trimEnd s) = trimEnd s.
Proof.
  induction s as [| c s IH]; [reflexivity |].
  simpl. destruct (trimEnd s) as [| d t] eqn:Ht.
  - destruct (is_whitespace c) eqn:Hc; [reflexivity |]. simpl. now rewrite Hc.
  - change (trimEnd (String c (String d t))) with
      (match trimEnd (String d t) with
       | EmptyString => if is_whitespace c then EmptyString else String c EmptyString
       | String a b => String c (String a b)
       end).
    now rewrite IH.
Qed.

Lemma trimStart_trim (s : string) : trimStart (trim s) = trim s.
Proof.
  unfold trim. pose proof (trimStart_head s) as H.
  destruct (trimStart s) as [| c t]; [reflexivity |].
  destruct (trimEnd_head c t) as [-> | (u & ->)]; [reflexivity |].
  now apply trimStart_fixed.
Qed.

(** Trimming twice is trimming once. *)
Lemma trim_idempotent (s : string) : trim (trim s) = trim s.
Proof.
  unfold trim at 1. rewrite trimStart_trim. unfold trim. apply trimEnd_idempotent.
Qed.

Lemma trimmed_trim (s : string) : nonempty (trim s) = true -> trimmed (trim s) = true.
Proof.
  intros H. unfold trimmed. rewrite H, trim_idempotent. apply String.eqb_refl.
Qed.

Lemma trimmed_spec (s : string) : trimmed s = true <-> s <> "" /\ trim s = s.
Proof.
  unfold trimmed, nonempty. rewrite andb_true_iff, negb_true_iff. split.
  - intros [H1 H2]. split.
    + intros ->. discriminate.
    + now apply String.eqb_eq.
  - intros [H1 H2]. split.
    + now apply String.eqb_neq.
    + now apply String.eqb_eq.
Qed.

(** ** Lists *)

Lemma In_firstn {A : Type} (n : nat) (l : list A) (x : A) :
  In x (firstn n l) -> In x l.
Proof.
  revert n. induction l as [| y l IH]; intros [| n] H; simpl in *; try contradiction.
  destruct H as [-> | H]; [now left | right; eapply IH, H].
Qed.

Lemma Forall_firstn {A : Type} (P : A -> Prop) (n : nat) (l : list A) :
  Forall P l -> Forall P (firstn n l).
Proof.
  intros H. apply Forall_forall. intros x Hx.
  apply (proj1 (Forall_forall P l) H). eapply In_firstn, Hx.
Qed.

Lemma Forall_filter {A : Type} (f : A -> bool) (l : list A) :
  Forall (fun x => f x = true) (filter f l).
Proof.
  apply Forall_forall. intros x Hx. now apply filter_In in Hx.
Qed.

Lemma Forall_filter_keeps {A : Type} (P : A -> Prop) (f : A -> bool) (l : list A) :
  Forall P l -> Forall P (filter f l).
Proof.
  intros H. apply Forall_forall. intros x Hx. apply filter_In in Hx.
  apply (proj1 (Forall_forall P l) H), Hx.
Qed.

Lemma NoDup_firstn_map {A B : Type} (f : A -> B) (n : nat) (l : list A) :
  NoDup (map f l) -> NoDup (map f (firstn n l)).
Proof.
  revert n. induction l as [| x l IH]; intros [| n] H; simpl; try constructor.
  - inversion H as [| ? ? Hx Hl]; subst. intros Hin. apply Hx.
    apply in_map_iff in Hin. destruct Hin as (y & Hy & Hin).
    apply in_map_iff. exists y. split; [exact Hy | eapply In_firstn, Hin].
  - inversion H; subst. now apply IH.
Qed.

Lemma filter_unseen_In {A : Type} (key : A -> string) (seen : list string)
  (l : list A) (x : A) :
  In x (Analyze.filter_unseen key seen l) -> In x l.
Proof.
  revert seen. induction l as [| y l IH]; intros seen H; [contradiction |].
  simpl in H. destruct (existsb _ seen).
  - right. eapply IH, H.
  - destruct H as [-> | H]; [now left | right; eapply IH, H].
Qed.

Lemma filter_unseen_length {A : Type} (key : A -> string) (seen : list string)
  (l : list A) :
  (List.length (Analyze.filter_unseen key seen l) <= List.length l)%nat.
Proof.
  revert seen. induction l as [| y l IH]; intros seen; simpl; [lia |].
  destruct (existsb _ seen); [specialize (IH seen) | specialize (IH (key y :: seen))];
    simpl; lia.
Qed.

Section Lists.
Context {E : Engine}.
Import Analyze.

(** ** [toStringArray] *)

Lemma toStringArray_entries (v : value) (limit : nat) :
  (List.length (toStringArray v limit) <= limit)%nat
  /\ Forall (fun s => trimmed s = true) (toStringArray v limit).
Proof.
  unfold toStringArray. destruct (Array_isArray v).
  - split; [apply firstn_le_length |].
    apply Forall_firstn, Forall_forall. intros s Hs.
    apply filter_In in Hs. destruct Hs as [Hin Hne].
    apply in_map_iff in Hin. destruct Hin as (x & <- & _).
    now apply trimmed_trim.
  - split; [simpl; lia | constructor].
Qed.

Lemma toStringArray_not_array (v : value) (limit : nat) :
  Array_isArray v = false -> toStringArray v limit = [].
Proof. intros H. unfold toStringArray. now rewrite H. Qed.

End Lists.

(** ** The grid of binary64 *)

Lemma pow2_Qpower (e : Z) : (pow2 e == 2 ^ e)%Q.
Proof.
  unfold pow2. destruct (Z.leb_spec 0 e) as [He | He].
  - now rewrite Zpower_Qpower.
  - replace e with (- - e) at 2 by lia.
    rewrite Qpower_opp. change (2 ^ (- e))%Q with (inject_Z 2 ^ (- e))%Q.
    rewrite <- (Zpower_Qpower 2 (- e)) by lia.
    assert (Hp : 0 < 2 ^ (- e)) by (apply Z.pow_pos_nonneg; lia).
    destruct (2 ^ (- e)) as [| p | p]; try lia. reflexivity.
Qed.

Lemma pow2_add (a b : Z) : (pow2 (a + b) == pow2 a * pow2 b)%Q.
Proof.
  rewrite !pow2_Qpower. apply Qpower_plus. discriminate.
Qed.

Lemma pow2_le (a b : Z) : a <= b -> (pow2 a <= pow2 b)%Q.
Proof.
  intros H. rewrite !pow2_Qpower. apply Qpower_le_compat_l; [assumption | discriminate].
Qed.

(** [ilog2] does not overestimate. *)
Lemma pow2_ilog2 (q : Q) : (0 < q)%Q -> (pow2 (ilog2 q) <= q)%Q.
Proof.
  intros Hq. unfold ilog2.
  set (g := Z.log2 (Qnum q) - Z.log2 (Z.pos (Qden q))).
  destruct (Qle_bool (pow2 g) q) eqn:Hg; [now apply Qle_bool_iff |].
  destruct q as [n d]. simpl Qnum in *. simpl Qden in *.
  assert (Hn : 0 < n) by (unfold Qlt in Hq; simpl in Hq; lia).
  set (a := Z.log2 n) in *. set (b := Z.log2 (Z.pos d)) in *.
  assert (Ha : 0 <= a) by apply Z.log2_nonneg.
  assert (Hb : 0 <= b) by apply Z.log2_nonneg.
  replace (g - 1) with (a + - (b + 1)) by (unfold g; lia).
  rewrite pow2_add, (pow2_nonneg a Ha), (pow2_Qpower (- (b + 1))), Qpower_opp.
  change (2 ^ (b + 1))%Q with (inject_Z 2 ^ (b + 1))%Q.
  rewrite <- Zpower_Qpower by lia.
  destruct (Z.log2_spec n Hn) as [Hlo _]. fold a in Hlo.
  destruct (Z.log2_spec (Z.pos d) eq_refl) as [_ Hhi]. fold b in Hhi.
  replace (Z.succ b) with (b + 1) in Hhi by lia.
  assert (Hp : 0 < 2 ^ (b + 1)) by (apply Z.pow_pos_nonneg; lia).
  destruct (2 ^ (b + 1)) as [| p | p] eqn:Hpw; try lia.
  change (/ inject_Z (Z.pos p))%Q with (1 # p)%Q.
  unfold Qle, Qmult, inject_Z. simpl Qnum. simpl Qden.
  rewrite Z.mul_1_r. change (Z.pos (1 * p)) with (Z.pos p).
  nia.
Qed.

Lemma grid_scaled (m e : Z) : -1074 <= e -> on_grid (inject_Z m * pow2 e).
Proof.
  intros He. exists (m * 2 ^ (e + 1074)).
  replace e with ((e + 1074) + -1074) at 1 by lia.
  rewrite pow2_add, (pow2_nonneg (e + 1074)) by lia.
  rewrite inject_Z_mult. ring.
Qed.

Lemma grid_int (z : Z) : on_grid (inject_Z z).
Proof.
  destruct (grid_scaled z 0) as (k & Hk); [lia |]. exists k.
  rewrite <- Hk. change (pow2 0) with 1%Q. ring.
Qed.

Lemma grid_opp (q : Q) : on_grid q -> on_grid (- q).
Proof.
  intros (k & Hk). exists (- k). rewrite Hk, inject_Z_opp. ring.
Qed.

Lemma grid_proper (p q : Q) : (p == q)%Q -> on_grid p -> on_grid q.
Proof. intros H (k & Hk). exists k. now rewrite <- H. Qed.

Lemma round_magnitude_grid (q r : Q) :
  round_magnitude q = Fin r -> on_grid r.
Proof.
  unfold round_magnitude.
  set (e := Z.max (ilog2 q - 52) (-1074)).
  destruct (Qle_bool _ _); [discriminate |]. intros H.
  assert (Hr : Qred (inject_Z (round_half_even (q / pow2 e)) * pow2 e) = r)
    by congruence.
  apply (grid_proper (inject_Z (round_half_even (q / pow2 e)) * pow2 e)).
  - rewrite <- Hr. symmetry. apply Qred_correct.
  - apply grid_scaled. unfold e. lia.
Qed.

(** A finite binary64 number is on the grid. *)
Lemma binary64_grid (q : Q) : binary64 (Fin q) = true -> on_grid q.
Proof.
  unfold binary64, rnd.
  destruct (is_safe_integer (Qred q)) eqn:Hs.
  - intros _. apply (grid_proper (Qred q)); [apply Qred_correct |].
    unfold is_safe_integer in Hs. apply andb_true_iff in Hs. destruct Hs as [Hd _].
    apply Pos.eqb_eq in Hd. destruct (Qred q) as [n d]. simpl in Hd. subst d.
    apply grid_int.
  - destruct (Qnum (Qred q)) eqn:Hn.
    + intros H. apply Qeq_bool_iff in H. apply (grid_proper 0); [exact H |].
      apply (grid_int 0).
    + destruct (round_magnitude (Qred q)) as [| | | r] eqn:Hr; try discriminate.
      intros H. apply Qeq_bool_iff in H. apply (grid_proper r); [exact H |].
      eapply round_magnitude_grid, Hr.
    + destruct (round_magnitude (- Qred q)) as [| | | r] eqn:Hr; try discriminate.
      cbn [neg]. intros H. apply Qeq_bool_iff in H.
      apply (grid_proper (- r)); [exact H |].
      apply grid_opp. eapply round_magnitude_grid, Hr.
Qed.

(** ** The sign that rounding keeps *)

Lemma positive_Fin (q : Q) : Analyze.positive (Fin q) = true <-> (0 < q)%Q.
Proof.
  unfold Analyze.positive, ltb, leb, int. rewrite negb_true_iff. split.
  - apply Qle_bool_false.
  - intros H. destruct (Qle_bool q (inject_Z 0)) eqn:Hq; [| reflexivity].
    apply Qle_bool_iff in Hq. exfalso. apply (Qlt_not_le _ _ H Hq).
Qed.

Lemma round_magnitude_positive (q : Q) :
  (pow2 (-1074) <= q)%Q -> Analyze.positive (round_magnitude q) = true.
Proof.
  intros Hu. unfold round_magnitude.
  assert (Hq : (0 < q)%Q) by (eapply Qlt_le_trans; [apply pow2_pos | exact Hu]).
  set (e := Z.max (ilog2 q - 52) (-1074)).
  assert (He : (pow2 e <= q)%Q).
  { unfold e. destruct (Z.max_spec (ilog2 q - 52) (-1074)) as [[_ ->] | [_ ->]];
      [exact Hu |].
    eapply Qle_trans; [| apply (pow2_ilog2 q Hq)]. apply pow2_le. lia. }
  destruct (Qle_bool _ _); [reflexivity |].
  apply positive_Fin. rewrite Qred_correct.
  assert (Hm : 1 <= round_half_even (q / pow2 e)).
  { pose proof (round_half_even_bounds (q / pow2 e)) as Hb.
    assert (1 <= Qfloor (q / pow2 e)); [| lia].
    change 1 with (Qfloor 1). apply Qfloor_resp_le.
    apply Qle_shift_div_l; [apply pow2_pos | now rewrite Qmult_1_l]. }
  apply Qmult_lt_0_compat; [| apply pow2_pos].
  unfold Qlt, inject_Z. simpl. lia.
Qed.

(** What is at least the least positive binary64 number rounds to a
    positive number. *)
Lemma rnd_positive (q : Q) :
  (pow2 (-1074) <= q)%Q -> Analyze.positive (rnd q) = true.
Proof.
  intros Hu. unfold rnd.
  assert (Hu' : (pow2 (-1074) <= Qred q)%Q) by now rewrite Qred_correct.
  assert (Hq : (0 < Qred q)%Q) by (eapply Qlt_le_trans; [apply pow2_pos | exact Hu']).
  destruct (is_safe_integer (Qred q)); [now apply positive_Fin |].
  destruct (Qnum (Qred q)) eqn:Hn.
  - exfalso. unfold Qlt in Hq. simpl in Hq. rewrite Hn in Hq. lia.
  - now apply round_magnitude_positive.
  - exfalso. unfold Qlt in Hq. simpl in Hq. rewrite Hn in Hq. lia.
Qed.

(** What is not positive does not round to a positive number. *)
Lemma rnd_not_positive (q : Q) : (q <= 0)%Q -> Analyze.positive (rnd q) = false.
Proof.
  intros Hq. unfold rnd.
  assert (Hq' : (Qred q <= 0)%Q) by now rewrite Qred_correct.
  assert (Hfin : forall r, (r <= 0)%Q -> Analyze.positive (Fin r) = false).
  { intros r Hr. destruct (Analyze.positive (Fin r)) eqn:Hp; [| reflexivity].
    apply positive_Fin in Hp. exfalso. apply (Qlt_not_le _ _ Hp Hr). }
  destruct (is_safe_integer (Qred q)); [now apply Hfin |].
  destruct (Qnum (Qred q)) eqn:Hn.
  - reflexivity.
  - exfalso. unfold Qle in Hq'. simpl in Hq'. rewrite Hn in Hq'. lia.
  - assert (Hpos : (0 <= - Qred q)%Q).
    { setoid_replace 0%Q with (- 0)%Q by reflexivity. now apply Qopp_le_compat. }
    pose proof (round_magnitude_nonneg (- Qred q) Hpos) as Hm.
    destruct (round_magnitude (- Qred q)) as [| | | r]; cbn [neg];
      try contradiction; [reflexivity |].
    apply Hfin. simpl in Hm.
    setoid_replace 0%Q with (- 0)%Q by reflexivity. now apply Qopp_le_compat.
Qed.

(** On binary64 numbers the comparator [b - a] is positive exactly when
    [a < b]. *)
Lemma positive_sub (a b : Q) :
  binary64 (Fin a) = true -> binary64 (Fin b) = true ->
  Analyze.positive (sub (Fin b) (Fin a)) = negb (Qle_bool b a).
Proof.
  intros Ha Hb. unfold sub, neg, add.
  destruct (Qle_bool b a) eqn:Hle; cbn [negb].
  - apply rnd_not_positive. apply Qle_bool_iff in Hle.
    apply (Qplus_le_l _ _ a). ring_simplify. exact Hle.
  - apply Qle_bool_false in Hle. apply rnd_positive.
    destruct (binary64_grid a Ha) as (ka & Hka).
    destruct (binary64_grid b Hb) as (kb & Hkb).
    assert (Hk : ka < kb).
    { rewrite Hka, Hkb in Hle.
      apply Qmult_lt_r in Hle; [| apply pow2_pos].
      now rewrite <- Zlt_Qlt in Hle. }
    rewrite Hka, Hkb.
    setoid_replace (inject_Z kb * pow2 (-1074) + - (inject_Z ka * pow2 (-1074)))%Q
      with (inject_Z (kb - ka) * pow2 (-1074))%Q
      by (unfold Z.sub; rewrite inject_Z_plus, inject_Z_opp; ring).
    rewrite <- (Qmult_1_l (pow2 (-1074))) at 1.
    apply Qmult_le_compat_r; [| apply Qlt_le_weak, pow2_pos].
    change 1%Q with (inject_Z 1). rewrite <- Zle_Qle. lia.
Qed.

(** ** The sort by a difference *)

Section SortByDifference.
Context {A : Type} (p : A -> number).

Lemma positive_cmp (x y : A) :
  measured p x -> measured p y ->
  Analyze.positive (by_difference p x y) = negb (leb (p y) (p x)).
Proof.
  intros (a & Ha & Ha64) (b & Hb & Hb64). unfold by_difference. rewrite Ha, Hb.
  now apply positive_sub.
Qed.

Lemma not_below_total (x y : A) :
  measured p x -> measured p y -> leb (p y) (p x) = false -> not_below p y x.
Proof.
  intros (a & Ha & _) (b & Hb & _). unfold not_below. rewrite Ha, Hb. simpl.
  intros H. apply Qle_bool_false in H. apply Qle_bool_iff. now apply Qlt_le_weak.
Qed.

Lemma not_below_trans (x y z : A) :
  measured p x -> measured p y -> measured p z ->
  not_below p x y -> not_below p y z -> not_below p x z.
Proof.
  intros (a & Ha & _) (b & Hb & _) (c & Hc & _). unfold not_below.
  rewrite Ha, Hb, Hc. simpl. rewrite !Qle_bool_iff. intros H1 H2.
  eapply Qle_trans; eassumption.
Qed.

Lemma insert_sorted_perm (f : A -> A -> number) (x : A) (l : list A) :
  Permutation (Analyze.insert_sorted f x l) (x :: l).
Proof.
  induction l as [| y l IH]; simpl; [reflexivity |].
  destruct (Analyze.positive (f x y)); [| reflexivity].
  rewrite IH. apply perm_swap.
Qed.

Lemma sort_perm (f : A -> A -> number) (l : list A) :
  Permutation (Analyze.sort f l) l.
Proof.
  induction l as [| x l IH]; simpl; [reflexivity |].
  unfold Analyze.sort in *. simpl. rewrite insert_sorted_perm. now constructor.
Qed.

Lemma insert_sorted_sorted (x : A) (l : list A) :
  measured p x -> Forall (measured p) l ->
  StronglySorted (not_below p) l ->
  StronglySorted (not_below p) (Analyze.insert_sorted (by_difference p) x l).
Proof.
  intros Hx Hl Hs. induction Hs as [| y l Hs IH Hy]; simpl.
  - repeat constructor.
  - inversion Hl as [| ? ? Hmy Hml]; subst.
    rewrite (positive_cmp x y Hx Hmy).
    destruct (leb (p y) (p x)) eqn:Hle; cbn [negb].
    + constructor; [now constructor |].
      constructor; [exact Hle |].
      apply Forall_forall. intros z Hz.
      apply (not_below_trans x y z); try assumption.
      * apply (proj1 (Forall_forall _ _) Hml), Hz.
      * apply (proj1 (Forall_forall _ _) Hy), Hz.
    + constructor; [now apply IH |].
      apply Forall_forall. intros z Hz.
      apply (Permutation_in _ (insert_sorted_perm (by_difference p) x l)) in Hz.
      destruct Hz as [<- | Hz].
      * now apply not_below_total.
      * apply (proj1 (Forall_forall _ _) Hy), Hz.
Qed.

(** On finite binary64 values the sort puts the greatest first. *)
Lemma sort_sorted (l : list A) :
  Forall (measured p) l -> StronglySorted (not_below p) (Analyze.sort (by_difference p) l).
Proof.
  induction l as [| x l IH]; intros H; [constructor |].
  inversion H as [| ? ? Hx Hl]; subst.
  unfold Analyze.sort in *. simpl. apply insert_sorted_sorted; [assumption | | now apply IH].
  apply Forall_forall. intros z Hz.
  apply (Permutation_in _ (sort_perm (by_difference p) l)) in Hz.
  apply (proj1 (Forall_forall _ _) Hl), Hz.
Qed.

Lemma StronglySorted_firstn (R : A -> A -> Prop) (n : nat) (l : list A) :
  StronglySorted R l -> StronglySorted R (firstn n l).
Proof.
  intros H. revert n. induction H as [| x l Hs IH Hx]; intros [| n]; simpl;
    try constructor.
  - apply IH.
  - now apply Forall_firstn.
Qed.

End SortByDifference.

Section Causes.
Context {E : Engine}.
Import Analyze.

(** The causes read from the input, before they are ordered (lines
    309-319). *)
Lemma normalize_causes_unfold (parsed : value) :
  exists read,
    normalize_causes parsed
    = firstn 5 (sort (fun a b => sub (Cause.probability b) (Cause.probability a)) read)
    /\ Forall (fun c => trim (Cause.name c) <> ""
                        /\ is_probability (Cause.probability c)) read
    /\ (forallb (fun c => binary64 (toProb01 (prop (Some c) "probability") (int 0)))
          (array_or_empty (prop parsed "probable_causes")) = true ->
        Forall (measured Cause.probability) read).
Proof.
  eexists. split; [reflexivity |]. split.
  - apply Forall_forall. intros c Hc. apply filter_In in Hc. destruct Hc as [Hin Hname].
    split.
    + intros Hblank. rewrite Hblank in Hname. discriminate.
    + apply in_map_iff in Hin. destruct Hin as (x & <- & _). cbn [Cause.probability].
      apply toProb01_probability.
  - intros H64. apply Forall_forall. intros c Hc. apply filter_In in Hc.
    destruct Hc as [Hin _]. apply in_map_iff in Hin. destruct Hin as (x & <- & Hx).
    cbn [Cause.probability].
    destruct (toProb01_probability (prop (Some x) "probability")) as (q & _ & Hq).
    exists q. split; [exact Hq |]. rewrite <- Hq.
    apply (proj1 (forallb_forall _ _) H64 x Hx).
Qed.

End Causes.

Lemma nonempty_spec (s : string) : nonempty s = true <-> s <> "".
Proof.
  unfold nonempty. rewrite negb_true_iff. apply String.eqb_neq.
Qed.

Section Graph.
Context {E : Engine}.
Import Analyze.

(** ** The propagation graph *)

Lemma supplied_propagation_shape (parsed : value) (p : Propagation.t) :
  supplied_propagation parsed = Some p ->
  (2 <= List.length (Propagation.nodes p) <= 30)%nat
  /\ (List.length (Propagation.edges p) <= 60)%nat
  /\ NoDup (map Node.id (Propagation.nodes p))
  /\ Forall (fun n => Node.id n <> "" /\ Node.label n <> "") (Propagation.nodes p)
  /\ Forall (fun e => Edge.from e <> "" /\ Edge.to e <> "" /\ Edge.label e <> "")
            (Propagation.edges p).
Proof.
  unfold supplied_propagation.
  destruct (_ && _ && _ && _); [| discriminate].
  match goal with
  | |- (if (2 <=? List.length ?n)%nat then Some {| Propagation.nodes := _;
                                                   Propagation.edges := ?e |}
        else None) = _ -> _ => set (nodes := n); set (edges := e)
  end.
  destruct (Nat.leb_spec 2 (List.length nodes)) as [H2 |]; [| discriminate].
  intros H. injection H as <-. cbn [Propagation.nodes Propagation.edges].
  split; [split; [exact H2 | apply firstn_le_length] |].
  split; [apply firstn_le_length |].
  split; [apply NoDup_firstn_map, filter_unseen_NoDup |].
  split.
  - apply Forall_firstn, Forall_forall. intros n Hn.
    apply filter_unseen_In, filter_In in Hn. destruct Hn as [_ Hn].
    apply andb_true_iff in Hn. now rewrite !nonempty_spec in Hn.
  - apply Forall_firstn, Forall_forall. intros e He.
    apply filter_In in He. destruct He as [Hin He].
    apply andb_true_iff in He. rewrite !nonempty_spec in He.
    destruct He as [Hf Ht]. split; [exact Hf |]. split; [exact Ht |].
    apply in_map_iff in Hin. destruct Hin as (x & <- & _). cbn [Edge.label].
    now apply or_else_nonempty.
Qed.

Lemma fallback_entries (incidentType : string) :
  Forall (fun s => Service.name s <> ""
                   /\ (List.length (Service.signals s) <= 12)%nat
                   /\ (List.length (Service.suspected_components s) <= 12)%nat
                   /\ Forall (fun x => trimmed x = true) (Service.signals s)
                   /\ Forall (fun x => trimmed x = true)
                             (Service.suspected_components s))
         (buildFallbackServices incidentType).
Proof.
  unfold buildFallbackServices. destruct (_ || _ || _);
    repeat constructor; simpl; try discriminate; lia.
Qed.

(** What holds of every service of a report. *)
Lemma normalize_services_entries (parsed : value) (it : string) :
  Forall (fun s => Service.name s <> ""
                   /\ (List.length (Service.signals s) <= 12)%nat
                   /\ (List.length (Service.suspected_components s) <= 12)%nat
                   /\ Forall (fun x => trimmed x = true) (Service.signals s)
                   /\ Forall (fun x => trimmed x = true)
                             (Service.suspected_components s))
         (normalize_services parsed it).
Proof.
  apply Forall_forall. intros s Hs. unfold normalize_services in Hs.
  apply filter_unseen_In in Hs. unfold services_or_fallback in Hs.
  destruct (_ <? _)%nat.
  - apply (proj1 (Forall_forall _ _) (fallback_entries it) s Hs).
  - unfold supplied_services in Hs. apply filter_In in Hs. destruct Hs as [Hin _].
    apply in_map_iff in Hin. destruct Hin as (x & <- & _).
    cbn [Service.name Service.signals Service.suspected_components].
    split; [now apply or_else_nonempty |].
    destruct (toStringArray_entries (prop (Some x) "signals") 12) as [H1 H2].
    destruct (toStringArray_entries (prop (Some x) "suspected_components") 12)
      as [H3 H4].
    auto.
Qed.

Lemma built_propagation_shape (l : list Service.t) :
  let p := buildPropagationFromServices l in
  map Node.id (Propagation.nodes p) = map Service.name l
  /\ map Node.label (Propagation.nodes p) = map Service.name l
  /\ List.length (Propagation.edges p) = (if (3 <=? List.length l)%nat then 2 else 0)%nat
  /\ Forall (fun e => In (Edge.from e) (map Service.name l)
                      /\ In (Edge.to e) (map Service.name l)
                      /\ Edge.label e <> "")
            (Propagation.edges p).
Proof.
  unfold buildPropagationFromServices. cbn [Propagation.nodes Propagation.edges].
  rewrite !map_map. cbn [Node.id Node.label].
  split; [reflexivity |]. split; [reflexivity |].
  destruct l as [| s0 [| s1 [| s2 l]]]; cbn [List.length Nat.leb map];
    (split; [reflexivity |]); repeat constructor; cbn [Edge.from Edge.to Edge.label In];
    auto; discriminate.
Qed.

End Graph.

(** ** The streaming route *)

Lemma last_snoc {A : Type} (l : list A) (x d : A) : last (l ++ [x]) d = x.
Proof.
  induction l as [| y l IH]; [reflexivity |].
  simpl. destruct (l ++ [x]) eqn:Hl; [now destruct l | exact IH].
Qed.





(** X3.  Empty fragments are skipped: a stream and the stream of its
    non-empty fragments send the same events. *)
Theorem empty_fragments_are_skipped (E : Engine) (chunks : list string)
  (e : Stream.ending) :
  Stream.start (filter nonempty chunks) e = Stream.start chunks e.
Proof. apply consume_skips_empty. Qed.

Lemma hybrid_none (E : Engine) (v : JSON) :
  Stream.hybrid v = None <-> primitive v = true.
Proof.
  destruct v as [| b | n | s | items | o];
    try (split; reflexivity); split; discriminate.
Qed.




(** X6.  The severity computed from the services, in closed form.  The
    streaming route adds 35 for every service that is down and 15 for every
    degraded one, up to 100; the synchronous route starts from 70 when two
    or more services are down, from 45 when one is, from 0 otherwise, and
    adds 10 for every degraded service, up to 100. *)
Theorem severity_from_services (E : Engine) :
  (forall svcs : list JSON,
     Stream.calculateSeverityFromServices svcs
     = int (Z.min 100 (35 * count_status "down" svcs
                       + 15 * count_status "degraded" svcs)))
  /\ (forall l : list Analyze.Service.t,
        let d := count_services Analyze.down l in
        let g := count_services Analyze.degraded l in
        Analyze.calculateSeverityFromServices l
        = int (Z.min 100 ((if 2 <=? d then 70 else if d =? 1 then 45 else 0)
                          + 10 * g))).
Proof.
  split; [apply stream_severity_closed_form | apply sync_severity_closed_form].
Qed.

(** ** The synchronous route *)


(** X8.  The probable causes of the report are at most five, none has a
    blank name, and every probability is between 0 and 1.  They are the
    first five of the causes read from the input put in order, and when the
    probabilities read are binary64 numbers, as the numbers of an engine
    are, the order is by descending probability: no cause stands before one
    that is more probable. *)
Theorem probable_causes_are_ranked (E : Engine) (parsed : value) :
  let causes := Analyze.probable_causes (Analyze.safeResponse parsed) in
  (List.length causes <= 5)%nat
  /\ Forall (fun c => trim (Analyze.Cause.name c) <> ""
                      /\ is_probability (Analyze.Cause.probability c)) causes
  /\ (forallb (fun c => binary64 (Analyze.toProb01 (prop (Some c) "probability")
                                                   (int 0)))
        (array_or_empty (prop parsed "probable_causes")) = true ->
      StronglySorted (not_below Analyze.Cause.probability) causes).
Proof.
  intros causes.
  destruct (normalize_causes_unfold parsed) as (read & Heq & Hread & H64).
  assert (Hc : causes
               = firstn 5 (Analyze.sort (by_difference Analyze.Cause.probability) read))
    by exact Heq.
  rewrite Hc. split; [apply firstn_le_length |]. split.
  - apply Forall_firstn, Forall_forall. intros c Hin.
    apply (Permutation_in _ (sort_perm _ read)) in Hin.
    apply (proj1 (Forall_forall _ _) Hread c Hin).
  - intros H. apply StronglySorted_firstn, sort_sorted, H64, H.
Qed.

(** X8 at three causes. *)
Lemma probable_causes_are_ranked_witness :
  StronglySorted (not_below Analyze.Cause.probability)
    (Analyze.probable_causes (@Analyze.safeResponse reference_engine (Some three_causes))).
Proof.
  apply (proj2 (proj2 (probable_causes_are_ranked reference_engine (Some three_causes)))).
  vm_compute. reflexivity.
Defined.



(** X10.  The propagation graph of the report.  Its nodes have distinct
    and non-empty ids and non-empty labels, its edges non-empty ends and
    labels.  A graph taken from the input has between 2 and 30 nodes and
    at most 60 edges; otherwise the graph is built from the services of the
    report: one node per service, named after it, and two edges from the
    first service when there are three services or more, none otherwise,
    each between two nodes of the graph. *)
Theorem propagation_graph_is_well_formed (E : Engine) (parsed : value) :
  let r := Analyze.safeResponse parsed in
  let g := Analyze.propagation r in
  NoDup (map Analyze.Node.id (Analyze.Propagation.nodes g))
  /\ Forall (fun n => Analyze.Node.id n <> "" /\ Analyze.Node.label n <> "")
            (Analyze.Propagation.nodes g)
  /\ Forall (fun e => Analyze.Edge.from e <> "" /\ Analyze.Edge.to e <> ""
                      /\ Analyze.Edge.label e <> "")
            (Analyze.Propagation.edges g)
  /\ (forall p, Analyze.supplied_propagation parsed = Some p ->
        g = p
        /\ (2 <= List.length (Analyze.Propagation.nodes g) <= 30)%nat
        /\ (List.length (Analyze.Propagation.edges g) <= 60)%nat)
  /\ (Analyze.supplied_propagation parsed = None ->
      map Analyze.Node.id (Analyze.Propagation.nodes g)
      = map Analyze.Service.name (Analyze.services r)
      /\ List.length (Analyze.Propagation.edges g)
         = (if (3 <=? List.length (Analyze.services r))%nat then 2 else 0)%nat
      /\ Forall (fun e =>
                   In (Analyze.Edge.from e)
                      (map Analyze.Node.id (Analyze.Propagation.nodes g))
                   /\ In (Analyze.Edge.to e)
                         (map Analyze.Node.id (Analyze.Propagation.nodes g)))
                (Analyze.Propagation.edges g)).
Proof.
  intros r g.
  set (services_ := Analyze.services r).
  assert (Hg : g = match Analyze.supplied_propagation parsed with
                   | Some p => p
                   | None => Analyze.buildPropagationFromServices services_
                   end) by reflexivity.
  assert (Hnames : Forall (fun s => Analyze.Service.name s <> "") services_).
  { eapply Forall_impl; [| apply normalize_services_entries]. intros s Hs. apply Hs. }
  assert (Hnd : NoDup (map Analyze.Service.name services_))
    by apply filter_unseen_NoDup.
  destruct (built_propagation_shape services_) as (Hids & Hlabels & Hlen & Hedges).
  destruct (Analyze.supplied_propagation parsed) as [p |] eqn:Hp.
  - destruct (supplied_propagation_shape parsed p Hp) as (H1 & H2 & H3 & H4 & H5).
    rewrite Hg. split; [exact H3 |]. split; [exact H4 |]. split; [exact H5 |].
    split; [| discriminate]. intros p' Hp'. injection Hp' as <-. auto.
  - rewrite Hg. split; [now rewrite Hids |]. split; [| split; [| split]].
    + apply Forall_forall. intros n Hn.
      assert (Hid : In (Analyze.Node.id n) (map Analyze.Service.name services_))
        by (rewrite <- Hids; now apply in_map).
      assert (Hlb : In (Analyze.Node.label n) (map Analyze.Service.name services_))
        by (rewrite <- Hlabels; now apply in_map).
      apply in_map_iff in Hid. destruct Hid as (s & <- & Hs).
      apply in_map_iff in Hlb. destruct Hlb as (s' & <- & Hs').
      split; [apply (proj1 (Forall_forall _ _) Hnames s Hs)
             | apply (proj1 (Forall_forall _ _) Hnames s' Hs')].
    + apply Forall_forall. intros e He.
      destruct (proj1 (Forall_forall _ _) Hedges e He) as (Hf & Ht & Hl).
      apply in_map_iff in Hf. destruct Hf as (s & <- & Hs).
      apply in_map_iff in Ht. destruct Ht as (s' & <- & Hs').
      split; [apply (proj1 (Forall_forall _ _) Hnames s Hs) |].
      split; [apply (proj1 (Forall_forall _ _) Hnames s' Hs') | exact Hl].
    + discriminate.
    + intros _. split; [exact Hids |]. split; [exact Hlen |].
      rewrite Hids. eapply Forall_impl; [| exact Hedges]. intros e He. split; apply He.
Qed.

(** X10 at an untidy graph (two of its four nodes remain, and one of its
    two edges) and at an input without graph. *)
Lemma propagation_graph_is_well_formed_witness :
  (2 <= List.length
          (Analyze.Propagation.nodes
             (Analyze.propagation
                (@Analyze.safeResponse reference_engine (Some untidy_graph)))) <= 30)%nat
  /\ map Analyze.Node.id
         (Analyze.Propagation.nodes
            (Analyze.propagation (@Analyze.safeResponse reference_engine (Some two_down))))
     = map Analyze.Service.name
           (Analyze.services (@Analyze.safeResponse reference_engine (Some two_down))).
Proof.
  split.
  - eapply (proj1 (proj2 (proj2 (proj2
              (propagation_graph_is_well_formed reference_engine (Some untidy_graph)))))).
    reflexivity.
  - apply (proj2 (proj2 (proj2 (proj2
             (propagation_graph_is_well_formed reference_engine (Some two_down)))))).
    reflexivity.
Defined.

Lemma fallback_statuses (incidentType : string) :
  map Analyze.Service.status (Analyze.buildFallbackServices incidentType)
  = if alarming incidentType
    then [Analyze.down; Analyze.down; Analyze.degraded]
    else [Analyze.degraded; Analyze.degraded; Analyze.healthy].
Proof.
  unfold Analyze.buildFallbackServices, alarming. now destruct (_ || _ || _).
Qed.

Lemma sync_severity_of_statuses (l : list Analyze.Service.t) :
  (map Analyze.Service.status l = [Analyze.down; Analyze.down; Analyze.degraded] ->
   Analyze.calculateSeverityFromServices l = int 80)
  /\ (map Analyze.Service.status l
      = [Analyze.degraded; Analyze.degraded; Analyze.healthy] ->
      Analyze.calculateSeverityFromServices l = int 20).
Proof.
  split; intros H;
    destruct l as [| [n1 s1 g1 c1] [| [n2 s2 g2 c2] [| [n3 s3 g3 c3] [|]]]];
    try discriminate; simpl in H; injection H as -> -> ->; reflexivity.
Qed.

(** The fallback topology and the severity it yields. *)
Lemma fallback_floor (E : Engine) (parsed : value) :
  let r := Analyze.safeResponse parsed in
  (List.length (array_or_empty (prop parsed "services")) < 3)%nat ->
  map Analyze.Service.status (Analyze.services r)
  = (if alarming (Analyze.incident_type r)
     then [Analyze.down; Analyze.down; Analyze.degraded]
     else [Analyze.degraded; Analyze.degraded; Analyze.healthy])
  /\ exists z,
       Analyze.severity_score r = int z
       /\ (if alarming (Analyze.incident_type r) then 80 else 20) <= z <= 100.
Proof.
  intros r Hlt.
  assert (Hs : Analyze.services r
               = Analyze.buildFallbackServices (Analyze.incident_type r)).
  { change (Analyze.services r)
      with (Analyze.filter_unseen Analyze.Service.name []
              (Analyze.services_or_fallback parsed (Analyze.incident_type r))).
    unfold Analyze.services_or_fallback. rewrite supplied_services_length.
    destruct (Nat.ltb_spec (List.length (array_or_empty (prop parsed "services"))) 3);
      [| lia].
    apply filter_unseen_id; [apply fallback_NoDup | now intros x _ []]. }
  pose proof (fallback_statuses (Analyze.incident_type r)) as Hst.
  rewrite <- Hs in Hst. split; [exact Hst |].
  unfold r at 1. rewrite severity_formula. fold r.
  destruct (toInt01to100_score (prop parsed "severity_score")) as (a & Ha & ->).
  destruct (sync_severity_of_statuses (Analyze.services r)) as [H80 H20].
  unfold Analyze.clamp.
  destruct (alarming (Analyze.incident_type r)).
  - rewrite (H80 Hst), Math_max_int, min_max_int.
    eexists. split; [reflexivity | lia].
  - rewrite (H20 Hst), Math_max_int, min_max_int.
    eexists. split; [reflexivity | lia].
Qed.


(** X11.  When the input supplies fewer than three services the report
    describes the fallback topology, whose statuses depend on the incident
    type alone: down, down, degraded when it mentions "outage", "down" or
    "critical" in any case, and degraded, degraded, healthy otherwise.  The
    severity of the report is then at least 80 in the first case and at
    least 20 in the second, whatever severity the model gave. *)
Theorem fallback_sets_a_floor (E : Engine) (parsed : value) :
  let r := Analyze.safeResponse parsed in
  (List.length (array_or_empty (prop parsed "services")) < 3)%nat ->
  map Analyze.Service.status (Analyze.services r)
  = (if alarming (Analyze.incident_type r)
     then [Analyze.down; Analyze.down; Analyze.degraded]
     else [Analyze.degraded; Analyze.degraded; Analyze.healthy])
  /\ exists z,
       Analyze.severity_score r = int z
       /\ (if alarming (Analyze.incident_type r) then 80 else 20) <= z <= 100.
Proof. apply fallback_floor. Qed.

(** X11 at an outage with one service listed and a severity of 10. *)
Lemma fallback_sets_a_floor_witness :
  exists z,
    Analyze.severity_score
      (@Analyze.safeResponse reference_engine
         (Some (JObject [("incident_type", JString "Regional OUTAGE");
                         ("severity_score", JNumber (int 10));
                         ("services", JArray [service_entry "auth" "healthy"])])))
    = int z
    /\ 80 <= z <= 100.
Proof.
  refine (proj2 (fallback_sets_a_floor reference_engine
                   (Some (JObject [("incident_type", JString "Regional OUTAGE");
                                   ("severity_score", JNumber (int 10));
                                   ("services", JArray [service_entry "auth" "healthy"])]))
                   _)).
  simpl. lia.
Defined.

(** ** The synchronous route and its calls *)

Section Calls.
Context {E : Engine}.

Lemma respond_status (text ctx ctx' : string) :
  status_code (Analyze.respond text ctx) = status_code (Analyze.respond text ctx').
Proof. unfold Analyze.respond. now destruct (Analyze.safeJSONParse text). Qed.

Lemma lookup_app_other (fields : list (string * JSON)) (k0 k : string) (v : JSON) :
  k <> k0 -> lookup (fields ++ [(k0, v)]) k = lookup fields k.
Proof.
  intros Hk. induction fields as [| [k' v'] fields IH]; simpl.
  - destruct (String.eqb_spec k0 k); [congruence | reflexivity].
  - now rewrite IH.
Qed.

(** The context only fills [external_intelligence]. *)
Lemma respond_context (text ctx ctx' k : string) :
  k <> "external_intelligence" ->
  prop (Some (body (Analyze.respond text ctx))) k
  = prop (Some (body (Analyze.respond text ctx'))) k.
Proof.
  intros Hk. unfold Analyze.respond.
  destruct (Analyze.safeJSONParse text) as [parsed |]; [| reflexivity].
  cbn [body]. set (r := Analyze.safeResponse (Some parsed)).
  assert (Hr : forall c,
             Analyze.report_json r c
             = JObject (removelast (match Analyze.report_json r c with
                                    | JObject fields => fields
                                    | _ => []
                                    end)
                        ++ [("external_intelligence", JString c)]))
    by reflexivity.
  rewrite (Hr ctx), (Hr ctx'). cbn [prop].
  now rewrite !lookup_app_other.
Qed.

Lemma logs_accepted (b : JSON) (l : string) :
  prop (Some b) "logs" = Some (JString l) -> trim l <> "" ->
  negb (truthy (Some (JString l))) || negb (nonempty (trim l)) = false.
Proof.
  intros _ Ht. assert (Hne : l <> "") by (intros ->; now apply Ht).
  unfold truthy, nonempty.
  destruct (String.eqb_spec l ""); [contradiction |].
  now destruct (String.eqb_spec (trim l) "").
Qed.

Lemma logs_refused (b : JSON) :
  (forall l, prop (Some b) "logs" = Some (JString l) -> trim l = "") ->
  match prop (Some b) "logs" with
  | Some (JString l) => negb (truthy (Some (JString l))) || negb (nonempty (trim l)) = true
  | _ => True
  end.
Proof.
  intros H. destruct (prop (Some b) "logs") as [[| | | l | |] |]; try exact I.
  rewrite (H l eq_refl). apply orb_true_r.
Qed.

End Calls.

(** X12.  The synchronous route checks the request before it calls
    anything: a body that cannot be read is answered with status 500 and a
    [logs] that is missing, not a string or blank with "Logs are required"
    (status 400), in both cases without any outside call.  Otherwise it
    makes two calls, the search with the first 400 characters of the logs
    and then the model with the context found and the logs.  What the
    search yields, failure included, changes neither the status of the
    answer nor any property of its body other than
    [external_intelligence]. *)
Theorem analysis_checks_before_it_calls (E : Engine)
  (request searchData searchData' : Execute.attempt JSON)
  (generated : Execute.attempt string) :
  let answer := AnalyzeRoute.POST request searchData generated in
  let answer' := AnalyzeRoute.POST request searchData' generated in
  (forall message, request = Execute.thrown message ->
     answer = ([], json_error "Failed to analyze logs" 500))
  /\ (forall b,
        request = Execute.ok b ->
        (forall l, prop (Some b) "logs" = Some (JString l) -> trim l = "") ->
        answer = ([], json_error "Logs are required" 400))
  /\ (forall b l,
        request = Execute.ok b ->
        prop (Some b) "logs" = Some (JString l) -> trim l <> "" ->
        fst answer
        = [AnalyzeRoute.search_context (slice l 0 400);
           AnalyzeRoute.generateContent (AnalyzeRoute.externalContext searchData) l]
        /\ len (slice l 0 400) <= 400
        /\ prefix (slice l 0 400) l = true
        /\ snd answer
           = Analyze.POST (Some b) (AnalyzeRoute.externalContext searchData)
               (match generated with
                | Execute.ok text => Some text
                | Execute.thrown _ => None
                end))
  /\ status_code (snd answer) = status_code (snd answer')
  /\ (forall k, k <> "external_intelligence" ->
        prop (Some (body (snd answer))) k = prop (Some (body (snd answer'))) k).
Proof.
  intros answer answer'. unfold answer, answer', AnalyzeRoute.POST.
  split; [| split; [| split; [| split]]].
  - now intros message ->.
  - intros b -> H. pose proof (logs_refused b H) as Hr.
    destruct (prop (Some b) "logs") as [[| | | l | |] |]; try reflexivity.
    now rewrite Hr.
  - intros b l -> Hl Ht. unfold Analyze.POST. rewrite Hl.
    rewrite (logs_accepted b l Hl Ht).
    destruct (slice_head l 400) as [H1 H2]; [lia |].
    destruct generated; auto.
  - destruct request as [b | message]; [| reflexivity].
    destruct (prop (Some b) "logs") as [[| | | l | |] |]; try reflexivity.
    destruct (_ || _); [reflexivity |].
    destruct generated; [apply respond_status | reflexivity].
  - intros k Hk. destruct request as [b | message]; [| reflexivity].
    destruct (prop (Some b) "logs") as [[| | | l | |] |]; try reflexivity.
    destruct (_ || _); [reflexivity |].
    destruct generated; [now apply respond_context | reflexivity].
Qed.

(** X12 at a request without logs, and at logs of 500 characters: the
    query keeps 400 of them. *)
Lemma analysis_checks_before_it_calls_witness :
  @AnalyzeRoute.POST reference_engine (Execute.ok (JObject [("log", JString "typo")]))
    (Execute.thrown None) (Execute.ok "{}")
  = ([], json_error "Logs are required" 400)
  /\ len (slice (all_text (repeat "ERROR" 100)) 0 400) <= 400.
Proof.
  split.
  - apply (proj1 (proj2 (analysis_checks_before_it_calls reference_engine
                           (Execute.ok (JObject [("log", JString "typo")]))
                           (Execute.thrown None) (Execute.thrown None)
                           (Execute.ok "{}")))
             (JObject [("log", JString "typo")]) eq_refl).
    intros l Hl. discriminate.
  - apply (proj1 (proj2 (proj2 (analysis_checks_before_it_calls reference_engine
             (Execute.ok (JObject [("logs", JString (all_text (repeat "ERROR" 100)))]))
             (Execute.thrown None) (Execute.thrown None) (Execute.ok "{}"))))
             (JObject [("logs", JString (all_text (repeat "ERROR" 100)))])
             (all_text (repeat "ERROR" 100)) eq_refl eq_refl).
    vm_compute. discriminate.
Defined.

Section Enrichment.
Context {E : Engine}.

Lemma sources_null (i : nat) (l : list JSON) :
  In JNull l -> AnalyzeRoute.sources i l = None.
Proof.
  revert i. induction l as [| s l IH]; intros i H; [contradiction |].
  simpl. destruct H as [-> | H]; [reflexivity |].
  rewrite (IH (S i) H). now destruct (AnalyzeRoute.source i s).
Qed.

Lemma sources_some (i : nat) (l : list JSON) :
  ~ In JNull l ->
  exists texts,
    AnalyzeRoute.sources i l = Some texts
    /\ List.length texts = List.length l
    /\ Forall (fun t => prefix "Source " t = true) texts.
Proof.
  revert i. induction l as [| s l IH]; intros i H.
  - exists []. repeat split. constructor.
  - destruct (IH (S i)) as (texts & Hs & Hlen & Hpre);
      [intros Hin; apply H; now right |].
    cbn [AnalyzeRoute.sources]. rewrite Hs.
    destruct s; try (exfalso; apply H; now left);
      eexists; (split; [reflexivity |]); (split; [simpl; now rewrite Hlen |]);
      (constructor; [now apply (prefix_app "Source " "Source ") | exact Hpre]).
Qed.

End Enrichment.



(** ** The event stream on the wire *)

Lemma occurs_cons (pat : string) (c : ascii) (s : string) :
  occurs pat (String c s) = false ->
  prefix pat (String c s) = false /\ occurs pat s = false.
Proof. cbn [occurs]. intros H. now apply orb_false_iff in H. Qed.

(** A block that holds no blank line and does not end in a line feed is
    ended by the first blank line after it. *)
Lemma indexOf_from_blank_line (block rest : string) (i : Z) :
  occurs blank_line (block ++ newline) = false ->
  indexOf_from i (block ++ blank_line ++ rest) blank_line = i + len block.
Proof.
  revert i. induction block as [| c block IH]; intros i H.
  - pose proof (prefix_app blank_line blank_line rest eq_refl) as Hp.
    change ("" ++ blank_line ++ rest)%string
      with (String (ascii_of_nat 10) (String (ascii_of_nat 10) rest)) in *.
    change (blank_line ++ rest)%string
      with (String (ascii_of_nat 10) (String (ascii_of_nat 10) rest)) in Hp.
    cbn [indexOf_from]. rewrite Hp. change (len "") with 0. lia.
  - change (String c block ++ newline)%string with (String c (block ++ newline)) in H.
    apply occurs_cons in H. destruct H as [Hp Ho].
    change (String c block ++ blank_line ++ rest)%string
      with (String c (block ++ blank_line ++ rest)).
    cbn [indexOf_from].
    destruct (prefix blank_line (String c (block ++ blank_line ++ rest))) eqn:Hq.
    + exfalso.
      assert (Heq : String c (block ++ blank_line ++ rest)
                    = (String c (block ++ newline) ++ (newline ++ rest))%string).
      { simpl. f_equal. unfold blank_line. now rewrite !append_assoc. }
      rewrite Heq in Hq. apply prefix_app_inv in Hq; [congruence |].
      simpl. destruct block; simpl; lia.
    + rewrite IH by assumption. rewrite len_String. lia.
Qed.

Lemma slice_all (s : string) : slice s 0 (len s) = s.
Proof.
  pose proof (slice_app "" s "") as H. rewrite append_empty_r in H.
  exact H.
Qed.

Lemma slice_tail (a b : string) : slice (a ++ b) (len a) (len (a ++ b)) = b.
Proof.
  pose proof (slice_app a b "") as H. rewrite append_empty_r in H.
  now rewrite len_app.
Qed.

Lemma slice_front (a b : string) : slice (a ++ b) 0 (len a) = a.
Proof. exact (slice_app "" a b). Qed.

Lemma slice_shorter (s : string) (a : Z) :
  0 <= a -> (String.length (slice s a (len s)) <= String.length s - Z.to_nat a)%nat.
Proof.
  intros Ha. unfold slice, clip_index. pose proof (len_nonneg s).
  destruct (Z.ltb_spec a 0); [lia |]. destruct (Z.ltb_spec (len s) 0); [lia |].
  rewrite (Z.min_id (len s)).
  pose proof (substring_length (Z.to_nat (Z.min a (len s)))
                (Z.to_nat (len s - Z.min a (len s))) s) as Hl.
  unfold len in *. lia.
Qed.

Lemma substring_split (k : nat) (s : string) :
  (k <= String.length s)%nat ->
  s = (substring 0 k s ++ substring k (String.length s - k) s)%string
  /\ String.length (substring 0 k s) = k.
Proof.
  revert k. induction s as [| c s IH]; intros [| k] Hk; simpl in *; try lia.
  - now split.
  - split; [| reflexivity]. f_equal.
    clear. induction s as [| d s IH]; simpl; [reflexivity | now f_equal].
  - destruct (IH k) as [H1 H2]; [lia |]. split; [now f_equal | now f_equal].
Qed.

(** A string cut at a position. *)
Lemma slice_split (s : string) (k : Z) :
  0 <= k <= len s ->
  s = (slice s 0 k ++ slice s k (len s))%string /\ len (slice s 0 k) = k.
Proof.
  intros Hk. unfold slice, clip_index.
  destruct (Z.ltb_spec 0 0); [lia |]. destruct (Z.ltb_spec k 0); [lia |].
  destruct (Z.ltb_spec (len s) 0); [lia |].
  rewrite (Z.min_l 0), (Z.min_l k), (Z.min_l (len s)) by lia.
  change (Z.to_nat 0) with O. rewrite Z.sub_0_r.
  destruct (substring_split (Z.to_nat k) s) as [Hs Hl]; [unfold len in *; lia |].
  replace (Z.to_nat (len s - k)) with (String.length s - Z.to_nat k)%nat
    by (unfold len; lia).
  split; [exact Hs |]. unfold len at 1. rewrite Hl. lia.
Qed.

(** What follows a position, in a string with more text added. *)
Lemma slice_app_r (s more : string) (k : Z) :
  0 <= k <= len s ->
  slice (s ++ more) k (len (s ++ more)) = (slice s k (len s) ++ more)%string.
Proof.
  intros Hk. destruct (slice_split s k Hk) as [Hcut Hl].
  set (a := slice s 0 k) in *. set (b := slice s k (len s)) in *.
  clearbody a b. subst s k. rewrite append_assoc. apply slice_tail.
Qed.

Section Reader.
Context {E : Engine}.
Import Client.

(** Fuel beyond the length of the buffer is not used. *)
Lemma drain_enough (f1 f2 : nat) (buffer : string) :
  (String.length buffer <= f1)%nat -> (String.length buffer <= f2)%nat ->
  drain f1 buffer = drain f2 buffer.
Proof.
  revert f2 buffer. induction f1 as [| f1 IH]; intros f2 buffer H1 H2.
  - destruct buffer; [| simpl in H1; lia]. now destruct f2.
  - destruct f2 as [| f2].
    + destruct buffer; [reflexivity | simpl in H2; lia].
    + cbn [drain].
      destruct (Z.eqb_spec (indexOf buffer blank_line) (-1)) as [| Hi]; [reflexivity |].
      destruct (indexOf_bounds _ _ Hi) as [H0 Hb].
      change (len blank_line) with 2 in Hb.
      pose proof (slice_shorter buffer (indexOf buffer blank_line + 2) ltac:(lia)) as Hs.
      rewrite (IH f2); [reflexivity | |]; unfold len in *; lia.
Qed.

(** One turn of the inner loop. *)
Lemma drain_step (buffer : string) :
  drain (String.length buffer) buffer
  = let idx := indexOf buffer blank_line in
    if idx =? -1 then ([], buffer)
    else
      let block := trim (slice buffer 0 idx) in
      let rest := slice buffer (idx + 2) (len buffer) in
      let '(blocks, kept) := drain (String.length rest) rest in
      (if nonempty block then block :: blocks else blocks, kept).
Proof.
  cbv zeta. destruct buffer as [| c buffer]; [reflexivity |].
  cbn [String.length drain].
  destruct (Z.eqb_spec (indexOf (String c buffer) blank_line) (-1)) as [| Hi];
    [reflexivity |].
  destruct (indexOf_bounds _ _ Hi) as [H0 Hb].
  change (len blank_line) with 2 in Hb.
  pose proof (slice_shorter (String c buffer)
                (indexOf (String c buffer) blank_line + 2) ltac:(lia)) as Hs.
  rewrite (drain_enough (String.length buffer)
             (String.length (slice (String c buffer)
                               (indexOf (String c buffer) blank_line + 2)
                               (len (String c buffer)))));
    [reflexivity | | lia].
  unfold len in *. simpl String.length in *. lia.
Qed.

(** The loop leaves a buffer without blank line. *)
Lemma drain_kept (n : nat) (buffer : string) :
  String.length buffer = n ->
  indexOf (snd (drain (String.length buffer) buffer)) blank_line = -1.
Proof.
  revert buffer. induction n as [n IH] using lt_wf_ind. intros buffer Hn.
  rewrite drain_step. cbv zeta.
  destruct (Z.eqb_spec (indexOf buffer blank_line) (-1)) as [Hi | Hi]; [exact Hi |].
  destruct (indexOf_bounds _ _ Hi) as [H0 Hb].
  change (len blank_line) with 2 in Hb.
  set (rest := slice buffer (indexOf buffer blank_line + 2) (len buffer)).
  pose proof (slice_shorter buffer (indexOf buffer blank_line + 2) ltac:(lia)) as Hs.
  fold rest in Hs.
  assert (Hlt : (String.length rest < n)%nat) by (unfold len in *; lia).
  specialize (IH _ Hlt rest eq_refl).
  destruct (drain (String.length rest) rest) as [blocks kept]. exact IH.
Qed.

(** Text added to the buffer does not change the blocks already found. *)
Lemma drain_app (n : nat) (buffer more : string) :
  String.length buffer = n ->
  let '(blocks, kept) := drain (String.length buffer) buffer in
  drain (String.length (buffer ++ more)) (buffer ++ more)
  = let '(blocks', kept') := drain (String.length (kept ++ more)) (kept ++ more) in
    (blocks ++ blocks', kept').
Proof.
  revert buffer. induction n as [n IH] using lt_wf_ind. intros buffer Hn.
  rewrite (drain_step buffer). cbv zeta.
  destruct (Z.eqb_spec (indexOf buffer blank_line) (-1)) as [Hi | Hi].
  - now destruct (drain _ (buffer ++ more)).
  - destruct (indexOf_bounds _ _ Hi) as [H0 Hb].
    change (len blank_line) with 2 in Hb.
    set (idx := indexOf buffer blank_line) in *.
    set (rest := slice buffer (idx + 2) (len buffer)).
    pose proof (slice_shorter buffer (idx + 2) ltac:(lia)) as Hs. fold rest in Hs.
    assert (Hlt : (String.length rest < n)%nat) by (unfold len in *; lia).
    specialize (IH _ Hlt rest eq_refl).
    destruct (drain (String.length rest) rest) as [blocks kept].
    rewrite (drain_step (buffer ++ more)). cbv zeta.
    rewrite (indexOf_app _ _ more Hi). fold idx.
    destruct (Z.eqb_spec idx (-1)); [contradiction |].
    rewrite (slice_app_l buffer more 0 idx) by lia.
    assert (Hrest : slice (buffer ++ more) (idx + 2) (len (buffer ++ more))
                    = (rest ++ more)%string)
      by (apply slice_app_r; lia).
    rewrite Hrest, IH.
    destruct (drain (String.length (kept ++ more)) (kept ++ more)) as [blocks' kept'].
    now destruct (nonempty (trim (slice buffer 0 idx))).
Qed.

(** The blocks handled do not depend on how the text is cut into pieces. *)
Lemma pump_whole (net : list string) (buffer : string) :
  indexOf buffer blank_line = -1 ->
  pump buffer net
  = fst (drain (String.length (buffer ++ all_text net)) (buffer ++ all_text net)).
Proof.
  revert buffer. induction net as [| value net IH]; intros buffer Hb.
  - cbn [pump all_text fold_right]. rewrite append_empty_r, drain_step. cbv zeta.
    now rewrite Hb.
  - cbn [pump all_text fold_right]. fold (all_text net).
    pose proof (drain_app _ (buffer ++ value) (all_text net) eq_refl) as Happ.
    pose proof (drain_kept _ (buffer ++ value) eq_refl) as Hk.
    destruct (drain (String.length (buffer ++ value)) (buffer ++ value))
      as [blocks kept].
    rewrite <- append_assoc, Happ, (IH kept Hk).
    now destruct (drain _ (kept ++ all_text net)).
Qed.

End Reader.

(** *** One event on the wire *)

Lemma prefix_cons_false (a c : ascii) (pat s : string) :
  a <> c -> prefix (String a pat) (String c s) = false.
Proof. intros H. simpl. destruct (ascii_dec a c); [contradiction | reflexivity]. Qed.

Lemma occurs_newline_cons (c : ascii) (s : string) :
  occurs newline (String c s) = false ->
  c <> ascii_of_nat 10 /\ occurs newline s = false.
Proof.
  intros H. apply occurs_cons in H. destruct H as [Hp Ho]. split; [| exact Ho].
  intros ->. unfold newline in Hp. simpl in Hp.
  destruct (ascii_dec (ascii_of_nat 10) (ascii_of_nat 10)); [| congruence].
  now destruct s.
Qed.

(** A text without line feed, followed by one, holds no blank line. *)
Lemma occurs_blank_line (text : string) :
  occurs newline text = false -> occurs blank_line (text ++ newline) = false.
Proof.
  induction text as [| c text IH]; intros H; [reflexivity |].
  apply occurs_newline_cons in H. destruct H as [Hc Ho].
  change (String c text ++ newline)%string with (String c (text ++ newline)).
  cbn [occurs]. rewrite (IH Ho), orb_false_r.
  apply prefix_cons_false. congruence.
Qed.

Lemma occurs_after_space (a b : string) :
  occurs blank_line (a ++ " ") = false -> occurs blank_line b = false ->
  occurs blank_line (a ++ " " ++ b) = false.
Proof.
  intros Ha Hb. induction a as [| c a IH].
  - change ("" ++ " " ++ b)%string with (String " " b). cbn [occurs].
    rewrite Hb, orb_false_r. apply prefix_cons_false. discriminate.
  - change (String c a ++ " ")%string with (String c (a ++ " ")) in Ha.
    apply occurs_cons in Ha. destruct Ha as [Hp Ho].
    change (String c a ++ " " ++ b)%string with (String c (a ++ " " ++ b)).
    cbn [occurs]. rewrite (IH Ho), orb_false_r.
    destruct (prefix blank_line (String c (a ++ " " ++ b))) eqn:Hq; [| reflexivity].
    assert (Heq : String c (a ++ " " ++ b) = (String c (a ++ " ") ++ b)%string)
      by (simpl; now rewrite append_assoc).
    rewrite Heq in Hq. apply prefix_app_inv in Hq; [congruence |].
    simpl. destruct a; simpl; lia.
Qed.

Lemma occurs_newline_app (a b : string) :
  occurs newline a = false -> occurs newline b = false ->
  occurs newline (a ++ b) = false.
Proof.
  intros Ha Hb. induction a as [| c a IH]; [exact Hb |].
  apply occurs_newline_cons in Ha. destruct Ha as [Hc Ho].
  change (String c a ++ b)%string with (String c (a ++ b)).
  cbn [occurs]. rewrite (IH Ho), orb_false_r.
  apply prefix_cons_false. congruence.
Qed.

Lemma split_line (a : string) :
  occurs newline a = false -> split (ascii_of_nat 10) a = [a].
Proof.
  induction a as [| c a IH]; intros H; [reflexivity |].
  apply occurs_newline_cons in H. destruct H as [Hc Ho].
  cbn [split]. rewrite (IH Ho).
  destruct (Ascii.eqb_spec c (ascii_of_nat 10)); [contradiction | reflexivity].
Qed.

Lemma split_lines (a b : string) :
  occurs newline a = false ->
  split (ascii_of_nat 10) (a ++ newline ++ b) = a :: split (ascii_of_nat 10) b.
Proof.
  induction a as [| c a IH]; intros H.
  - change ("" ++ newline ++ b)%string with (String (ascii_of_nat 10) b).
    cbn [split]. now rewrite Ascii.eqb_refl.
  - apply occurs_newline_cons in H. destruct H as [Hc Ho].
    change (String c a ++ newline ++ b)%string with (String c (a ++ newline ++ b)).
    cbn [split]. rewrite (IH Ho).
    destruct (Ascii.eqb_spec c (ascii_of_nat 10)); [contradiction | reflexivity].
Qed.

Lemma trimEnd_app (a b : string) :
  trimEnd b <> "" -> trimEnd (a ++ b) = (a ++ trimEnd b)%string.
Proof.
  intros Hb. induction a as [| c a IH]; [reflexivity |].
  change (String c a ++ b)%string with (String c (a ++ b)).
  cbn [trimEnd]. rewrite IH.
  destruct (a ++ trimEnd b)%string eqn:Hab; [| simpl; now rewrite Hab].
  destruct a; [simpl in Hab; contradiction | discriminate].
Qed.

Lemma trimmed_ends (text : string) :
  trimmed text = true -> text <> "" /\ trimStart text = text /\ trimEnd text = text.
Proof.
  intros H. apply trimmed_spec in H. destruct H as [Hne Ht].
  split; [exact Hne |]. split.
  - rewrite <- Ht at 1. rewrite trimStart_trim. exact Ht.
  - rewrite <- Ht at 1. unfold trim. rewrite trimEnd_idempotent. exact Ht.
Qed.

Lemma flat_map_map {A B C : Type} (f : B -> list C) (g : A -> B) (l : list A) :
  flat_map f (map g l) = flat_map (fun x => f (g x)) l.
Proof.
  induction l as [| x l IH]; simpl; [reflexivity | now rewrite IH].
Qed.

Section Events.
Context {E : Engine} {S : Serializer}.
Import Client.

(** The block of an event: what [send] writes before the blank line. *)
Lemma send_block (ev : Stream.event) :
  send ev
  = (("event: " ++ event_name ev ++ newline
      ++ "data: " ++ JSON_stringify (payload ev)) ++ blank_line)%string.
Proof.
  unfold send. now rewrite !append_assoc.
Qed.

Lemma block_ends (ev : Stream.event) :
  fits_on_a_line ev = true ->
  let block := ("event: " ++ event_name ev ++ newline
                ++ "data: " ++ JSON_stringify (payload ev))%string in
  occurs blank_line (block ++ newline) = false
  /\ trim block = block /\ block <> "".
Proof.
  unfold fits_on_a_line. intros H. apply andb_true_iff in H. destruct H as [Hnl Ht].
  apply negb_true_iff in Hnl.
  destruct (trimmed_ends _ Ht) as (Hne & Hs & He).
  set (text := JSON_stringify (payload ev)) in *.
  set (block := ("event: " ++ event_name ev ++ newline ++ "data: " ++ text)%string).
  split; [| split].
  - assert (Hb : (block ++ newline)%string
                 = (("event: " ++ event_name ev ++ newline ++ "data:") ++ " "
                    ++ (text ++ newline))%string)
      by (unfold block; now rewrite !append_assoc).
    rewrite Hb. apply occurs_after_space; [now destruct ev |].
    now apply occurs_blank_line.
  - unfold trim.
    assert (Hst : trimStart block = block) by reflexivity.
    rewrite Hst.
    assert (Hb : block = (("event: " ++ event_name ev ++ newline ++ "data: ") ++ text)%string)
      by (unfold block; now rewrite !append_assoc).
    rewrite Hb, trimEnd_app by (now rewrite He). now rewrite He.
  - discriminate.
Qed.

(** What the page reads from the block of an event. *)
Lemma read_block_sent (ev : Stream.event) :
  fits_on_a_line ev = true ->
  read_block ("event: " ++ event_name ev ++ newline
              ++ "data: " ++ JSON_stringify (payload ev))
  = match JSON_parse (JSON_stringify (payload ev)) with
    | Some data => Some (event_name ev, data)
    | None => None
    end.
Proof.
  unfold fits_on_a_line. intros H. apply andb_true_iff in H. destruct H as [Hnl Ht].
  apply negb_true_iff in Hnl.
  destruct (trimmed_ends _ Ht) as (Hne & Hs & He).
  set (text := JSON_stringify (payload ev)) in *.
  unfold read_block.
  assert (Hsplit : split (ascii_of_nat 10)
                     ("event: " ++ event_name ev ++ newline ++ "data: " ++ text)
                   = [("event: " ++ event_name ev)%string; ("data: " ++ text)%string]).
  { rewrite <- (append_assoc "event: " (event_name ev)).
    rewrite split_lines by now destruct ev.
    rewrite split_line; [reflexivity |].
    now apply (occurs_newline_app "data: " text). }
  rewrite Hsplit. cbn [map].
  assert (Hdata : trim ("data: " ++ text) = ("data: " ++ text)%string).
  { unfold trim. change (trimStart ("data: " ++ text)) with ("data: " ++ text)%string.
    rewrite trimEnd_app by (now rewrite He). now rewrite He. }
  rewrite Hdata.
  assert (Hname : trim ("event: " ++ event_name ev) = ("event: " ++ event_name ev)%string)
    by now destruct ev.
  rewrite Hname. cbn [fold_left]. unfold read_line.
  assert (H1 : prefix "event:" ("event: " ++ event_name ev) = true) by reflexivity.
  assert (H2 : prefix "data:" ("event: " ++ event_name ev) = false) by reflexivity.
  assert (H3 : prefix "event:" ("data: " ++ text) = false) by reflexivity.
  assert (H4 : prefix "data:" ("data: " ++ text) = true) by reflexivity.
  rewrite H1, H2, H3, H4.
  assert (H5 : trim (replace_first "event:" "" ("event: " ++ event_name ev))
               = event_name ev) by now destruct ev.
  assert (H6 : trim (replace_first "data:" "" ("data: " ++ text)) = text).
  { change (replace_first "data:" "" ("data: " ++ text)) with (String " " text).
    unfold trim. change (trimStart (String " " text)) with (trimStart text).
    now rewrite Hs. }
  rewrite H5, H6. cbn [append].
  unfold nonempty. destruct (String.eqb_spec text ""); [contradiction | reflexivity].
Qed.

(** The blocks of a sequence of events, read in one piece. *)
Lemma drain_sent (events : list Stream.event) :
  forallb fits_on_a_line events = true ->
  drain (String.length (all_text (map send events))) (all_text (map send events))
  = (map (fun ev => ("event: " ++ event_name ev ++ newline
                     ++ "data: " ++ JSON_stringify (payload ev))%string) events,
     "").
Proof.
  induction events as [| ev events IH]; intros H; [reflexivity |].
  cbn [forallb] in H. apply andb_true_iff in H. destruct H as [Hev Hrest].
  cbn [map all_text fold_right]. fold (all_text (map send events)).
  destruct (block_ends ev Hev) as (Hsolid & Htrim & Hne).
  set (block := ("event: " ++ event_name ev ++ newline
                 ++ "data: " ++ JSON_stringify (payload ev))%string) in *.
  set (others := all_text (map send events)) in *.
  assert (Hs : (send ev ++ others)%string = (block ++ blank_line ++ others)%string)
    by (rewrite send_block; fold block; now rewrite append_assoc).
  rewrite Hs, drain_step. cbv zeta.
  assert (Hidx : indexOf (block ++ blank_line ++ others) blank_line = len block)
    by (unfold indexOf; now rewrite indexOf_from_blank_line).
  rewrite Hidx. pose proof (len_nonneg block).
  destruct (Z.eqb_spec (len block) (-1)); [lia |].
  rewrite slice_front, Htrim.
  assert (Hr : slice (block ++ blank_line ++ others) (len block + 2)
                 (len (block ++ blank_line ++ others)) = others).
  { rewrite <- append_assoc.
    replace (len block + 2) with (len (block ++ blank_line))
      by (rewrite len_app; reflexivity).
    apply slice_tail. }
  rewrite Hr, (IH Hrest).
  unfold nonempty. destruct (String.eqb_spec block ""); [contradiction | reflexivity].
Qed.

End Events.

(** ** The page and the routes *)

(** X14.  The events survive the wire.  However the text that the
    streaming route sends is cut into pieces on its way, the page hands to
    its dispatch the events sent, in order, each with its name and with
    what [JSON.parse] makes of the text [JSON.stringify] gave for its data,
    provided that text fits on a line (it has no line feed, as the text of
    [JSON.stringify] has not, and is trimmed); an event whose text does not
    parse is dropped.  So when the data come back from the text as they
    were, the page is handed exactly the events sent. *)
Theorem events_survive_the_wire (E : Engine) (S : Serializer)
  (events : list Stream.event) (net : list string) :
  all_text net = all_text (map send events) ->
  forallb fits_on_a_line events = true ->
  Client.received net
  = flat_map (fun ev => match JSON_parse (JSON_stringify (payload ev)) with
                        | Some data => [(event_name ev, data)]
                        | None => []
                        end) events
  /\ ((forall ev, In ev events ->
         JSON_parse (JSON_stringify (payload ev)) = Some (payload ev)) ->
      Client.received net = map delivered events).
Proof.
  intros Hnet Hfit.
  assert (Hr : Client.received net
               = flat_map (fun ev => match JSON_parse (JSON_stringify (payload ev)) with
                                     | Some data => [(event_name ev, data)]
                                     | None => []
                                     end) events).
  { unfold Client.received. rewrite (pump_whole net "" eq_refl).
    cbn [append]. rewrite Hnet, (drain_sent events Hfit). cbn [fst].
    rewrite flat_map_map. clear Hnet.
    induction events as [| ev events IH]; [reflexivity |].
    cbn [forallb] in Hfit. apply andb_true_iff in Hfit. destruct Hfit as [Hev Hrest].
    cbn [flat_map]. rewrite (read_block_sent ev Hev), (IH Hrest).
    now destruct (JSON_parse (JSON_stringify (payload ev))). }
  split; [exact Hr |].
  intros Hback. rewrite Hr. clear Hr Hnet Hfit.
  induction events as [| ev events IH]; [reflexivity |].
  cbn [flat_map map]. rewrite (Hback ev (or_introl eq_refl)).
  cbn [app]. f_equal. apply IH. intros ev' Hin. apply Hback. now right.
Qed.

(** X14 at the events of the example stream, their text cut inside a line
    and inside a blank line. *)
Lemma events_survive_the_wire_witness :
  @Client.received reference_engine example_net = map delivered example_sent.
Proof.
  refine (proj2 (events_survive_the_wire reference_engine reference_serializer
                   example_sent example_net _ _) _).
  - vm_compute. reflexivity.
  - vm_compute. reflexivity.
  - intros ev Hin. vm_compute in Hin.
    repeat (destruct Hin as [<- | Hin]; [vm_compute; reflexivity |]).
    contradiction.
Defined.

Section Dispatch.
Context {E : Engine}.
Import Client.

Lemma on_events_tokens (texts : list string) (v : view) (gotFinal : bool)
  (rest : list (string * JSON)) :
  on_events (v, gotFinal) (map delivered (map Stream.token texts) ++ rest)
  = on_events ({| result := result v;
                  streamText := (streamText v ++ all_text texts)%string;
                  streamError := streamError v;
                  selectedService := selectedService v;
                  systemStatus := systemStatus v;
                  streaming := streaming v |}, gotFinal) rest.
Proof.
  revert v. induction texts as [| text texts IH]; intros v.
  - cbn [map app all_text fold_right]. rewrite append_empty_r. now destruct v.
  - cbn [map app on_events]. unfold delivered at 1. cbn [event_name payload on_event].
    cbn [String.eqb Ascii.eqb Bool.eqb andb]. rewrite IH.
    cbn [result streamText streamError selectedService systemStatus streaming].
    unfold shown. cbn [prop lookup String.eqb Ascii.eqb Bool.eqb andb String_of].
    cbn [all_text fold_right]. fold (all_text texts). now rewrite append_assoc.
Qed.

End Dispatch.

(** X15.  The page ends with the verdict of the streaming route.  For
    logs that are not blank (the page sends no other) the streaming route
    answers with the stream of events.  When the events reach the page as
    sent, the text shown is the narration in order; if the verdict on the
    model's text is a [final] report the page shows that report and sends
    no second request; if it is an error the page shows its message, asks
    the synchronous route, and shows what that route answers. *)
Theorem page_shows_the_verdict (E : Engine) (v : Client.view) (logs : string)
  (chunks : list string) (e : Stream.ending) (net : list string)
  (first second : Execute.attempt JSON) :
  trim logs <> "" ->
  Client.received net = map delivered (Stream.start chunks e) ->
  let outcome := Client.analyze v logs (Client.readable net None) first second in
  StreamRoute.POST (Execute.ok (JObject [("logs", JString logs)]))
                   (Execute.ok (chunks, e))
  = ([logs], StreamRoute.event_stream (Stream.start chunks e))
  /\ exists texts v',
       Stream.start chunks e
       = map Stream.token texts ++ [verdict (all_text chunks) e]
       /\ snd outcome = Some v'
       /\ Client.streamText v' = all_text texts
       /\ match verdict (all_text chunks) e with
          | Stream.final report =>
              fst outcome = [Client.analyze_stream logs]
              /\ Client.result v' = Client.nullable (Some report)
              /\ Client.selectedService v' = Client.firstService (Some report)
              /\ Client.streamError v' = None
              /\ Client.systemStatus v' = Client.incident
          | Stream.error message =>
              forall data, first = Execute.ok data ->
                fst outcome = [Client.analyze_stream logs; Client.analyze_sync logs]
                /\ Client.result v' = Client.nullable (Some data)
                /\ Client.selectedService v' = Client.firstService (Some data)
                /\ Client.streamError v' = Some (JString message)
                /\ Client.systemStatus v' = Client.incident
          | Stream.token _ => False
          end.
Proof.
  intros Hlogs Hnet outcome.
  assert (Hne : nonempty (trim logs) = true) by now apply nonempty_spec.
  split.
  { unfold StreamRoute.POST. cbn [prop lookup String.eqb Ascii.eqb Bool.eqb andb].
    now rewrite Hne. }
  destruct (consume_verdict chunks e Stream.initial eq_refl eq_refl) as (texts & Hrun).
  change (Stream.consume Stream.initial chunks e) with (Stream.start chunks e) in Hrun.
  change (Stream.fullText Stream.initial ++ all_text chunks)%string
    with (all_text chunks) in Hrun.
  unfold outcome, Client.analyze. rewrite Hne. cbn [negb].
  rewrite Hnet, Hrun, map_app, on_events_tokens.
  cbn [Client.result Client.streamText Client.streamError Client.selectedService
       Client.systemStatus Client.streaming append].
  destruct (verdict (all_text chunks) e) as [text | report | message] eqn:Hv.
  - exfalso. unfold verdict in Hv.
    destruct (envelope (all_text chunks));
      [destruct (Stream.parse_and_score _) | destruct e]; discriminate.
  - exists texts. eexists. split; [reflexivity |].
    cbn [map delivered event_name payload Client.on_events Client.on_event
         String.eqb Ascii.eqb Bool.eqb andb snd fst].
    split; [reflexivity |]. repeat split.
  - exists texts.
    cbn [map delivered event_name payload Client.on_events Client.on_event
         String.eqb Ascii.eqb Bool.eqb andb snd fst].
    destruct first as [data | m].
    + eexists. split; [reflexivity |]. split; [reflexivity |]. split; [reflexivity |].
      intros data' Hd. injection Hd as <-. repeat split.
    + eexists. split; [reflexivity |]. split; [reflexivity |].
      split; [now destruct second |].
      intros data' Hd. discriminate.
Qed.

(** X15 at the example stream: the report is shown after one request. *)
Lemma page_shows_the_verdict_witness :
  fst (@Client.analyze reference_engine blank_view "db down"
         (Client.readable example_net None) (Execute.thrown None)
         (Execute.thrown None))
  = [Client.analyze_stream "db down"].
Proof.
  destruct (page_shows_the_verdict reference_engine blank_view "db down"
              example_chunks Stream.closed example_net (Execute.thrown None)
              (Execute.thrown None))
    as (_ & texts & v' & _ & _ & _ & H).
  - vm_compute. discriminate.
  - vm_compute. reflexivity.
  - vm_compute in H. vm_compute. exact (proj1 H).
Defined.

Section Labels.
Context {E : Engine}.

Lemma priority_of_score (fields : list (string * JSON)) (z : Z) :
  lookup fields "severity_score" = Some (JNumber (int z)) ->
  Client.calculateSeverity (Some (JObject fields)) = Some (priority z).
Proof.
  intros H. unfold Client.calculateSeverity. cbn [truthy negb prop]. rewrite H.
  unfold leb, int, priority. rewrite !Qle_bool_inject_Z. reflexivity.
Qed.

Lemma report_severity (r : Analyze.AnalyzeResult) (ctx : string) :
  lookup (match Analyze.report_json r ctx with
          | JObject fields => fields
          | _ => []
          end) "severity_score"
  = Some (JNumber (Analyze.severity_score r)).
Proof. reflexivity. Qed.

End Labels.

(** X16.  The priority the page shows for a report of either route is read
    from its severity alone: P1 from 80, P2 from 50, P3 below, and the
    label is always defined.  An error answer of the synchronous route,
    which the page shows like a report, is a P3.  A report made from fewer
    than three services whose incident type mentions "outage", "down" or
    "critical" is a P1. *)
Theorem priority_of_a_report (E : Engine) :
  (forall (parsed : value) (ctx : string),
     let r := Analyze.safeResponse parsed in
     exists z,
       Analyze.severity_score r = int z /\ 0 <= z <= 100
       /\ Client.calculateSeverity (Some (Analyze.report_json r ctx))
          = Some (priority z))
  /\ (forall o : list (string * JSON),
        exists report z,
          Stream.hybrid (JObject o) = Some report
          /\ prop (Some report) "severity_score" = Some (JNumber (int z))
          /\ 0 <= z <= 100
          /\ Client.calculateSeverity (Some report) = Some (priority z))
  /\ (forall (message : string) (status : Z),
        Client.calculateSeverity (Some (body (json_error message status)))
        = Some "P3")
  /\ (forall (parsed : value) (ctx : string),
        let r := Analyze.safeResponse parsed in
        (List.length (array_or_empty (prop parsed "services")) < 3)%nat ->
        alarming (Analyze.incident_type r) = true ->
        Client.calculateSeverity (Some (Analyze.report_json r ctx)) = Some "P1").
Proof.
  assert (Hsync : forall (parsed : value) (ctx : string) (z : Z),
             Analyze.severity_score (Analyze.safeResponse parsed) = int z ->
             Client.calculateSeverity
               (Some (Analyze.report_json (Analyze.safeResponse parsed) ctx))
             = Some (priority z)).
  { intros parsed ctx z Hz. apply priority_of_score.
    rewrite <- Hz. reflexivity. }
  split; [| split; [| split]].
  - intros parsed ctx r.
    destruct (severity_score_is_score parsed) as (z & Hz & Heq).
    exists z. split; [exact Heq |]. split; [exact Hz |]. now apply Hsync.
  - intros o. destruct (stream_severity_score o) as (z & Hz & Heq).
    eexists. exists z. split; [apply hybrid_object |].
    assert (Hl : lookup
                   (put (put (put o "severity_score" (JNumber (stream_severity o)))
                             "business_impact_score" (JNumber (stream_impact o)))
                        "confidence" (JNumber (Stream.safeProb (lookup o "confidence"))))
                   "severity_score"
                 = Some (JNumber (int z))).
    { rewrite !lookup_put_other by discriminate. rewrite lookup_put_same.
      now rewrite Heq. }
    split; [exact Hl |]. split; [exact Hz |]. now apply priority_of_score.
  - reflexivity.
  - intros parsed ctx r Hlt Halarm. subst r.
    destruct (proj2 (fallback_floor E parsed Hlt)) as (z & Heq & Hz).
    rewrite Halarm in Hz.
    rewrite (Hsync parsed ctx z Heq). unfold priority.
    destruct (Z.leb_spec 80 z); [reflexivity | lia].
Qed.

(** X16 at an outage with one service listed and a severity of 10. *)
Lemma priority_of_a_report_witness :
  Client.calculateSeverity
    (Some (Analyze.report_json
             (@Analyze.safeResponse reference_engine
                (Some (JObject [("incident_type", JString "Regional OUTAGE");
                                ("severity_score", JNumber (int 10));
                                ("services", JArray [service_entry "auth" "healthy"])])))
             default_context))
  = Some "P1".
Proof.
  apply (proj2 (proj2 (proj2 (priority_of_a_report reference_engine)))).
  - simpl. lia.
  - reflexivity.
Defined.

(** X17.  The service the page selects after an analysis by the
    synchronous route is the first service of the report, and its name is
    what the page sends to the execution trigger.  The trigger calls the
    webhook once, for that service, when the name is one of api-gateway,
    primary-db and cache, and refuses the request with "Invalid service"
    otherwise; a report made from fewer than three services selects
    api-gateway. *)
Theorem page_executes_the_first_service (E : Engine) (parsed : value)
  (ctx now : string) (webhook : Execute.attempt Z) :
  let r := Analyze.safeResponse parsed in
  let selected := Client.firstService (Some (Analyze.report_json r ctx)) in
  let answer := Execute.POST (Execute.ok (Client.execute_body selected)) now webhook in
  exists s0 rest,
    Analyze.services r = s0 :: rest
    /\ selected = Some (JString (Analyze.Service.name s0))
    /\ Client.execute_body selected
       = JObject [("service", JString (Analyze.Service.name s0))]
    /\ (In (Analyze.Service.name s0) Execute.allowed ->
        fst answer
        = [{| Execute.action := "scale_up";
              Execute.service := Analyze.Service.name s0;
              Execute.triggeredBy := "AutoOps AI";
              Execute.timestamp := now |}])
    /\ (~ In (Analyze.Service.name s0) Execute.allowed ->
        answer = ([], json_error "Invalid service" 400))
    /\ ((List.length (array_or_empty (prop parsed "services")) < 3)%nat ->
        Analyze.Service.name s0 = "api-gateway").
Proof.
  intros r selected answer.
  assert (Hlen : (1 <= List.length (Analyze.services r))%nat).
  { change (Analyze.services r)
      with (Analyze.filter_unseen Analyze.Service.name []
              (Analyze.services_or_fallback parsed (Analyze.incident_type r))).
    apply filter_unseen_head. intros Hnil.
    pose proof (services_or_fallback_length parsed (Analyze.incident_type r)) as H3.
    rewrite Hnil in H3. simpl in H3. lia. }
  destruct (Analyze.services r) as [| s0 rest] eqn:Hs; [simpl in Hlen; lia |].
  exists s0, rest. split; [reflexivity |].
  assert (Hsel : selected = Some (JString (Analyze.Service.name s0))).
  { unfold selected, Client.firstService, Analyze.report_json.
    cbn [prop lookup String.eqb Ascii.eqb Bool.eqb andb]. rewrite Hs. reflexivity. }
  split; [exact Hsel |]. unfold answer. rewrite Hsel.
  cbn [Client.execute_body]. split; [reflexivity |].
  assert (Hp : prop (Some (JObject [("service", JString (Analyze.Service.name s0))]))
                    "service"
               = Some (JString (Analyze.Service.name s0))) by reflexivity.
  change (Client.execute_body (Some (JString (Analyze.Service.name s0))))
    with (JObject [("service", JString (Analyze.Service.name s0))]).
  unfold Execute.POST. rewrite Hp. unfold Execute.allowed_includes, string_or.
  split; [| split].
  - intros Hin. apply existsb_eqb_In in Hin. rewrite Hin. cbn [negb].
    now destruct webhook.
  - intros Hout.
    destruct (existsb (String.eqb (Analyze.Service.name s0)) Execute.allowed) eqn:Hex;
      [| reflexivity].
    apply existsb_eqb_In in Hex. contradiction.
  - intros Hlt.
    assert (Hfb : Analyze.services r
                  = Analyze.buildFallbackServices (Analyze.incident_type r)).
    { change (Analyze.services r)
        with (Analyze.filter_unseen Analyze.Service.name []
                (Analyze.services_or_fallback parsed (Analyze.incident_type r))).
      unfold Analyze.services_or_fallback. rewrite supplied_services_length.
      destruct (Nat.ltb_spec (List.length (array_or_empty (prop parsed "services"))) 3);
        [| lia].
      apply filter_unseen_id; [apply fallback_NoDup | now intros x _ []]. }
    pose proof (fallback_names (Analyze.incident_type r)) as Hn.
    rewrite <- Hfb, Hs in Hn. simpl in Hn. now injection Hn.
Qed.

(** X17 at [two_down]: its first service, auth, is refused. *)
Lemma page_executes_the_first_service_witness :
  Execute.POST
    (Execute.ok
       (Client.execute_body
          (Client.firstService
             (Some (Analyze.report_json
                      (@Analyze.safeResponse reference_engine (Some two_down))
                      default_context)))))
    "2024-01-01T00:00:00.000Z" (Execute.ok 200)
  = ([], json_error "Invalid service" 400).
Proof.
  destruct (page_executes_the_first_service reference_engine (Some two_down)
              default_context "2024-01-01T00:00:00.000Z" (Execute.ok 200))
    as (s0 & rest & Hs & _ & _ & _ & Hout & _).
  apply Hout. vm_compute in Hs. injection Hs as <- _.
  vm_compute. intuition discriminate.
Defined.

Section Voice.
Context {E : Engine}.

Lemma escalate_score (fields : list (string * JSON)) (z : Z) :
  lookup fields "severity_score" = Some (JNumber (int z)) -> 0 <= z <= 100 ->
  lookup (Client.escalate fields) "severity_score"
  = Some (JNumber (int (Z.min 100 (z + 12)))).
Proof.
  intros H Hz. unfold Client.escalate. rewrite lookup_put_same, H.
  unfold Client.plus_twelve, Client.clamp.
  rewrite add_int, rnd_safe by (assert (100 < 2 ^ 53) by reflexivity; lia).
  rewrite min_max_int. do 3 f_equal. lia.
Qed.

End Voice.



Ltac settle_cases :=
  repeat split; intros; cbn [fst snd] in *; try discriminate; try congruence;
  try contradiction; auto.



(** ** The blast radius *)

Lemma filter_length_all {A : Type} (f : A -> bool) (l : list A) :
  List.length (filter f l) = List.length l -> forall x, In x l -> f x = true.
Proof.
  induction l as [| y l IH]; intros H x Hx; [contradiction |].
  simpl in H. pose proof (filter_length_le f l) as Hle.
  destruct (f y) eqn:Hy; simpl in H; [| lia].
  destruct Hx as [<- | Hx]; [exact Hy | apply IH; [lia | exact Hx]].
Qed.

Lemma filter_none {A : Type} (f : A -> bool) (l : list A) :
  (forall x, In x l -> f x = false) -> filter f l = [].
Proof.
  induction l as [| y l IH]; intros H; [reflexivity |].
  simpl. rewrite (H y) by now left. apply IH. intros x Hx. apply H. now right.
Qed.

Lemma div_int (a b : Z) :
  0 < b -> div (int a) (int b) = rnd (inject_Z a / inject_Z b).
Proof.
  intros Hb. unfold div, int.
  assert (Hsign : sign (inject_Z b) = Gt).
  { unfold sign. apply Qgt_alt. unfold Qlt. simpl. lia. }
  now rewrite Hsign.
Qed.

(** The ratio of the blast radius at its ends: nothing affected, and
    everything down. *)
Lemma radius_zero (n : Z) :
  0 < n ->
  Math_min (int 100)
    (Math_max (int 0)
       (Math_round
          (mul (div (add (int 0) (mul (int 0) (lit (5 # 10)))) (int n)) (int 100))))
  = int 0.
Proof.
  intros Hn.
  assert (Hz : mul (int 0) (lit (5 # 10)) = int 0) by reflexivity.
  assert (H0 : add (int 0) (int 0) = int 0) by reflexivity.
  rewrite Hz, H0, div_int by lia.
  rewrite (rnd_proper (inject_Z 0 / inject_Z n) (inject_Z 0)).
  - reflexivity.
  - unfold Qdiv. apply Qmult_0_l.
Qed.

Lemma radius_full (n : Z) :
  0 < n <= 2 ^ 53 ->
  Math_min (int 100)
    (Math_max (int 0)
       (Math_round
          (mul (div (add (int n) (mul (int 0) (lit (5 # 10)))) (int n)) (int 100))))
  = int 100.
Proof.
  intros Hn.
  assert (Hz : mul (int 0) (lit (5 # 10)) = int 0) by reflexivity.
  rewrite Hz, add_int, Z.add_0_r, rnd_safe by lia.
  rewrite div_int by lia.
  rewrite (rnd_proper (inject_Z n / inject_Z n) (inject_Z 1)).
  - reflexivity.
  - apply Qmult_inv_r. unfold Qeq. simpl. lia.
Qed.

(** X20.  The blast radius of both routes is an integer between 0 and 100.
    It is 0 when there is no service or when no service is down or
    degraded, and 100 when every service is down. *)
Theorem blast_radius_ends (E : Engine) :
  (forall svcs : list JSON,
     is_score (Stream.calculateBlastRadius svcs)
     /\ (count_status "down" svcs = 0 -> count_status "degraded" svcs = 0 ->
         Stream.calculateBlastRadius svcs = int 0)
     /\ (svcs <> [] -> Z.of_nat (List.length svcs) <= 2 ^ 53 ->
         count_status "down" svcs = Z.of_nat (List.length svcs) ->
         Stream.calculateBlastRadius svcs = int 100))
  /\ (forall l : list Analyze.Service.t,
        is_score (Analyze.calculateBlastRadius l)
        /\ (count_services Analyze.down l = 0 ->
            count_services Analyze.degraded l = 0 ->
            Analyze.calculateBlastRadius l = int 0)
        /\ (l <> [] -> Z.of_nat (List.length l) <= 2 ^ 53 ->
            count_services Analyze.down l = Z.of_nat (List.length l) ->
            Analyze.calculateBlastRadius l = int 100)).
Proof.
  split.
  - intros svcs. split; [apply stream_blast_radius_score |].
    unfold Stream.calculateBlastRadius, Stream.clamp, count_status, of_nat.
    destruct svcs as [| s svcs]; [split; [reflexivity | congruence] |].
    set (l := s :: svcs).
    change (match List.length l with O => int 0 | S _ => ?x end) with x.
    assert (Hn : 0 < Z.of_nat (List.length l)) by (unfold l; simpl; lia).
    split.
    + intros Hd Hg.
      replace (List.length (filter (Stream.status_is "down") l)) with O by lia.
      replace (List.length (filter (Stream.status_is "degraded") l)) with O by lia.
      apply (radius_zero _ Hn).
    + intros _ Hle Hd. apply Nat2Z.inj in Hd.
      assert (Hg : filter (Stream.status_is "degraded") l = []).
      { apply filter_none. intros x Hx. apply status_exclusive.
        now apply (filter_length_all _ l Hd). }
      rewrite Hd, Hg. apply (radius_full _ (conj Hn Hle)).
  - intros l. split; [apply blast_radius_score |].
    unfold Analyze.calculateBlastRadius, Analyze.clamp, count_services, of_nat.
    destruct l as [| s l0]; [split; [reflexivity | congruence] |].
    set (l := s :: l0).
    change (match List.length l with O => int 0 | S _ => ?x end) with x.
    assert (Hn : 0 < Z.of_nat (List.length l)) by (unfold l; simpl; lia).
    split.
    + intros Hd Hg.
      replace (List.length (filter (Analyze.has_status Analyze.down) l)) with O by lia.
      replace (List.length (filter (Analyze.has_status Analyze.degraded) l))
        with O by lia.
      apply (radius_zero _ Hn).
    + intros _ Hle Hd. apply Nat2Z.inj in Hd.
      assert (Hg : filter (Analyze.has_status Analyze.degraded) l = []).
      { apply filter_none. intros x Hx.
        pose proof (filter_length_all _ l Hd x Hx) as Hx'.
        unfold Analyze.has_status in *. now destruct (Analyze.Service.status x). }
      rewrite Hd, Hg. apply (radius_full _ (conj Hn Hle)).
Qed.

(** X20 at two services that are down. *)
Lemma blast_radius_ends_witness :
  Stream.calculateBlastRadius [service_entry "auth" "down"; service_entry "db" "down"]
  = int 100.
Proof.
  apply (proj2 (proj2 (proj1 (blast_radius_ends reference_engine)
                         [service_entry "auth" "down"; service_entry "db" "down"]))).
  - discriminate.
  - vm_compute. discriminate.
  - reflexivity.
Defined.
